(** * Treasure-hunt handheld game: rotary decoder and game controller

    A shallow embedding of [rotary_encoder.py] (class [RotaryEncoder]) and of
    the state-carrying part of [code.py] (class [Game]).

    Conventions of the embedding.
    - Python integers are [Z]; lengths and [range] indices are [nat].
    - [time.monotonic()] readings are exact rationals ([Q], seconds); every
      reading the code takes is an explicit argument of the function that
      takes it.  Floating-point rounding is not modelled.
    - Pin levels, accelerometer samples and [random.randint] draws are
      explicit arguments as well.
    - An uncaught Python exception ([IndexError], [KeyError]) is [None].
    - The display, the buzzer and the LED are output-only collaborators:
      nothing the game reads back depends on them.  [play_step],
      [disarm_step], [dig] and [play_enter] carry the session through the
      code and leave the output calls (with the [time.sleep] pauses around
      them) out; [play_step_io], [disarm_step_io], [dig_io] and
      [play_enter_io] have the calls of [uled] and [draw] in their places,
      with every look-up and division by which these can raise, and give
      the same results wherever they return.  The display buffer and its
      drawing calls are modelled on their own (modules [SSD1306] and
      [Glyphs]); the screens [welcome], [win] and [over] are left out. *)

From Stdlib Require Import ZArith QArith Lqa Lia.
From Stdlib Require Import Ascii String.
From stdpp Require Import base option list.

Local Open Scope Z_scope.

(** ** Python arithmetic on the clock *)

(** [a < b] and [a >= b] on clock readings, as booleans. *)
Definition Qltb (a b : Q) : bool := negb (Qle_bool b a).
Definition Qgeb (a b : Q) : bool := Qle_bool b a.

(** [int(x)] for a float [x]: truncation towards zero. *)
Definition py_int (x : Q) : Z := Z.quot (Qnum x) (Z.pos (Qden x)).

(** The remaining whole seconds of a countdown of [limit] seconds started
    at [start_time], read at [now]:
    [el = int(now - start_time); rm = max(0, limit - el)]. *)
Definition remaining (limit : Z) (start_time now : Q) : Z :=
  let el := py_int (now - start_time) in
  Z.max 0 (limit - el).

(** [random.randint(0, i)]: the oracle supplies a raw draw [n]; reducing it
    modulo [i + 1] makes every oracle admissible and every value of
    [0..i] reachable. *)
Definition randint0 (i n : nat) : nat := (n mod (S i))%nat.

(** * The quadrature decoder ([rotary_encoder.py]) *)

Module RotaryEncoder.

Record t := mk {
  last_a : bool;
  last_b : bool;
  debounce_ms : Z;
  pulses_per_detent : Z;
  last_change_time : Q;        (* milliseconds *)
  position_raw : Z;
  position : Z;
  delta_accum : Z
}.

(** [__init__]: [a0], [b0] are the pin levels and [now_ms] the clock reading
    ([time.monotonic() * 1000.0]) at construction. *)
Definition init (a0 b0 : bool) (now_ms : Q) (debounce pulses : Z) : t :=
  {| last_a := a0; last_b := b0;
     debounce_ms := Z.max 0 debounce;
     pulses_per_detent := Z.max 1 pulses;
     last_change_time := now_ms;
     position_raw := 0; position := 0; delta_accum := 0 |}.

Definition set_last (a b : bool) (e : t) : t :=
  {| last_a := a; last_b := b;
     debounce_ms := debounce_ms e; pulses_per_detent := pulses_per_detent e;
     last_change_time := last_change_time e;
     position_raw := position_raw e; position := position e;
     delta_accum := delta_accum e |}.

(** The edge table: falling edge of A counts +1 with B high and -1 with B
    low; a rising edge counts the other way round. *)
Definition edge_step (a b : bool) : Z :=
  if negb a then (if b then 1 else -1) else (if b then -1 else 1).

(** [update()]: [a], [b] are the sampled levels, [now_ms] the clock reading
    taken when A has changed. *)
Definition update (a b : bool) (now_ms : Q) (e : t) : bool * t :=
  if negb (Bool.eqb a (last_a e)) then
    if Qgeb (now_ms - last_change_time e) (inject_Z (debounce_ms e)) then
      let raw := position_raw e + edge_step a b in
      let new_pos := raw `div` pulses_per_detent e in
      if negb (new_pos =? position e) then
        let delta := new_pos - position e in
        (true,
         {| last_a := a; last_b := b;
            debounce_ms := debounce_ms e;
            pulses_per_detent := pulses_per_detent e;
            last_change_time := now_ms;
            position_raw := raw; position := new_pos;
            delta_accum := delta_accum e + delta |})
      else
        (false,
         {| last_a := a; last_b := b;
            debounce_ms := debounce_ms e;
            pulses_per_detent := pulses_per_detent e;
            last_change_time := now_ms;
            position_raw := raw; position := position e;
            delta_accum := delta_accum e |})
    else (false, set_last a b e)
  else (false, set_last a b e).

(** [get_delta()]: read and clear. *)
Definition get_delta (e : t) : Z * t :=
  (delta_accum e,
   {| last_a := last_a e; last_b := last_b e;
      debounce_ms := debounce_ms e; pulses_per_detent := pulses_per_detent e;
      last_change_time := last_change_time e;
      position_raw := position_raw e; position := position e;
      delta_accum := 0 |}).

(** [reset(to_detent=...)]; the argument is the value of [int(to_detent)]. *)
Definition reset (to_detent : option Z) (e : t) : t :=
  match to_detent with
  | None =>
      {| last_a := last_a e; last_b := last_b e;
         debounce_ms := debounce_ms e;
         pulses_per_detent := pulses_per_detent e;
         last_change_time := last_change_time e;
         position_raw := 0; position := 0; delta_accum := 0 |}
  | Some d =>
      {| last_a := last_a e; last_b := last_b e;
         debounce_ms := debounce_ms e;
         pulses_per_detent := pulses_per_detent e;
         last_change_time := last_change_time e;
         position_raw := d * pulses_per_detent e; position := d;
         delta_accum := 0 |}
  end.

(** A client's view of the decoder: the operations it may issue. *)
Inductive op :=
| Update (a b : bool) (now_ms : Q)
| GetDelta
| Reset (to_detent : option Z).

(** What a client observes while issuing operations: the decoder itself,
    the detent position at construction or at the last [reset], and the sum
    of the values [get_delta] has returned since then. *)
Record observed := Obs {
  dec : t;
  base : Z;
  returned : Z
}.

Definition observe_init (e : t) : observed :=
  {| dec := e; base := position e; returned := 0 |}.

Definition exec (o : op) (s : observed) : observed :=
  match o with
  | Update a b now_ms =>
      {| dec := snd (update a b now_ms (dec s));
         base := base s; returned := returned s |}
  | GetDelta =>
      let '(d, e') := get_delta (dec s) in
      {| dec := e'; base := base s; returned := returned s + d |}
  | Reset d =>
      let e' := reset d (dec s) in
      {| dec := e'; base := position e'; returned := 0 |}
  end.

Definition run (ops : list op) (s : observed) : observed :=
  foldl (fun s o => exec o s) s ops.

(** The invariant of the decoder as a client observes it. *)
Definition decoder_inv (s : observed) : Prop :=
  1 <= pulses_per_detent (dec s)
  /\ position (dec s) = position_raw (dec s) `div` pulses_per_detent (dec s)
  /\ returned s + delta_accum (dec s) = position (dec s) - base s.

End RotaryEncoder.

(** * The game controller ([code.py], class [Game]) *)

(** ** Data *)

(** [self.st]: the five state strings. *)
Inductive state := MENU | PLAY | LV10 | WIN | OVER.

(** A grid cell: [' '], ['T'] or ['B']. *)
Inductive cell := Empty | Treasure | Bomb.

#[global] Instance cell_eq_dec : EqDecision cell.
Proof. solve_decision. Defined.

#[global] Instance state_eq_dec : EqDecision state.
Proof. solve_decision. Defined.

Abbreviation grid := (list (list cell)).

(** An entry of [self.cfg] (the display name ['n'] is left out). *)
Record difficulty := Difficulty {
  c_hp : Z;       (* 'hp'  *)
  c_t : Z;        (* 't'   *)
  c_h10 : Z;      (* 'h10' *)
  c_t10 : Z       (* 't10' *)
}.

(** [self.cfg]; a key outside the dictionary is a [KeyError]. *)
Definition cfg (k : Z) : option difficulty :=
  match k with
  | 0 => Some (Difficulty 6 60 2 30)
  | 1 => Some (Difficulty 4 30 2 15)
  | 2 => Some (Difficulty 2 15 1 15)
  | _ => None
  end.

(** A value of [self.lvl]: the tuple
    (rows, columns, treasures, bombs, treasures needed). *)
Definition level (r co tr bm : nat) (nd : Z) : nat * nat * nat * nat * Z :=
  (r, co, tr, bm, nd).

(** [self.lvl]; a key outside the dictionary is a [KeyError]. *)
Definition lvl (k : Z) : option (nat * nat * nat * nat * Z) :=
  match k with
  | 1 => Some (level 2 2 2 1 1)
  | 2 => Some (level 2 3 3 2 2)
  | 3 => Some (level 2 3 3 2 2)
  | 4 => Some (level 3 3 4 3 2)
  | 5 => Some (level 3 3 4 3 3)
  | 6 => Some (level 3 4 5 4 3)
  | 7 => Some (level 3 4 5 5 3)
  | 8 => Some (level 4 4 6 5 4)
  | 9 => Some (level 4 4 6 6 4)
  | _ => None
  end.

(** The attributes of a [Game] object that the game logic reads back. *)
Record Game := mkGame {
  enc : RotaryEncoder.t;
  ebl : bool;
  bl : bool;
  lbt : Q;
  st : state;
  df : Z;
  lv : Z;
  hp : Z;
  sc : Z;
  shake_event_available : bool;
  bomb_disarm_active : bool;
  shake_threshold : Q;
  shake_start_time : Q;
  shake_duration : Q;
  last_tick_time : Q;
  grd : grid;
  rev : list (list bool);
  pos : Z * Z;
  fnd : Z;
  stm : Q;
  tlm : Z;
  fch : Z;
  fhp : Z
}.

(** [Game.__init__], given the freshly constructed decoder. *)
Definition game_init (e : RotaryEncoder.t) : Game :=
  {| enc := e; ebl := true; bl := true; lbt := 0; st := MENU; df := 0;
     lv := 1; hp := 6; sc := 0;
     shake_event_available := false; bomb_disarm_active := false;
     shake_threshold := 2; shake_start_time := 0; shake_duration := 3;
     last_tick_time := 0;
     grd := []; rev := []; pos := (0, 0); fnd := 0; stm := 0; tlm := 60;
     fch := 0; fhp := 2 |}.

(** Attribute assignment, one function per attribute the code assigns. *)
Definition set_enc (v : RotaryEncoder.t) (g : Game) : Game :=
  mkGame v (ebl g) (bl g) (lbt g) (st g) (df g) (lv g) (hp g) (sc g)
    (shake_event_available g) (bomb_disarm_active g) (shake_threshold g)
    (shake_start_time g) (shake_duration g) (last_tick_time g)
    (grd g) (rev g) (pos g) (fnd g) (stm g) (tlm g) (fch g) (fhp g).
Definition set_ebl (v : bool) (g : Game) : Game :=
  mkGame (enc g) v (bl g) (lbt g) (st g) (df g) (lv g) (hp g) (sc g)
    (shake_event_available g) (bomb_disarm_active g) (shake_threshold g)
    (shake_start_time g) (shake_duration g) (last_tick_time g)
    (grd g) (rev g) (pos g) (fnd g) (stm g) (tlm g) (fch g) (fhp g).
Definition set_bl (v : bool) (g : Game) : Game :=
  mkGame (enc g) (ebl g) v (lbt g) (st g) (df g) (lv g) (hp g) (sc g)
    (shake_event_available g) (bomb_disarm_active g) (shake_threshold g)
    (shake_start_time g) (shake_duration g) (last_tick_time g)
    (grd g) (rev g) (pos g) (fnd g) (stm g) (tlm g) (fch g) (fhp g).
Definition set_lbt (v : Q) (g : Game) : Game :=
  mkGame (enc g) (ebl g) (bl g) v (st g) (df g) (lv g) (hp g) (sc g)
    (shake_event_available g) (bomb_disarm_active g) (shake_threshold g)
    (shake_start_time g) (shake_duration g) (last_tick_time g)
    (grd g) (rev g) (pos g) (fnd g) (stm g) (tlm g) (fch g) (fhp g).
Definition set_st (v : state) (g : Game) : Game :=
  mkGame (enc g) (ebl g) (bl g) (lbt g) v (df g) (lv g) (hp g) (sc g)
    (shake_event_available g) (bomb_disarm_active g) (shake_threshold g)
    (shake_start_time g) (shake_duration g) (last_tick_time g)
    (grd g) (rev g) (pos g) (fnd g) (stm g) (tlm g) (fch g) (fhp g).
Definition set_df (v : Z) (g : Game) : Game :=
  mkGame (enc g) (ebl g) (bl g) (lbt g) (st g) v (lv g) (hp g) (sc g)
    (shake_event_available g) (bomb_disarm_active g) (shake_threshold g)
    (shake_start_time g) (shake_duration g) (last_tick_time g)
    (grd g) (rev g) (pos g) (fnd g) (stm g) (tlm g) (fch g) (fhp g).
Definition set_lv (v : Z) (g : Game) : Game :=
  mkGame (enc g) (ebl g) (bl g) (lbt g) (st g) (df g) v (hp g) (sc g)
    (shake_event_available g) (bomb_disarm_active g) (shake_threshold g)
    (shake_start_time g) (shake_duration g) (last_tick_time g)
    (grd g) (rev g) (pos g) (fnd g) (stm g) (tlm g) (fch g) (fhp g).
Definition set_hp (v : Z) (g : Game) : Game :=
  mkGame (enc g) (ebl g) (bl g) (lbt g) (st g) (df g) (lv g) v (sc g)
    (shake_event_available g) (bomb_disarm_active g) (shake_threshold g)
    (shake_start_time g) (shake_duration g) (last_tick_time g)
    (grd g) (rev g) (pos g) (fnd g) (stm g) (tlm g) (fch g) (fhp g).
Definition set_sc (v : Z) (g : Game) : Game :=
  mkGame (enc g) (ebl g) (bl g) (lbt g) (st g) (df g) (lv g) (hp g) v
    (shake_event_available g) (bomb_disarm_active g) (shake_threshold g)
    (shake_start_time g) (shake_duration g) (last_tick_time g)
    (grd g) (rev g) (pos g) (fnd g) (stm g) (tlm g) (fch g) (fhp g).
Definition set_shake_event_available (v : bool) (g : Game) : Game :=
  mkGame (enc g) (ebl g) (bl g) (lbt g) (st g) (df g) (lv g) (hp g) (sc g)
    v (bomb_disarm_active g) (shake_threshold g)
    (shake_start_time g) (shake_duration g) (last_tick_time g)
    (grd g) (rev g) (pos g) (fnd g) (stm g) (tlm g) (fch g) (fhp g).
Definition set_bomb_disarm_active (v : bool) (g : Game) : Game :=
  mkGame (enc g) (ebl g) (bl g) (lbt g) (st g) (df g) (lv g) (hp g) (sc g)
    (shake_event_available g) v (shake_threshold g)
    (shake_start_time g) (shake_duration g) (last_tick_time g)
    (grd g) (rev g) (pos g) (fnd g) (stm g) (tlm g) (fch g) (fhp g).
Definition set_shake_start_time (v : Q) (g : Game) : Game :=
  mkGame (enc g) (ebl g) (bl g) (lbt g) (st g) (df g) (lv g) (hp g) (sc g)
    (shake_event_available g) (bomb_disarm_active g) (shake_threshold g)
    v (shake_duration g) (last_tick_time g)
    (grd g) (rev g) (pos g) (fnd g) (stm g) (tlm g) (fch g) (fhp g).
Definition set_last_tick_time (v : Q) (g : Game) : Game :=
  mkGame (enc g) (ebl g) (bl g) (lbt g) (st g) (df g) (lv g) (hp g) (sc g)
    (shake_event_available g) (bomb_disarm_active g) (shake_threshold g)
    (shake_start_time g) (shake_duration g) v
    (grd g) (rev g) (pos g) (fnd g) (stm g) (tlm g) (fch g) (fhp g).
Definition set_grd (v : grid) (g : Game) : Game :=
  mkGame (enc g) (ebl g) (bl g) (lbt g) (st g) (df g) (lv g) (hp g) (sc g)
    (shake_event_available g) (bomb_disarm_active g) (shake_threshold g)
    (shake_start_time g) (shake_duration g) (last_tick_time g)
    v (rev g) (pos g) (fnd g) (stm g) (tlm g) (fch g) (fhp g).
Definition set_rev (v : list (list bool)) (g : Game) : Game :=
  mkGame (enc g) (ebl g) (bl g) (lbt g) (st g) (df g) (lv g) (hp g) (sc g)
    (shake_event_available g) (bomb_disarm_active g) (shake_threshold g)
    (shake_start_time g) (shake_duration g) (last_tick_time g)
    (grd g) v (pos g) (fnd g) (stm g) (tlm g) (fch g) (fhp g).
Definition set_pos (v : Z * Z) (g : Game) : Game :=
  mkGame (enc g) (ebl g) (bl g) (lbt g) (st g) (df g) (lv g) (hp g) (sc g)
    (shake_event_available g) (bomb_disarm_active g) (shake_threshold g)
    (shake_start_time g) (shake_duration g) (last_tick_time g)
    (grd g) (rev g) v (fnd g) (stm g) (tlm g) (fch g) (fhp g).
Definition set_fnd (v : Z) (g : Game) : Game :=
  mkGame (enc g) (ebl g) (bl g) (lbt g) (st g) (df g) (lv g) (hp g) (sc g)
    (shake_event_available g) (bomb_disarm_active g) (shake_threshold g)
    (shake_start_time g) (shake_duration g) (last_tick_time g)
    (grd g) (rev g) (pos g) v (stm g) (tlm g) (fch g) (fhp g).
Definition set_stm (v : Q) (g : Game) : Game :=
  mkGame (enc g) (ebl g) (bl g) (lbt g) (st g) (df g) (lv g) (hp g) (sc g)
    (shake_event_available g) (bomb_disarm_active g) (shake_threshold g)
    (shake_start_time g) (shake_duration g) (last_tick_time g)
    (grd g) (rev g) (pos g) (fnd g) v (tlm g) (fch g) (fhp g).
Definition set_tlm (v : Z) (g : Game) : Game :=
  mkGame (enc g) (ebl g) (bl g) (lbt g) (st g) (df g) (lv g) (hp g) (sc g)
    (shake_event_available g) (bomb_disarm_active g) (shake_threshold g)
    (shake_start_time g) (shake_duration g) (last_tick_time g)
    (grd g) (rev g) (pos g) (fnd g) (stm g) v (fch g) (fhp g).
Definition set_fch (v : Z) (g : Game) : Game :=
  mkGame (enc g) (ebl g) (bl g) (lbt g) (st g) (df g) (lv g) (hp g) (sc g)
    (shake_event_available g) (bomb_disarm_active g) (shake_threshold g)
    (shake_start_time g) (shake_duration g) (last_tick_time g)
    (grd g) (rev g) (pos g) (fnd g) (stm g) (tlm g) v (fhp g).
Definition set_fhp (v : Z) (g : Game) : Game :=
  mkGame (enc g) (ebl g) (bl g) (lbt g) (st g) (df g) (lv g) (hp g) (sc g)
    (shake_event_available g) (bomb_disarm_active g) (shake_threshold g)
    (shake_start_time g) (shake_duration g) (last_tick_time g)
    (grd g) (rev g) (pos g) (fnd g) (stm g) (tlm g) (fch g) v.

(** ** Python list indexing with an integer that may be negative *)

Definition py_index {A} (l : list A) (i : Z) : option nat :=
  let n := Z.of_nat (length l) in
  if (0 <=? i) && (i <? n) then Some (Z.to_nat i)
  else if (- n <=? i) && (i <? 0) then Some (Z.to_nat (n + i))
  else None.

(** [l[i]] *)
Definition py_get {A} (l : list A) (i : Z) : option A :=
  k ← py_index l i; l !! k.

(** [l[i] = x] *)
Definition py_set {A} (l : list A) (i : Z) (x : A) : option (list A) :=
  k ← py_index l i; Some (<[k := x]> l).

(** ** Inputs *)

(** [check_shake]: [sample] is the accelerometer reading, [None] when the
    read raises (the [except] clause swallows it).  The comparison
    [sqrt(s) > limit] is written without the square root: for [s >= 0] it
    holds exactly when [limit < 0] or [limit * limit < s]. *)
Definition magnitude_gt (x y z limit : Q) : bool :=
  Qltb limit 0 || Qltb (limit * limit) (x * x + y * y + z * z).

Definition check_shake (sample : option (Q * Q * Q)) (g : Game) : bool :=
  match sample with
  | Some (x, y, z) => magnitude_gt x y z ((98 # 10) + shake_threshold g)
  | None => false
  end.

(** [cbtn]: [now] is the clock reading, [e] and [b] the levels of the
    encoder button and of the separate button. *)
Definition cbtn (now : Q) (e b : bool) (g : Game) : bool * Game :=
  if Qltb (now - lbt g) (2 # 10) then (false, g)
  else
    let pr := (ebl g && negb e) || (bl g && negb b) in
    let g1 := set_bl b (set_ebl e g) in
    if pr then (true, set_lbt now g1) else (false, g1).

(** [renc]: one decoder update followed by a read-and-clear of the delta;
    the result is its sign. *)
Definition renc (a b : bool) (now_ms : Q) (g : Game) : Z * Game :=
  let e1 := snd (RotaryEncoder.update a b now_ms (enc g)) in
  let '(d, e2) := RotaryEncoder.get_delta e1 in
  let g1 := set_enc e2 g in
  if 0 <? d then (1, g1)
  else if d <? 0 then (-1, g1)
  else (0, g1).

(** ** Starting a game and generating a level *)

(** [start] *)
Definition start (g : Game) : option Game :=
  c ← cfg (df g);
  Some (set_st PLAY (set_sc 0 (set_lv 1 (set_tlm (c_t c) (set_hp (c_hp c) g))))).

(** [l[i], l[j] = l[j], l[i]] *)
Definition swap {A} (i j : nat) (l : list A) : option (list A) :=
  x ← l !! j;
  y ← l !! i;
  Some (<[j := y]> (<[i := x]> l)).

(** The loop of [shuf] from index [i] down to 1; [rnd] is the stream of
    raw random draws. *)
Fixpoint shuf_from {A} (i : nat) (rnd : list nat) (l : list A)
  : option (list A) :=
  match i with
  | O => Some l
  | S i' =>
      let j := randint0 i (hd O rnd) in
      l' ← swap i j l;
      shuf_from i' (tl rnd) l'
  end.

(** [shuf] *)
Definition shuf {A} (rnd : list nat) (l : list A) : option (list A) :=
  shuf_from (length l - 1) rnd l.

(** The indices [shuf] swaps with: the values of [random.randint(0, i)]
    for [i] from [n] down to 1, on the stream [rnd] of raw draws. *)
Fixpoint drawn (n : nat) (rnd : list nat) : list nat :=
  match n with
  | O => []
  | S n' => randint0 n (hd O rnd) :: drawn n' (tl rnd)
  end.

(** [[(i, j) for i in range(r) for j in range(co)]] *)
Definition all_positions (r co : nat) : list (nat * nat) :=
  i ← seq 0 r; pair i <$> seq 0 co.

(** [grd[p[0]][p[1]] = k] *)
Definition set_cell (p : nat * nat) (k : cell) (g : grid) : option grid :=
  row ← g !! p.1;
  _ ← row !! p.2;
  Some (<[p.1 := <[p.2 := k]> row]> g).

(** [for i in idx: grd[ps[i][0]][ps[i][1]] = k] *)
Fixpoint place (k : cell) (ps : list (nat * nat)) (idx : list nat) (g : grid)
  : option grid :=
  match idx with
  | [] => Some g
  | i :: idx' =>
      p ← ps !! i;
      g' ← set_cell p k g;
      place k ps idx' g'
  end.

(** The grid part of [ilvl]: the shuffled coordinates and the grid. *)
Definition gen_grid (r co tr bm : nat) (rnd : list nat)
  : option (list (nat * nat) * grid) :=
  let grd0 := replicate r (replicate co Empty) in
  ps ← shuf rnd (all_positions r co);
  g1 ← place Treasure ps (seq 0 tr) grd0;
  g2 ← place Bomb ps (seq tr bm) g1;
  Some (ps, g2).

(** [ilvl]: [rnd] feeds the shuffle, [now] is the clock reading stored as
    the level start time. *)
Definition ilvl (rnd : list nat) (now : Q) (g : Game) : option Game :=
  c ← cfg (df g);
  '(r, co, tr, bm, _) ← lvl (lv g);
  '(_, grd') ← gen_grid r co tr bm rnd;
  Some
    (set_bomb_disarm_active false
    (set_stm now
    (set_fnd 0
    (set_pos (0, 0)
    (set_rev (replicate r (replicate co false))
    (set_grd grd'
    (set_shake_event_available (bool_decide (df g = 0))
    (set_tlm (c_t c)
    (set_hp (c_hp c) g))))))))).

(** ** Moving and digging *)

(** The cursor arithmetic of [move] on a grid of [rows] by [cols]. *)
Definition move_pos (rows cols d : Z) (p : Z * Z) : Z * Z :=
  let '(r, c) := p in
  if 0 <? d then
    let c := c + 1 in
    if cols <=? c then ((r + 1) `mod` rows, 0) else (r, c)
  else
    let c := c - 1 in
    if c <? 0 then ((r - 1) `mod` rows, cols - 1) else (r, c).

(** [move] *)
Definition move (d : Z) (g : Game) : option Game :=
  let rows := Z.of_nat (length (grd g)) in
  row0 ← py_get (grd g) 0;
  let cols := Z.of_nat (length row0) in
  Some (set_pos (move_pos rows cols d (pos g)) g).

(** [dig]: [t1] and [t2] are the two clock readings taken when a disarm
    sequence starts.  The calls of [uled] are in [dig_io]. *)
Definition dig (t1 t2 : Q) (g : Game) : option Game :=
  let '(r, c) := pos g in
  row ← py_get (rev g) r;
  revealed ← py_get row c;
  if revealed : bool then Some g
  else
    row' ← py_set row c true;
    rev' ← py_set (rev g) r row';
    let g1 := set_rev rev' g in
    grow ← py_get (grd g) r;
    k ← py_get grow c;
    match k with
    | Treasure => Some (set_sc (sc g1 + 50) (set_fnd (fnd g1 + 1) g1))
    | Bomb =>
        if shake_event_available g1 then
          Some (set_shake_event_available false
               (set_last_tick_time t2
               (set_shake_start_time t1
               (set_bomb_disarm_active true g1))))
        else Some (set_hp (hp g1 - 1) g1)
    | Empty => Some g1
    end.

(** ** The PLAY loop *)

(** How an iteration of a [while] loop ends: at [continue] or at the end of
    the body ([Continue]), or at [break] ([Break]). *)
Inductive flow := Continue | Break.

(** The local variables of [play]. *)
Record play_loc := PlayLoc {
  ld : Q;       (* last draw time *)
  le : Q;       (* last encoder change time *)
  lw : Z        (* last warned remaining time *)
}.

(** Everything one iteration of the loop of [play] may read from outside. *)
Record play_in := PlayIn {
  i_now : Q;                       (* [now = time.monotonic()] *)
  i_accel : option (Q * Q * Q);    (* accelerometer, for [check_shake] *)
  i_enc_a : bool;                  (* decoder line A *)
  i_enc_b : bool;                  (* decoder line B *)
  i_enc_now : Q;                   (* clock (ms) inside [enc.update] *)
  i_btn_now : Q;                   (* clock inside [cbtn] *)
  i_btn_e : bool;                  (* encoder button level *)
  i_btn_b : bool;                  (* separate button level *)
  i_dig_t1 : Q;                    (* clock readings inside [dig] *)
  i_dig_t2 : Q;
  i_rnd : list nat;                (* random draws for [ilvl] *)
  i_lvl_now : Q                    (* clock inside [ilvl] *)
}.

(** The level-clear check that ends an iteration of [play]; [rm] is the
    remaining time computed at the top of the iteration. *)
Definition check_clear (rm : Z) (l : play_loc) (g : Game)
  : option (Game * play_loc * flow) :=
  '(_, _, _, _, nd) ← lvl (lv g);
  if nd <=? fnd g then
    let g1 := set_lv (lv g + 1) (set_sc (sc g + (100 + rm * 2)) g) in
    if 9 <? lv g1 then Some (set_st LV10 g1, l, Break)
    else Some (g1, l, Break)
  else Some (g, l, Continue).

(** The branch of the loop taken while [bomb_disarm_active] holds.  The
    calls of [uled] and [draw] are in [disarm_step_io]. *)
Definition disarm_step (i : play_in) (l : play_loc) (g : Game)
  : Game * play_loc * flow :=
  let now := i_now i in
  let elapsed := (now - shake_start_time g)%Q in
  let g1 := if Qltb (5 # 10) (now - last_tick_time g)
            then set_last_tick_time now g else g in
  if Qgeb elapsed (shake_duration g1) then
    let g2 := set_bomb_disarm_active false g1 in
    let g3 := set_hp (hp g2 - 1) g2 in
    if hp g3 <=? 0 then (set_st OVER g3, l, Continue)
    else (g3, PlayLoc now (le l) (lw l), Continue)
  else if check_shake (i_accel i) g1 then
    let g2 := set_bomb_disarm_active false g1 in
    let g3 := set_sc (sc g2 + 100) g2 in
    (g3, PlayLoc now (le l) (lw l), Continue)
  else (g1, l, Continue).

(** One iteration of [while self.st == 'PLAY'] in [play].  The calls of
    [uled] and [draw] are in [play_step_io]. *)
Definition play_step (i : play_in) (l : play_loc) (g : Game)
  : option (Game * play_loc * flow) :=
  let now := i_now i in
  if bomb_disarm_active g then Some (disarm_step i l g)
  else
    let rm := remaining (tlm g) (stm g) now in
    let l1 := if (rm <=? 5) && (0 <? rm) && negb (rm =? lw l)
              then PlayLoc (ld l) (le l) rm else l in
    if rm <=? 0 then
      let g1 := set_hp (hp g - 1) g in
      if hp g1 <=? 0 then Some (set_st OVER g1, l1, Continue)
      else
        g2 ← ilvl (i_rnd i) (i_lvl_now i) g1;
        Some (g2, PlayLoc now (le l1) (lw l1), Continue)
    else
      let '(d, g1) := renc (i_enc_a i) (i_enc_b i) (i_enc_now i) g in
      '(g2, l2) ←
        (if negb (d =? 0) && Qltb (8 # 100) (now - le l1) then
           g' ← move d g1; Some (g', PlayLoc now now (lw l1))
         else Some (g1, l1));
      let l3 := if Qltb (5 # 10) (now - ld l2)
                then PlayLoc now (le l2) (lw l2) else l2 in
      let '(pr, g3) := cbtn (i_btn_now i) (i_btn_e i) (i_btn_b i) g2 in
      if pr then
        g4 ← dig (i_dig_t1 i) (i_dig_t2 i) g3;
        if hp g4 <=? 0 then Some (set_st OVER g4, l3, Break)
        else check_clear rm l3 g4
      else check_clear rm l3 g3.

(** Entering [play]: the level is initialised and the locals are set;
    [t_ld] is the clock reading stored in [ld].  The calls of [uled] and
    [draw] are in [play_enter_io]. *)
Definition play_enter (rnd : list nat) (t_stm t_ld : Q) (g : Game)
  : option (Game * play_loc) :=
  g1 ← ilvl rnd t_stm g;
  Some (g1, PlayLoc t_ld 0 (-1)).

(** ** The final level *)

(** The local variables of [lv10]. *)
Record lv10_loc := Lv10Loc {
  tl : Z;       (* time limit of the final level *)
  rd : bool;    (* redraw needed *)
  le10 : Q;     (* last encoder change time ([le]) *)
  ls : Z;       (* last displayed second *)
  cor : Z       (* the correct chest *)
}.

(** Everything one iteration of the loop of [lv10] may read from outside. *)
Record lv10_in := Lv10In {
  j_now : Q;
  j_enc_a : bool;
  j_enc_b : bool;
  j_enc_now : Q;
  j_btn_now : Q;
  j_btn_e : bool;
  j_btn_b : bool;
  j_retry_now : Q;     (* clock when the countdown is restarted *)
  j_retry_rnd : nat    (* raw draw for the new correct answer *)
}.

(** Entering [lv10]: [now] is the clock reading stored as start time and
    [n] the raw draw for the correct answer. *)
Definition lv10_enter (now : Q) (n : nat) (g : Game)
  : option (Game * lv10_loc) :=
  c ← cfg (df g);
  Some (set_stm now (set_fch 0 (set_fhp (c_h10 c) g)),
        Lv10Loc (c_t10 c) true 0 (-1) (Z.of_nat (randint0 1 n))).

(** One iteration of [while True] in [lv10]. *)
Definition lv10_step (i : lv10_in) (l : lv10_loc) (g : Game)
  : Game * lv10_loc * flow :=
  let now := j_now i in
  let el := py_int (now - stm g) in
  let rm := remaining (tl l) (stm g) now in
  if rm =? 0 then (set_st OVER g, l, Break)
  else
    let '(d, g1) := renc (j_enc_a i) (j_enc_b i) (j_enc_now i) g in
    let '(g2, l1) :=
      if negb (d =? 0) && Qltb (15 # 100) (now - le10 l)
      then (set_fch (1 - fch g1) g1, Lv10Loc (tl l) true now (ls l) (cor l))
      else (g1, l) in
    let l2 := if rd l1 || negb (el =? ls l1)
              then Lv10Loc (tl l1) false (le10 l1) el (cor l1) else l1 in
    let '(pr, g3) := cbtn (j_btn_now i) (j_btn_e i) (j_btn_b i) g2 in
    if pr then
      if fch g3 =? cor l2 then
        (set_st WIN (set_sc (sc g3 + 500) g3), l2, Break)
      else
        let g4 := set_fhp (fhp g3 - 1) g3 in
        if fhp g4 <=? 0 then (set_st OVER g4, l2, Break)
        else
          (set_stm (j_retry_now i) g4,
           Lv10Loc (tl l2) true (le10 l2) (ls l2)
                   (Z.of_nat (randint0 1 (j_retry_rnd i))),
           Continue)
    else (g3, l2, Continue).

(** ** Vocabulary of the properties *)

(** A list of rows is a grid of [r] rows of [co] cells each. *)
Definition grid_shape {A} (r co : nat) (g : list (list A)) : Prop :=
  length g = r /\ Forall (fun row => length row = co) g.

(** The cursor is on a cell of a grid of [rows] by [cols]. *)
Definition valid_pos (rows cols : Z) (p : Z * Z) : Prop :=
  0 <= p.1 < rows /\ 0 <= p.2 < cols.

(** The rank of a cell in row-major order. *)
Definition cell_index (cols : Z) (p : Z * Z) : Z := p.1 * cols + p.2.

(** [k] calls of [move d] in a row. *)
Definition moves (d : Z) (k : nat) (g : Game) : option Game :=
  Nat.iter k (fun o => o ≫= move d) (Some g).

(** The cell of a grid at a coordinate. *)
Definition cell_at (g : grid) (p : nat * nat) : option cell :=
  g !! p.1 ≫= (.!! p.2).

(** The number of cells of kind [k] in a grid. *)
Definition count_cells (k : cell) (g : grid) : nat :=
  length (filter (fun c => c = k) (concat g)).

(** [grd[p[0]][p[1]] = k] for every [p] of a list, in order. *)
Fixpoint set_cells (k : cell) (qs : list (nat * nat)) (g : grid)
  : option grid :=
  match qs with
  | [] => Some g
  | p :: qs' => g' ← set_cell p k g; set_cells k qs' g'
  end.

(** The shuffle in the words of the specification: for [i] from the last
    index down to 1, element [i] is swapped with the element at an index
    [j] of [0..i]; [js] lists the indices taken, one for each step, the
    first step first. *)
Inductive fisher_yates {A} : nat -> list nat -> list A -> list A -> Prop :=
| fy_done l : fisher_yates 0 [] l l
| fy_swap i j js x y l l' :
    (j <= S i)%nat ->
    l !! S i = Some x -> l !! j = Some y ->
    fisher_yates i js (<[S i := y]> (<[j := x]> l)) l' ->
    fisher_yates (S i) (j :: js) l l'.

(** One call of [cbtn] as the outside world sees it: the clock reading and
    the levels of the encoder button and of the separate button. *)
Definition poll : Type := Q * bool * bool.

(** Successive calls of [cbtn]: what each call returned, and the session
    after the last one. *)

Fixpoint cbtn_run (polls : list poll) (g : Game) : list bool * Game :=
  match polls with
  | [] => ([], g)
  | (t, e, b) :: polls' =>
      let '(r, g1) := cbtn t e b g in
      let '(rs, g2) := cbtn_run polls' g1 in
      (r :: rs, g2)
  end.

(** The clock readings of the polls of a run that reported a press. *)
Fixpoint accepted (polls : list poll) (g : Game) : list Q :=
  match polls with
  | [] => []
  | (t, e, b) :: polls' =>
      let '(r, g1) := cbtn t e b g in
      if r then t :: accepted polls' g1 else accepted polls' g1
  end.

(** No poll of a run samples a button low that the poll before it sampled
    high; [e0] and [b0] are the levels sampled before the run. *)
Fixpoint no_new_press (e0 b0 : bool) (polls : list poll) : Prop :=
  match polls with
  | [] => True
  | (_, e, b) :: polls' =>
      (e0 && negb e) || (b0 && negb b) = false /\ no_new_press e b polls'
  end.

(** Every reading of [ts] is at least 200 ms after the one before it,
    the first one at least 200 ms after [last]. *)
Fixpoint spaced_from (last : Q) (ts : list Q) : Prop :=
  match ts with
  | [] => True
  | t :: ts' => (last + (2 # 10) <= t)%Q /\ spaced_from t ts'
  end.

(** The choice in force when an iteration of [lv10] reads the button: the
    stored choice, toggled if the dial moved in this iteration. *)
Definition lv10_choice (i : lv10_in) (l : lv10_loc) (g : Game) : Z :=
  let d := fst (renc (j_enc_a i) (j_enc_b i) (j_enc_now i) g) in
  if negb (d =? 0) && Qltb (15 # 100) (j_now i - le10 l)
  then 1 - fch g else fch g.

(** ** Sample sessions *)

(** Level 1 on the easiest setting, 10 s after power-up, one health lost
    to a failed disarm (the bomb at (0, 1) is revealed). *)
Definition sample_play : Game :=
  {| enc := RotaryEncoder.init true true 0 1 2;
     ebl := true; bl := true; lbt := 12; st := PLAY; df := 0;
     lv := 1; hp := 5; sc := 0;
     shake_event_available := false; bomb_disarm_active := false;
     shake_threshold := 2; shake_start_time := 12; shake_duration := 3;
     last_tick_time := 15;
     grd := [[Treasure; Bomb]; [Treasure; Empty]];
     rev := [[false; true]; [false; false]];
     pos := (0, 1); fnd := 0; stm := 10; tlm := 60; fch := 0; fhp := 2 |}.

(** The same level while the bomb at (0, 1) is being disarmed; the disarm
    started at 12 s. *)
Definition sample_disarm : Game :=
  {| enc := RotaryEncoder.init true true 0 1 2;
     ebl := false; bl := true; lbt := 12; st := PLAY; df := 0;
     lv := 1; hp := 6; sc := 0;
     shake_event_available := false; bomb_disarm_active := true;
     shake_threshold := 2; shake_start_time := 12; shake_duration := 3;
     last_tick_time := (145 # 10);
     grd := [[Treasure; Bomb]; [Treasure; Empty]];
     rev := [[false; true]; [false; false]];
     pos := (0, 1); fnd := 0; stm := 10; tlm := 60; fch := 0; fhp := 2 |}.

(** The final level on the easiest setting, 100 s after power-up. *)
Definition sample_final : Game :=
  {| enc := RotaryEncoder.init true true 0 1 2;
     ebl := true; bl := true; lbt := 90; st := LV10; df := 0;
     lv := 10; hp := 6; sc := 1200;
     shake_event_available := false; bomb_disarm_active := false;
     shake_threshold := 2; shake_start_time := 0; shake_duration := 3;
     last_tick_time := 0;
     grd := replicate 4 (replicate 4 Empty);
     rev := replicate 4 (replicate 4 false);
     pos := (0, 0); fnd := 4; stm := 100; tlm := 60; fch := 0; fhp := 2 |}.


(** Inputs of an iteration at clock reading [now] with idle dial, idle
    buttons and a device at rest. *)
Definition idle_play_in (now : Q) : play_in :=
  {| i_now := now; i_accel := Some (0%Q, 0%Q, 98 # 10);
     i_enc_a := true; i_enc_b := true; i_enc_now := (now * 1000)%Q;
     i_btn_now := now; i_btn_e := true; i_btn_b := true;
     i_dig_t1 := now; i_dig_t2 := now;
     i_rnd := [3; 0; 1]%nat; i_lvl_now := now |}.

(** * Further parts of the controller *)

(** ** The menu *)

(** The local variables of [menu]. *)
Record menu_loc := MenuLoc {
  m_rd : bool;     (* redraw needed ([rd]) *)
  m_le : Q         (* last encoder change time ([le]) *)
}.

(** Everything one iteration of the loop of [menu] may read from outside. *)
Record menu_in := MenuIn {
  k_now : Q;
  k_enc_a : bool;
  k_enc_b : bool;
  k_enc_now : Q;
  k_btn_now : Q;
  k_btn_e : bool;
  k_btn_b : bool
}.

(** [col] of [menu]: the LED colour of each difficulty. *)
Definition menu_col : list (Z * Z * Z) :=
  [(0, 255, 0); (255, 255, 0); (255, 0, 0)].

(** One iteration of [while self.st == 'MENU'] in [menu].  Of the redraw
    only the lookup [col[self.df]] is kept, because it can raise. *)
Definition menu_step (i : menu_in) (l : menu_loc) (g : Game)
  : option (Game * menu_loc * flow) :=
  let now := k_now i in
  let '(d, g1) := renc (k_enc_a i) (k_enc_b i) (k_enc_now i) g in
  let '(g2, l1) :=
    if negb (d =? 0) && Qltb (15 # 100) (now - m_le l)
    then (set_df ((df g1 + d) `mod` 3) g1, MenuLoc true now)
    else (g1, l) in
  l2 ← (if m_rd l1
        then _ ← py_get menu_col (df g2); Some (MenuLoc false (m_le l1))
        else Some l1);
  let '(pr, g3) := cbtn (k_btn_now i) (k_btn_e i) (k_btn_b i) g2 in
  if pr then g4 ← start g3; Some (g4, l2, Break)
  else Some (g3, l2, Continue).

(** ** The health LED *)

(** [uled]: the colour written to the LED; [None] is the [KeyError] of
    [self.cfg[self.df]]. *)
Definition uled (g : Game) : option (Z * Z * Z) :=
  c ← cfg (df g);
  let mhp := c_hp c in
  Some (if mhp <=? hp g then (0, 255, 0)
        else if mhp `div` 2 <=? hp g then (255, 255, 0)
        else if 1 <=? hp g then (255, 0, 0)
        else (0, 0, 0)).

(** ** The layout of the grid on the screen *)

(** [OFS], the top margin of the screens. *)
Definition OFS : Z := 4.

(** The layout arithmetic of [draw]: the cell size [sz], the left edge [sx]
    and the top edge [sy] of the grid; [None] is a [ZeroDivisionError] or
    the [IndexError] of [self.grd[0]]. *)
Definition draw_layout (g : Game) : option (Z * Z * Z) :=
  let rows := Z.of_nat (length (grd g)) in
  row0 ← py_get (grd g) 0;
  let cols := Z.of_nat (length row0) in
  if (rows =? 0) || (cols =? 0) then None
  else
    let sz := Z.min 12 (Z.min (46 `div` rows) (120 `div` cols)) in
    let sy := OFS + 12 in
    let sx := (128 - cols * sz) `div` 2 in
    Some (sz, sx, sy).

(** The rectangle [draw] outlines for the cell in row [r], column [c]:
    [rect(sx + c * sz, sy + r * sz, sz, sz, 1)]. *)
Definition cell_box (sz sx sy r c : Z) : Z * Z * Z * Z :=
  (sx + c * sz, sy + r * sz, sz, sz).

(** ** Vocabulary of the further properties *)

(** A session inside a level: the difficulty is a key of [cfg], the level
    is a key of [lvl], grid and revealed array have the level's shape and
    the cursor is on a cell. *)
Definition level_ready (g : Game) : Prop :=
  is_Some (cfg (df g))
  /\ exists r co tr bm nd,
       lvl (lv g) = Some (r, co, tr, bm, nd)
       /\ grid_shape r co (grd g) /\ grid_shape r co (rev g)
       /\ valid_pos (Z.of_nat r) (Z.of_nat co) (pos g).



(** Level 1 on the easiest setting with nothing revealed, the cursor on
    the bomb at (0, 1) and the disarm opportunity at hand. *)
Definition sample_on_bomb : Game :=
  {| enc := RotaryEncoder.init true true 0 1 2;
     ebl := true; bl := true; lbt := 12; st := PLAY; df := 0;
     lv := 1; hp := 6; sc := 0;
     shake_event_available := true; bomb_disarm_active := false;
     shake_threshold := 2; shake_start_time := 0; shake_duration := 3;
     last_tick_time := 0;
     grd := [[Treasure; Bomb]; [Treasure; Empty]];
     rev := [[false; false]; [false; false]];
     pos := (0, 1); fnd := 0; stm := 10; tlm := 60; fch := 0; fhp := 2 |}.

(** The decoder between two reads: the detent position is the floor of the
    raw count over the pulses per detent and no delta is pending. *)
Definition enc_settled (e : RotaryEncoder.t) : Prop :=
  1 <= RotaryEncoder.pulses_per_detent e
  /\ RotaryEncoder.position e
     = RotaryEncoder.position_raw e `div` RotaryEncoder.pulses_per_detent e
  /\ RotaryEncoder.delta_accum e = 0.

(** What one iteration of the loop of [play] can do to a session [g],
    giving [g'] and ending by [f]. *)
Definition play_step_facts (i : play_in) (g g' : Game) (f : flow) : Prop :=
  df g' = df g
  /\ sc g <= sc g'
  /\ (f = Continue ->
      lv g' = lv g /\ level_ready g'
      /\ (st g' = st g \/ (st g' = OVER /\ hp g' <= 0)))
  /\ (f = Break ->
      (st g' = OVER /\ hp g' <= 0 /\ lv g' = lv g)
      \/ (lv g' = lv g + 1
          /\ ((lv g' <= 9 /\ st g' = st g) \/ (lv g' = 10 /\ st g' = LV10))))
  /\ (bomb_disarm_active g' = true ->
      bomb_disarm_active g = true
      \/ (shake_event_available g = true /\ shake_event_available g' = false))
  /\ (shake_event_available g' = true ->
      shake_event_available g = true
      \/ (bomb_disarm_active g = false
          /\ remaining (tlm g) (stm g) (i_now i) = 0 /\ df g = 0))
  /\ (hp g' <= hp g
      \/ (bomb_disarm_active g = false
          /\ remaining (tlm g) (stm g) (i_now i) = 0
          /\ exists c, cfg (df g) = Some c /\ hp g' = c_hp c)).

(** * The display buffer ([code.py], class [SSD1306]) *)

(** The bus traffic ([_cmd], [show]) is left out; what is modelled is the
    1024-byte buffer [self.buf] and the drawing methods that write it. *)

Module SSD1306.

(** [self.buf[i] = v] on a [bytearray]: an index out of range is an
    [IndexError], a value outside [0..255] a [ValueError]. *)
Definition store (buf : list Z) (i v : Z) : option (list Z) :=
  if (0 <=? v) && (v <? 256) then py_set buf i v else None.

(** [for a in xs: body(a)] over a state, stopping at the first error. *)
Fixpoint for_each {A S} (xs : list A) (body : A -> S -> option S) (s : S)
  : option S :=
  match xs with
  | [] => Some s
  | a :: xs' => s' ← body a s; for_each xs' body s'
  end.

(** [bytearray(1024)] *)
Definition new_buf : list Z := replicate 1024 0.

(** [clear] *)
Definition clear (buf : list Z) : option (list Z) :=
  for_each (seqZ 0 1024) (fun i b => store b i 0) buf.

(** [fill] *)
Definition fill (c : Z) (buf : list Z) : option (list Z) :=
  let v := if negb (c =? 0) then 255 else 0 in
  for_each (seqZ 0 1024) (fun i b => store b i v) buf.

(** [px] *)
Definition px (x y c : Z) (buf : list Z) : option (list Z) :=
  if (0 <=? x) && (x <? 128) && (0 <=? y) && (y <? 64) then
    let i := x + (y `div` 8) * 128 in
    old ← py_get buf i;
    if negb (c =? 0)
    then store buf i (Z.lor old (Z.shiftl 1 (y `mod` 8)))
    else store buf i (Z.land old (Z.lnot (Z.shiftl 1 (y `mod` 8))))
  else Some buf.

(** [rect] *)
Definition rect (x y w h c : Z) (buf : list Z) : option (list Z) :=
  b1 ← for_each (seqZ 0 w)
         (fun i b => b' ← px (x + i) y c b; px (x + i) (y + h - 1) c b') buf;
  for_each (seqZ 0 h)
    (fun i b => b' ← px x (y + i) c b; px (x + w - 1) (y + i) c b') b1.

(** [frect] *)
Definition frect (x y w h c : Z) (buf : list Z) : option (list Z) :=
  for_each (seqZ 0 h)
    (fun j b => for_each (seqZ 0 w) (fun i b' => px (x + i) (y + j) c b') b)
    buf.

(** [hline] *)
Definition hline (x y w c : Z) (buf : list Z) : option (list Z) :=
  for_each (seqZ 0 w) (fun i b => px (x + i) y c b) buf.

(** A buffer as the driver keeps it: 1024 bytes. *)
Definition buf_ok (buf : list Z) : Prop :=
  length buf = 1024%nat /\ Forall (fun b => 0 <= b < 256) buf.

(** A coordinate of the 128 by 64 screen. *)
Definition on_screen (x y : Z) : Prop := 0 <= x < 128 /\ 0 <= y < 64.

(** The pixel of the buffer at a screen coordinate: bit [y % 8] of byte
    [x + (y // 8) * 128]. *)
Definition pixel (buf : list Z) (x y : Z) : bool :=
  match buf !! Z.to_nat (x + (y `div` 8) * 128) with
  | Some b => Z.testbit b (y `mod` 8)
  | None => false
  end.

(** The colour a drawing call with argument [c] gives a pixel. *)
Definition lit (c : Z) : bool := negb (c =? 0).

(** [(x', y')] lies in the box with corner [(x, y)], width [w], height
    [h]. *)
Definition in_box (x y w h x' y' : Z) : bool :=
  (x <=? x') && (x' <? x + w) && (y <=? y') && (y' <? y + h).

(** [(x', y')] lies on the outline drawn by [rect]: on the top or bottom
    row within the width, or on the left or right column within the
    height. *)
Definition on_outline (x y w h x' y' : Z) : bool :=
  ((x <=? x') && (x' <? x + w) && ((y' =? y) || (y' =? y + h - 1)))
  || ((y <=? y') && (y' <? y + h) && ((x' =? x) || (x' =? x + w - 1))).

(** [buf'] is [buf] with the pixels selected by [sel] given the colour of
    [c] and all other screen pixels kept. *)
Definition painted (sel : Z -> Z -> bool) (c : Z) (buf buf' : list Z)
  : Prop :=
  buf_ok buf'
  /\ forall x' y', on_screen x' y' ->
       pixel buf' x' y' = if sel x' y' then lit c else pixel buf x' y'.

End SSD1306.

(** * Text and icons on the display ([SSD1306.txt], [chest], [bomb]) *)

Module Glyphs.
Import SSD1306.

(** The font [F] of [txt]: five columns per character, bit [r] of a column
    being the pixel [r] rows down. *)
Definition F (ch : ascii) : option (list Z) :=
  match ch with
  | "0" => Some [0x3E; 0x51; 0x49; 0x45; 0x3E]
  | "1" => Some [0; 0x42; 0x7F; 0x40; 0]
  | "2" => Some [0x42; 0x61; 0x51; 0x49; 0x46]
  | "3" => Some [0x21; 0x41; 0x45; 0x4B; 0x31]
  | "4" => Some [0x18; 0x14; 0x12; 0x7F; 0x10]
  | "5" => Some [0x27; 0x45; 0x45; 0x45; 0x39]
  | "6" => Some [0x3C; 0x4A; 0x49; 0x49; 0x30]
  | "7" => Some [1; 0x71; 9; 5; 3]
  | "8" => Some [0x36; 0x49; 0x49; 0x49; 0x36]
  | "9" => Some [6; 0x49; 0x49; 0x29; 0x1E]
  | "A" => Some [0x7E; 0x11; 0x11; 0x11; 0x7E]
  | "B" => Some [0x7F; 0x49; 0x49; 0x49; 0x36]
  | "C" => Some [0x3E; 0x41; 0x41; 0x41; 0x22]
  | "D" => Some [0x7F; 0x41; 0x41; 0x22; 0x1C]
  | "E" => Some [0x7F; 0x49; 0x49; 0x49; 0x41]
  | "F" => Some [0x7F; 9; 9; 9; 1]
  | "G" => Some [0x3E; 0x41; 0x49; 0x49; 0x7A]
  | "H" => Some [0x7F; 8; 8; 8; 0x7F]
  | "I" => Some [0; 0x41; 0x7F; 0x41; 0]
  | "K" => Some [0x7F; 8; 0x14; 0x22; 0x41]
  | "L" => Some [0x7F; 0x40; 0x40; 0x40; 0x40]
  | "M" => Some [0x7F; 2; 0xC; 2; 0x7F]
  | "N" => Some [0x7F; 4; 8; 0x10; 0x7F]
  | "O" => Some [0x3E; 0x41; 0x41; 0x41; 0x3E]
  | "P" => Some [0x7F; 9; 9; 9; 6]
  | "R" => Some [0x7F; 9; 0x19; 0x29; 0x46]
  | "S" => Some [0x46; 0x49; 0x49; 0x49; 0x31]
  | "T" => Some [1; 1; 0x7F; 1; 1]
  | "U" => Some [0x3F; 0x40; 0x40; 0x40; 0x3F]
  | "V" => Some [0x1F; 0x20; 0x40; 0x20; 0x1F]
  | "W" => Some [0x3F; 0x40; 0x38; 0x40; 0x3F]
  | "X" => Some [0x63; 0x14; 8; 0x14; 0x63]
  | "Y" => Some [7; 8; 0x70; 8; 7]
  | " " => Some [0; 0; 0; 0; 0]
  | "!" => Some [0; 0; 0x5F; 0; 0]
  | "?" => Some [2; 1; 0x51; 9; 6]
  | ":" => Some [0; 0x36; 0x36; 0; 0]
  | "-" => Some [8; 8; 8; 8; 8]
  | ">" => Some [8; 0x14; 0x22; 0x41; 0]
  | "/" => Some [0x20; 0x10; 8; 4; 2]
  | "+" => Some [8; 8; 0x3E; 8; 8]
  | "." => Some [0; 0x60; 0x60; 0; 0]
  | _ => None
  end%char.

(** [ch.upper()] for a character of an ASCII text. *)
Definition upper (ch : ascii) : ascii :=
  let n := nat_of_ascii ch in
  if (97 <=? n)%nat && (n <=? 122)%nat then ascii_of_nat (n - 32) else ch.

(** The loop over the eight pixels of a column:
    [for r in range(8): if col & (1 << r): self.px(cx, y + r, c)]. *)
Definition txt_column (col cx y c : Z) (buf : list Z) : option (list Z) :=
  for_each (seqZ 0 8)
    (fun r b =>
       if negb (Z.land col (Z.shiftl 1 r) =? 0) then px cx (y + r) c b
       else Some b)
    buf.

(** The loop over the columns of a glyph; the state is the buffer and the
    drawing position [cx]. *)
Definition txt_glyph (cols : list Z) (y c : Z) (s : list Z * Z)
  : option (list Z * Z) :=
  for_each cols
    (fun col '(b, cx) => b' ← txt_column col cx y c b; Some (b', cx + 1))
    s.

(** The body of the loop over the characters: a character without a
    glyph is skipped, drawing position included; after a glyph one more
    column is left blank. *)
Definition txt_char (ch : ascii) (y c : Z) (s : list Z * Z)
  : option (list Z * Z) :=
  match F (upper ch) with
  | Some cols => '(b', cx') ← txt_glyph cols y c s; Some (b', cx' + 1)
  | None => Some s
  end.

(** [txt]: the text is ASCII, as every text the game draws is. *)
Definition txt (s : string) (x y c : Z) (buf : list Z) : option (list Z) :=
  r ← for_each (list_ascii_of_string s)
        (fun ch st => txt_char ch y c st) (buf, x);
  Some r.1.

(** The number of characters of a text that have a glyph. *)
Definition glyphs (s : string) : Z :=
  Z.of_nat (length (filter (fun ch => is_Some (F (upper ch)))
                      (list_ascii_of_string s))).

(** [chest] *)
Definition chest (x y : Z) (op : bool) (buf : list Z) : option (list Z) :=
  b1 ← rect x (y + 4) 16 8 1 buf;
  b2 ← hline (x + 4) (y + 8) 8 1 b1;
  b3 ← frect (x + 6) (y + 6) 4 3 1 b2;
  if op then
    b4 ← hline (x + 2) y 12 1 b3;
    b5 ← hline (x + 1) (y + 1) 14 1 b4;
    b6 ← rect x (y + 2) 16 3 1 b5;
    b7 ← for_each (seqZ 0 3) (fun i b => px (x + 8) (y - 2 - i) 1 b) b6;
    b8 ← px (x + 6) (y - 1) 1 b7;
    px (x + 10) (y - 1) 1 b8
  else
    b4 ← rect x y 16 5 1 b3;
    hline (x + 4) (y + 2) 8 1 b4.

(** [bomb] *)
Definition bomb (x y : Z) (buf : list Z) : option (list Z) :=
  b1 ← for_each (seqZ 0 8)
         (fun dy b =>
            for_each (seqZ 0 8)
              (fun dx b' =>
                 if (dx - 4) ^ 2 + (dy - 4) ^ 2 <=? 16
                 then px (x + dx + 2) (y + dy + 6) 1 b'
                 else Some b')
              b)
         buf;
  b2 ← frect (x + 4) (y + 3) 4 4 1 b1;
  b3 ← px (x + 6) (y + 2) 1 b2;
  b4 ← px (x + 7) (y + 1) 1 b3;
  b5 ← px (x + 8) y 1 b4;
  b6 ← px (x + 9) y 1 b5;
  px (x + 8) (y - 1) 1 b6.

(** [buf'] is [buf] except for pixels inside [box], which may have taken
    the colour of [c]. *)
Definition touched (box : Z -> Z -> bool) (c : Z) (buf buf' : list Z)
  : Prop :=
  buf_ok buf'
  /\ forall x' y', on_screen x' y' ->
       pixel buf' x' y' = pixel buf x' y'
       \/ (box x' y' = true /\ pixel buf' x' y' = lit c).

End Glyphs.

(** [msg], the drawing part: the screen is cleared and the message drawn
    centred in the row at 28. *)
Definition msg (m : string) (buf : list Z) : option (list Z) :=
  b ← SSD1306.clear buf;
  Glyphs.txt m ((128 - Z.of_nat (String.length m) * 6) `div` 2) 28 1 b.

(** * The loop of [play] with its calls to the LED and the display

    [play_step], [disarm_step] and [dig] carry the session through an
    iteration and leave the output calls out.  Here the calls are in their
    places, as far as they can raise: [uled] looks the difficulty up in
    [cfg]; [draw] looks the level up in [lvl], divides by the dimensions of
    the grid and reads [rev] and [grd] cell by cell.  The other output
    calls ([clear], [txt], [rect], [frect], [hline], [show], [msg],
    [display_disarm_prompt], the fills of the LED, the buzzer, and
    [time.sleep]) read nothing of the session but values to print; on the
    1024 bytes of the driver's buffer the drawing calls never raise
    (section Display below), and they are left out here as well. *)

(** The body of the loops of [draw] over the cells: the cursor is drawn
    without a look at the arrays; any other cell reads [rev[r][c]] and, if
    it is revealed, [grd[r][c]]. *)
Definition draw_cell (g : Game) (r c : Z) : option unit :=
  if (r =? (pos g).1) && (c =? (pos g).2) then Some tt
  else
    row ← py_get (rev g) r;
    revealed ← py_get row c;
    if revealed : bool then
      grow ← py_get (grd g) r;
      _ ← py_get grow c;
      Some tt
    else Some tt.

(** [draw], as far as it can raise: [None] is the [KeyError] of
    [self.lvl[self.lv]], the [IndexError] of [self.grd[0]], of
    [self.rev[r][c]] or of [self.grd[r][c]], or the [ZeroDivisionError] of
    [120 // cols]. *)
Definition draw (g : Game) : option unit :=
  _ ← lvl (lv g);
  let rows := Z.of_nat (length (grd g)) in
  row0 ← py_get (grd g) 0;
  let cols := Z.of_nat (length row0) in
  if (rows =? 0) || (cols =? 0) then None
  else
    SSD1306.for_each (seqZ 0 rows)
      (fun r _ =>
         SSD1306.for_each (seqZ 0 cols) (fun c _ => draw_cell g r c) tt)
      tt.

(** [dig] with its calls of [uled]. *)
Definition dig_io (t1 t2 : Q) (g : Game) : option Game :=
  let '(r, c) := pos g in
  row ← py_get (rev g) r;
  revealed ← py_get row c;
  if revealed : bool then Some g
  else
    row' ← py_set row c true;
    rev' ← py_set (rev g) r row';
    let g1 := set_rev rev' g in
    grow ← py_get (grd g) r;
    k ← py_get grow c;
    match k with
    | Treasure =>
        let g2 := set_sc (sc g1 + 50) (set_fnd (fnd g1 + 1) g1) in
        _ ← uled g2;
        Some g2
    | Bomb =>
        if shake_event_available g1 then
          Some (set_shake_event_available false
               (set_last_tick_time t2
               (set_shake_start_time t1
               (set_bomb_disarm_active true g1))))
        else
          let g2 := set_hp (hp g1 - 1) g1 in
          _ ← uled g2;
          Some g2
    | Empty => Some g1
    end.

(** The disarm branch of the loop with its calls of [uled] and [draw]. *)
Definition disarm_step_io (i : play_in) (l : play_loc) (g : Game)
  : option (Game * play_loc * flow) :=
  let now := i_now i in
  let elapsed := (now - shake_start_time g)%Q in
  let g1 := if Qltb (5 # 10) (now - last_tick_time g)
            then set_last_tick_time now g else g in
  if Qgeb elapsed (shake_duration g1) then
    let g2 := set_bomb_disarm_active false g1 in
    let g3 := set_hp (hp g2 - 1) g2 in
    _ ← uled g3;
    if hp g3 <=? 0 then Some (set_st OVER g3, l, Continue)
    else
      _ ← draw g3;
      Some (g3, PlayLoc now (le l) (lw l), Continue)
  else if check_shake (i_accel i) g1 then
    let g2 := set_bomb_disarm_active false g1 in
    let g3 := set_sc (sc g2 + 100) g2 in
    _ ← uled g3;
    _ ← draw g3;
    Some (g3, PlayLoc now (le l) (lw l), Continue)
  else Some (g1, l, Continue).

(** One iteration of [while self.st == 'PLAY'] in [play] with its calls of
    [uled] and [draw]. *)
Definition play_step_io (i : play_in) (l : play_loc) (g : Game)
  : option (Game * play_loc * flow) :=
  let now := i_now i in
  if bomb_disarm_active g then disarm_step_io i l g
  else
    let rm := remaining (tlm g) (stm g) now in
    let l1 := if (rm <=? 5) && (0 <? rm) && negb (rm =? lw l)
              then PlayLoc (ld l) (le l) rm else l in
    if rm <=? 0 then
      (* [self.msg] draws on the display buffer and reads nothing else *)
      let g1 := set_hp (hp g - 1) g in
      _ ← uled g1;
      if hp g1 <=? 0 then Some (set_st OVER g1, l1, Continue)
      else
        g2 ← ilvl (i_rnd i) (i_lvl_now i) g1;
        _ ← uled g2;
        _ ← draw g2;
        Some (g2, PlayLoc now (le l1) (lw l1), Continue)
    else
      let '(d, g1) := renc (i_enc_a i) (i_enc_b i) (i_enc_now i) g in
      '(g2, l2) ←
        (if negb (d =? 0) && Qltb (8 # 100) (now - le l1) then
           g' ← move d g1;
           _ ← draw g';
           Some (g', PlayLoc now now (lw l1))
         else Some (g1, l1));
      l3 ←
        (if Qltb (5 # 10) (now - ld l2) then
           _ ← draw g2;
           Some (PlayLoc now (le l2) (lw l2))
         else Some l2);
      let '(pr, g3) := cbtn (i_btn_now i) (i_btn_e i) (i_btn_b i) g2 in
      if pr then
        g4 ← dig_io (i_dig_t1 i) (i_dig_t2 i) g3;
        _ ← draw g4;
        if hp g4 <=? 0 then Some (set_st OVER g4, l3, Break)
        else check_clear rm l3 g4
      else check_clear rm l3 g3.

(** Entering [play] with its calls of [uled] and [draw]. *)
Definition play_enter_io (rnd : list nat) (t_stm t_ld : Q) (g : Game)
  : option (Game * play_loc) :=
  g1 ← ilvl rnd t_stm g;
  _ ← uled g1;
  _ ← draw g1;
  Some (g1, PlayLoc t_ld 0 (-1)).

(** * Properties *)

(** ** The decoder *)

Section Decoder.
Import RotaryEncoder.

Lemma decoder_inv_init a0 b0 t0 db ppd :
  decoder_inv (observe_init (init a0 b0 t0 db ppd)).
Proof.
  unfold decoder_inv, observe_init, init; simpl.
  split; [lia|]. split; [|lia].
  symmetry. apply Z.div_0_l. lia.
Qed.

Lemma decoder_inv_update a b now s :
  decoder_inv s ->
  decoder_inv (exec (Update a b now) s).
Proof.
  intros (Hp & Hpos & Hsum).
  unfold decoder_inv, exec, update.
  destruct (negb (Bool.eqb a (last_a (dec s)))); simpl; [|done].
  destruct (Qgeb _ _); simpl; [|done].
  destruct (Z.eqb_spec
              ((position_raw (dec s) + edge_step a b)
                 `div` pulses_per_detent (dec s))
              (position (dec s))) as [Heq|Hne]; simpl.
  - split; [done|]. split; [|done]. by rewrite Heq.
  - split; [done|]. split; [done|]. lia.
Qed.

Lemma decoder_inv_exec o s : decoder_inv s -> decoder_inv (exec o s).
Proof.
  destruct o as [a b now| |d].
  - apply decoder_inv_update.
  - intros (Hp & Hpos & Hsum). unfold decoder_inv; simpl. lia.
  - intros (Hp & Hpos & Hsum). unfold decoder_inv.
    destruct d as [d|]; simpl; (split; [done|]); (split; [|lia]).
    + symmetry. apply Z.div_mul. lia.
    + symmetry. apply Z.div_0_l. lia.
Qed.

Lemma decoder_inv_run ops s : decoder_inv s -> decoder_inv (run ops s).
Proof.
  revert s. induction ops as [|o ops IH]; intros s Hs; [done|].
  simpl. apply IH. by apply decoder_inv_exec.
Qed.

(** C6: from a freshly constructed decoder, after every sequence of
    [update], [get_delta] and [reset] operations the detent position is the
    floor of the raw pulse count divided by the pulses per detent, the
    values returned by [get_delta] since construction or the last [reset]
    plus the delta still pending add up to the change of the detent
    position since then, and right after a [get_delta] the returned values
    alone add up to that change. *)
Theorem decoder_position_and_delta_sum a0 b0 t0 db ppd (ops : list op) :
  let s := run ops (observe_init (init a0 b0 t0 db ppd)) in
  let s' := exec GetDelta s in
  1 <= pulses_per_detent (dec s)
  /\ position (dec s) = position_raw (dec s) `div` pulses_per_detent (dec s)
  /\ returned s + delta_accum (dec s) = position (dec s) - base s
  /\ position (dec s') = position_raw (dec s') `div` pulses_per_detent (dec s')
  /\ returned s' = position (dec s') - base s'.
Proof.
  intros s s'.
  assert (Hs : decoder_inv s)
    by apply decoder_inv_run, decoder_inv_init.
  assert (Hs' : decoder_inv s') by by apply decoder_inv_exec.
  destruct Hs as (H1 & H2 & H3). destruct Hs' as (H1' & H2' & H3').
  repeat split; done.
Qed.

End Decoder.

(** ** The cursor *)

Section Cursor.
Variables rows cols : Z.
Hypothesis Hrows : 0 < rows.
Hypothesis Hcols : 0 < cols.

Lemma move_pos_valid d p :
  valid_pos rows cols p -> valid_pos rows cols (move_pos rows cols d p).
Proof.
  destruct p as [r c]. unfold valid_pos, move_pos; simpl. intros [Hr Hc].
  destruct (0 <? d).
  - destruct (Z.leb_spec cols (c + 1)); simpl.
    + split; [apply Z.mod_pos_bound|]; lia.
    + lia.
  - destruct (Z.ltb_spec (c - 1) 0); simpl.
    + split; [apply Z.mod_pos_bound|]; lia.
    + lia.
Qed.

Lemma cell_index_bound p :
  valid_pos rows cols p -> 0 <= cell_index cols p < rows * cols.
Proof.
  destruct p as [r c]. unfold valid_pos, cell_index; simpl. nia.
Qed.

Lemma cell_index_inj p q :
  valid_pos rows cols p -> valid_pos rows cols q ->
  cell_index cols p = cell_index cols q -> p = q.
Proof.
  destruct p as [r c], q as [r' c'].
  unfold valid_pos, cell_index; simpl. intros [Hr Hc] [Hr' Hc'] Heq.
  assert (r = r') by nia. subst r'. f_equal. lia.
Qed.

Lemma move_pos_right_index d p :
  0 < d -> valid_pos rows cols p ->
  cell_index cols (move_pos rows cols d p)
  = (cell_index cols p + 1) `mod` (rows * cols).
Proof.
  destruct p as [r c]. unfold valid_pos, cell_index, move_pos; simpl.
  intros Hd [Hr Hc].
  destruct (Z.ltb_spec 0 d); [|lia].
  destruct (Z.leb_spec cols (c + 1)); simpl.
  - assert (c = cols - 1) by lia. subst c.
    replace (r * cols + (cols - 1) + 1) with ((r + 1) * cols) by lia.
    rewrite Z.mul_mod_distr_r by lia. lia.
  - rewrite Z.mod_small by nia. lia.
Qed.

Lemma move_pos_left_index d p :
  d <= 0 -> valid_pos rows cols p ->
  cell_index cols (move_pos rows cols d p)
  = (cell_index cols p - 1) `mod` (rows * cols).
Proof.
  destruct p as [r c]. unfold valid_pos, cell_index, move_pos; simpl.
  intros Hd [Hr Hc].
  destruct (Z.ltb_spec 0 d); [lia|].
  destruct (Z.ltb_spec (c - 1) 0); simpl.
  - assert (c = 0) by lia. subst c.
    destruct (Z.eq_dec r 0) as [->|Hr0].
    + replace (0 - 1) with (-1) by lia.
      replace (0 * cols + 0 - 1) with (-1) by lia.
      assert (E1 : (-1) `mod` rows = rows - 1).
      { symmetry. apply (Z.mod_unique_pos _ _ (-1)); lia. }
      assert (E2 : (-1) `mod` (rows * cols) = rows * cols - 1).
      { symmetry. apply (Z.mod_unique_pos _ _ (-1)); nia. }
      rewrite E1, E2. lia.
    + rewrite (Z.mod_small (r - 1)) by lia.
      rewrite Z.mod_small by nia. lia.
  - rewrite Z.mod_small by nia. lia.
Qed.

Lemma move_pos_left_right dp dn p :
  0 < dp -> dn <= 0 -> valid_pos rows cols p ->
  move_pos rows cols dn (move_pos rows cols dp p) = p.
Proof.
  intros Hp Hn Hv.
  apply cell_index_inj; auto using move_pos_valid.
  rewrite move_pos_left_index, move_pos_right_index
    by auto using move_pos_valid.
  pose proof (cell_index_bound p Hv).
  rewrite <- Zminus_mod_idemp_l, Z.mod_mod by lia.
  rewrite Zminus_mod_idemp_l.
  replace (cell_index cols p + 1 - 1) with (cell_index cols p) by lia.
  apply Z.mod_small. lia.
Qed.

Lemma move_pos_right_left dp dn p :
  0 < dp -> dn <= 0 -> valid_pos rows cols p ->
  move_pos rows cols dp (move_pos rows cols dn p) = p.
Proof.
  intros Hp Hn Hv.
  apply cell_index_inj; auto using move_pos_valid.
  rewrite move_pos_right_index, move_pos_left_index
    by auto using move_pos_valid.
  pose proof (cell_index_bound p Hv).
  rewrite Zplus_mod_idemp_l.
  replace (cell_index cols p - 1 + 1) with (cell_index cols p) by lia.
  apply Z.mod_small. lia.
Qed.

Lemma move_pos_iter_index d k p :
  0 < d -> valid_pos rows cols p ->
  valid_pos rows cols (Nat.iter k (move_pos rows cols d) p)
  /\ cell_index cols (Nat.iter k (move_pos rows cols d) p)
     = (cell_index cols p + Z.of_nat k) `mod` (rows * cols).
Proof.
  intros Hd Hv. induction k as [|k [IHv IHi]].
  - simpl. split; [done|].
    rewrite Z.add_0_r. symmetry. apply Z.mod_small.
    by apply cell_index_bound.
  - rewrite Nat.iter_succ. split; [by apply move_pos_valid|].
    rewrite move_pos_right_index, IHi by done.
    rewrite Zplus_mod_idemp_l. f_equal. lia.
Qed.

Lemma move_pos_reaches d p q :
  0 < d -> valid_pos rows cols p -> valid_pos rows cols q ->
  exists k : nat,
    (Z.of_nat k < rows * cols)
    /\ Nat.iter k (move_pos rows cols d) p = q.
Proof.
  intros Hd Hp Hq.
  pose proof (cell_index_bound p Hp) as Bp.
  pose proof (cell_index_bound q Hq) as Bq.
  set (n := (cell_index cols q - cell_index cols p) `mod` (rows * cols)).
  assert (Hn : 0 <= n < rows * cols) by (apply Z.mod_pos_bound; lia).
  exists (Z.to_nat n). split; [lia|].
  destruct (move_pos_iter_index d (Z.to_nat n) p Hd Hp) as [Hv Hi].
  apply cell_index_inj; [done..|].
  rewrite Hi, Z2Nat.id by lia. unfold n.
  rewrite Zplus_mod_idemp_r.
  replace (cell_index cols p + (cell_index cols q - cell_index cols p))
    with (cell_index cols q) by lia.
  apply Z.mod_small. lia.
Qed.

End Cursor.

Lemma set_pos_id g : set_pos (pos g) g = g.
Proof. by destruct g. Qed.

Lemma set_pos_twice p q g : set_pos p (set_pos q g) = set_pos p g.
Proof. done. Qed.

Lemma move_on_grid d g (r co : nat) :
  grid_shape r co (grd g) -> (0 < r)%nat ->
  move d g
  = Some (set_pos (move_pos (Z.of_nat r) (Z.of_nat co) d (pos g)) g).
Proof.
  intros [Hlen Hrows] Hr. unfold move, py_get, py_index.
  destruct (grd g) as [|row0 rest] eqn:Hg; simpl in *; [lia|].
  apply Forall_cons in Hrows as [Hrow0 _].
  rewrite <- Hlen, Hrow0.
  destruct (Z.ltb_spec 0 (Z.of_nat (S (length rest)))); [|lia].
  by simpl.
Qed.

Lemma moves_on_grid d k g (r co : nat) :
  grid_shape r co (grd g) -> (0 < r)%nat ->
  moves d k g
  = Some (set_pos
            (Nat.iter k (move_pos (Z.of_nat r) (Z.of_nat co) d) (pos g)) g).
Proof.
  intros Hs Hr. unfold moves. induction k as [|k IH].
  - simpl. by rewrite set_pos_id.
  - rewrite !Nat.iter_succ, IH. simpl.
    by rewrite (move_on_grid d _ r co).
Qed.

(** C7: on a grid of [r] rows by [co] columns with the cursor on a cell,
    [move] with a positive direction advances the row-major rank of the
    cursor by one modulo [r * co] (past the last column it goes to column 0
    of the next row modulo [r], from the last cell to (0, 0)); [move] with a
    negative direction lowers the rank by one modulo [r * co] (before the
    first column it goes to the last column of the previous row modulo
    [r]); each undoes the other, only the cursor changes, and every cell
    [q] is reached from the cursor by fewer than [r * co] positive moves. *)
Theorem move_cyclic_and_inverse
  (g : Game) (r co : nat) (dp dn : Z) (q : Z * Z) :
  let R := Z.of_nat r in
  let C := Z.of_nat co in
  grid_shape r co (grd g) -> (0 < r)%nat -> (0 < co)%nat ->
  valid_pos R C (pos g) -> valid_pos R C q ->
  0 < dp -> dn < 0 ->
  exists (gr gl : Game) (k : nat),
    move dp g = Some gr /\ move dn g = Some gl
    /\ gr = set_pos (pos gr) g /\ gl = set_pos (pos gl) g
    /\ valid_pos R C (pos gr) /\ valid_pos R C (pos gl)
    /\ cell_index C (pos gr) = (cell_index C (pos g) + 1) `mod` (R * C)
    /\ cell_index C (pos gl) = (cell_index C (pos g) - 1) `mod` (R * C)
    /\ pos gr = (if (pos g).2 + 1 <? C then ((pos g).1, (pos g).2 + 1)
                 else (((pos g).1 + 1) `mod` R, 0))
    /\ pos gl = (if 0 <? (pos g).2 then ((pos g).1, (pos g).2 - 1)
                 else (((pos g).1 - 1) `mod` R, C - 1))
    /\ move_pos R C dp (R - 1, C - 1) = (0, 0)
    /\ move dn gr = Some g /\ move dp gl = Some g
    /\ (k < r * co)%nat /\ moves dp k g = Some (set_pos q g).
Proof.
  intros R C Hshape Hr Hco Hv Hq Hdp Hdn.
  assert (HR : 0 < R) by (unfold R; lia).
  assert (HC : 0 < C) by (unfold C; lia).
  destruct (move_pos_reaches R C HR HC dp (pos g) q Hdp Hv Hq)
    as (k & Hk & Hreach).
  exists (set_pos (move_pos R C dp (pos g)) g),
         (set_pos (move_pos R C dn (pos g)) g), k.
  assert (Hgr : forall p, grd (set_pos p g) = grd g) by done.
  repeat match goal with |- _ /\ _ => split end.
  - by apply move_on_grid.
  - by apply move_on_grid.
  - done.
  - done.
  - by apply move_pos_valid.
  - by apply move_pos_valid.
  - by apply move_pos_right_index.
  - apply move_pos_left_index; done || lia.
  - simpl. unfold move_pos. destruct (pos g) as [pr pc]; simpl.
    destruct (Z.ltb_spec 0 dp); [|lia].
    destruct (Z.leb_spec C (pc + 1)), (Z.ltb_spec (pc + 1) C); done || lia.
  - simpl. unfold move_pos. destruct (pos g) as [pr pc]; simpl.
    destruct (Z.ltb_spec 0 dn); [lia|].
    destruct (Z.ltb_spec (pc - 1) 0), (Z.ltb_spec 0 pc); done || lia.
  - unfold move_pos.
    destruct (Z.ltb_spec 0 dp); [|lia].
    destruct (Z.leb_spec C (C - 1 + 1)); [|lia].
    replace (R - 1 + 1) with R by lia. by rewrite Z.mod_same by lia.
  - rewrite (move_on_grid dn _ r co) by (by rewrite ?Hgr).
    simpl. fold R C. rewrite move_pos_left_right by (done || lia).
    by rewrite set_pos_twice, set_pos_id.
  - rewrite (move_on_grid dp _ r co) by (by rewrite ?Hgr).
    simpl. fold R C. rewrite move_pos_right_left by (done || lia).
    by rewrite set_pos_twice, set_pos_id.
  - unfold R, C in Hk. lia.
  - rewrite (moves_on_grid dp k g r co) by done. fold R C.
    by rewrite Hreach.
Qed.

(** A 2 by 3 board with the cursor on its last cell. *)
Lemma move_cyclic_and_inverse_witness :
  exists (gr gl : Game) (k : nat),
    move 1 (set_pos (1, 2) (set_grd (replicate 2 (replicate 3 Empty))
                              (game_init (RotaryEncoder.init true true 0 1 2))))
    = Some gr
    /\ pos gr = (0, 0) /\ pos gl = (1, 1) /\ (k < 6)%nat.
Proof.
  destruct (move_cyclic_and_inverse
              (set_pos (1, 2) (set_grd (replicate 2 (replicate 3 Empty))
                 (game_init (RotaryEncoder.init true true 0 1 2))))
              2 3 1 (-1) (0, 1))
    as (gr & gl & k & H1 & H2 & H3 & H4 & H5 & H6 & H7 & H8 & H9 & H10
        & H11 & H12 & H13 & H14 & H15).
  - split; [reflexivity|]. repeat constructor.
  - lia.
  - lia.
  - unfold valid_pos; simpl; lia.
  - unfold valid_pos; simpl; lia.
  - lia.
  - lia.
  - exists gr, gl, k. split; [exact H1|].
    split; [exact H9|]. split; [exact H10|]. exact H14.
Defined.

(** ** The shuffle *)

Section Shuffle.
Context {A : Type}.
Implicit Types l : list A.

Lemma swap_spec i j l :
  (i < length l)%nat -> (j < length l)%nat ->
  exists x y,
    l !! i = Some x /\ l !! j = Some y
    /\ swap i j l = Some (<[i := y]> (<[j := x]> l))
    /\ <[i := y]> (<[j := x]> l) ≡ₚ l.
Proof.
  intros Hi Hj.
  destruct (lookup_lt_is_Some_2 l i Hi) as [x Hx].
  destruct (lookup_lt_is_Some_2 l j Hj) as [y Hy].
  exists x, y. split; [done|]. split; [done|].
  assert (Hcomm : <[j := x]> (<[i := y]> l) = <[i := y]> (<[j := x]> l)).
  { destruct (decide (i = j)) as [->|Hne].
    - by simplify_eq.
    - by apply list_insert_insert_ne. }
  split.
  - unfold swap. rewrite Hy, Hx. simpl. by rewrite Hcomm.
  - by apply Permutation_insert_swap.
Qed.

Lemma shuf_from_spec i rnd l :
  (i <= length l - 1)%nat ->
  exists l',
    shuf_from i rnd l = Some l' /\ l' ≡ₚ l
    /\ fisher_yates i (drawn i rnd) l l'.
Proof.
  revert rnd l. induction i as [|i IH]; intros rnd l Hi.
  - exists l. split; [done|]. split; [done|]. constructor.
  - set (j := randint0 (S i) (hd O rnd)).
    assert (Hj : (j <= S i)%nat).
    { unfold j, randint0.
      pose proof (Nat.mod_upper_bound (hd O rnd) (S (S i))). lia. }
    destruct (swap_spec (S i) j l) as (x & y & Hx & Hy & Hsw & Hperm);
      [lia..|].
    destruct (IH (List.tl rnd) (<[S i := y]> (<[j := x]> l))) as (l' & Hl' & Hp & Hfy).
    { rewrite !length_insert. lia. }
    exists l'. split.
    + simpl. fold j. rewrite Hsw. simpl. exact Hl'.
    + split; [by rewrite Hp|].
      change (drawn (S i) rnd) with (j :: drawn i (List.tl rnd)).
      by apply (fy_swap i j _ x y).
Qed.

Lemma shuf_spec rnd l :
  exists l',
    shuf rnd l = Some l' /\ l' ≡ₚ l
    /\ fisher_yates (length l - 1) (drawn (length l - 1) rnd) l l'.
Proof. by apply shuf_from_spec. Qed.

(** The indices taken determine the outcome of the shuffle. *)
Lemma fisher_yates_functional i js l l1 l2 :
  fisher_yates i js l l1 -> fisher_yates i js l l2 -> l1 = l2.
Proof.
  intros H1. revert l2.
  induction H1 as [l|i j js x y l l' Hj Hx Hy _ IH]; intros l2 H2.
  - by inversion H2.
  - inversion H2 as [|i0 j0 js0 x0 y0 l0 l0' _ Hx0 Hy0 Hrest]; subst.
    rewrite Hx in Hx0. rewrite Hy in Hy0.
    injection Hx0 as <-. injection Hy0 as <-. by apply IH.
Qed.

(** A draw that lies in [0..i] is the index taken: a stream of draws that
    lists the indices of a shuffle reproduces them. *)
Lemma fisher_yates_drawn i js l l' :
  fisher_yates i js l l' -> drawn i js = js.
Proof.
  induction 1 as [l|i j js x y l l' Hj _ _ _ IH]; [done|].
  simpl. rewrite IH. f_equal. unfold randint0.
  apply Nat.mod_small. lia.
Qed.

(** Every shuffle of the specification is the result of [shuf] on the
    stream of draws that lists its indices. *)
Lemma shuf_reaches js l l' :
  fisher_yates (length l - 1) js l l' -> shuf js l = Some l'.
Proof.
  intros Hfy. destruct (shuf_spec js l) as (l1 & Hs & _ & Hfy1).
  rewrite (fisher_yates_drawn _ _ _ _ Hfy) in Hfy1.
  by rewrite (fisher_yates_functional _ _ _ _ _ Hfy Hfy1).
Qed.

End Shuffle.

(** ** Level generation *)

Section Grid.
Implicit Types (g : grid) (p q : nat * nat) (k : cell).

Lemma elem_of_all_positions r co p :
  p ∈ all_positions r co <-> (p.1 < r)%nat /\ (p.2 < co)%nat.
Proof.
  unfold all_positions. rewrite list_elem_of_bind. split.
  - intros (i & Hp & Hi).
    apply list_elem_of_fmap in Hp as (j & -> & Hj).
    apply elem_of_seq in Hi. apply elem_of_seq in Hj. simpl. lia.
  - intros [H1 H2]. exists p.1. split.
    + apply list_elem_of_fmap. exists p.2. split; [by destruct p|].
      apply elem_of_seq. lia.
    + apply elem_of_seq. lia.
Qed.

Lemma NoDup_all_positions r co : NoDup (all_positions r co).
Proof.
  unfold all_positions. apply NoDup_bind.
  - intros i1 i2 p _ _ H1 H2.
    apply list_elem_of_fmap in H1 as (j1 & -> & _).
    apply list_elem_of_fmap in H2 as (j2 & ? & _). by simplify_eq.
  - intros i _. apply NoDup_fmap_2; [|apply NoDup_seq].
    intros j1 j2 ?. by simplify_eq.
  - apply NoDup_seq.
Qed.

Lemma length_all_positions r co :
  length (all_positions r co) = (r * co)%nat.
Proof.
  unfold all_positions.
  enough (H : forall a,
    length (seq a r ≫= fun i => pair i <$> seq 0 co) = (r * co)%nat)
    by apply H.
  induction r as [|r IH]; intros a; [done|].
  simpl seq. rewrite bind_cons, length_app, length_fmap, length_seq, IH. lia.
Qed.

Lemma cell_at_set_cell r co g p k :
  grid_shape r co g -> (p.1 < r)%nat -> (p.2 < co)%nat ->
  exists g',
    set_cell p k g = Some g' /\ grid_shape r co g'
    /\ forall q, cell_at g' q = if decide (q = p) then Some k else cell_at g q.
Proof.
  intros [Hlen Hrows] H1 H2.
  destruct (lookup_lt_is_Some_2 g p.1) as [row Hrow]; [lia|].
  assert (Hrl : length row = co).
  { eapply Forall_lookup_1 in Hrows; eauto. }
  destruct (lookup_lt_is_Some_2 row p.2) as [c Hc]; [lia|].
  exists (<[p.1 := <[p.2 := k]> row]> g).
  split; [|split].
  - unfold set_cell. rewrite Hrow. simpl. by rewrite Hc.
  - split; [by rewrite length_insert|].
    apply Forall_insert; [done|]. by rewrite length_insert.
  - intros q. unfold cell_at.
    destruct (decide (q = p)) as [->|Hne].
    + rewrite list_lookup_insert_eq by lia. simpl.
      apply list_lookup_insert_eq. lia.
    + destruct (decide (q.1 = p.1)) as [E1|N1].
      * rewrite E1, list_lookup_insert_eq, Hrow by lia. simpl.
        apply list_lookup_insert_ne.
        intros E2. apply Hne. destruct p, q; simpl in *; congruence.
      * by rewrite list_lookup_insert_ne.
Qed.

Lemma cell_at_set_cells r co k qs : forall g,
  grid_shape r co g ->
  Forall (fun p => p.1 < r /\ p.2 < co)%nat qs ->
  exists g',
    set_cells k qs g = Some g' /\ grid_shape r co g'
    /\ forall q, cell_at g' q = if decide (q ∈ qs) then Some k else cell_at g q.
Proof.
  induction qs as [|p qs IH]; intros g Hg Hqs.
  - exists g. split; [done|]. split; [done|]. intros q.
    destruct (decide (q ∈ [])) as [Hin|]; [|done]. by apply elem_of_nil in Hin.
  - apply Forall_cons in Hqs as [[Hp1 Hp2] Hqs].
    destruct (cell_at_set_cell r co g p k Hg Hp1 Hp2) as (g1 & E1 & Hg1 & C1).
    destruct (IH g1 Hg1 Hqs) as (g2 & E2 & Hg2 & C2).
    exists g2. split; [|split; [done|]].
    + simpl. rewrite E1. simpl. exact E2.
    + intros q. rewrite C2, C1.
      destruct (decide (q ∈ qs)) as [Hin|Hnin].
      * rewrite decide_True; [done|]. by right.
      * destruct (decide (q = p)) as [->|Hne].
        -- rewrite decide_True; [done|]. by left.
        -- rewrite decide_False; [done|].
           intros [?|?]%elem_of_cons; done.
Qed.

Lemma place_seq k (ps : list (nat * nat)) n : forall a g,
  (a + n <= length ps)%nat ->
  place k ps (seq a n) g = set_cells k (take n (drop a ps)) g.
Proof.
  induction n as [|n IH]; intros a g Hlen; [done|].
  destruct (lookup_lt_is_Some_2 ps a) as [p Hp]; [lia|].
  rewrite (drop_S _ _ _ Hp). simpl. rewrite Hp. simpl.
  destruct (set_cell p k g) as [g'|]; simpl; [|done].
  apply IH. lia.
Qed.

Lemma lookups_of_row {X} (row : list X) co :
  length row = co -> (fun j => row !! j) <$> seq 0 co = Some <$> row.
Proof.
  intros Hlen. apply list_eq. intros i.
  rewrite !list_lookup_fmap.
  destruct (decide (i < co)%nat) as [Hlt|Hge].
  - rewrite lookup_seq_lt by done. simpl.
    destruct (lookup_lt_is_Some_2 row i) as [x Hx]; [lia|]. by rewrite Hx.
  - rewrite lookup_seq_ge by lia. simpl.
    by rewrite lookup_ge_None_2 by lia.
Qed.

Lemma cells_of_positions_from co g : forall a,
  Forall (fun row => length row = co) g ->
  Some <$> concat g
  = (fun p => g !! (p.1 - a)%nat ≫= (.!! p.2))
      <$> (seq a (length g) ≫= fun i => pair i <$> seq 0 co).
Proof.
  induction g as [|row g IH]; intros a Hrows; [done|].
  apply Forall_cons in Hrows as [Hrow Hrows].
  simpl concat. simpl length. simpl seq.
  rewrite bind_cons, !fmap_app, <- list_fmap_compose. f_equal.
  - rewrite <- (lookups_of_row row co Hrow).
    apply list_fmap_ext. intros i j _. simpl. by rewrite Nat.sub_diag.
  - rewrite (IH (S a) Hrows).
    apply Forall_fmap_ext, Forall_forall. intros p Hp.
    apply list_elem_of_bind in Hp as (i & Hp & Hi).
    apply list_elem_of_fmap in Hp as (j & -> & _).
    apply elem_of_seq in Hi. simpl.
    replace (i - a)%nat with (S (i - S a)) by lia. done.
Qed.

Lemma cells_of_positions r co g :
  grid_shape r co g ->
  Some <$> concat g = cell_at g <$> all_positions r co.
Proof.
  intros [Hlen Hrows]. rewrite (cells_of_positions_from co g 0%nat Hrows).
  rewrite Hlen. apply list_fmap_ext. intros i p _.
  unfold cell_at. by rewrite Nat.sub_0_r.
Qed.

Lemma length_filter_fmap {X Y} (f : X -> Y) (P : Y -> Prop) (Q : X -> Prop)
    `{forall y, Decision (P y)} `{forall x, Decision (Q x)} (l : list X) :
  (forall x, Q x <-> P (f x)) ->
  length (filter P (f <$> l)) = length (filter Q l).
Proof.
  intros HPQ. induction l as [|x l IH]; [done|].
  rewrite fmap_cons, !filter_cons.
  destruct (decide (P (f x))) as [HP|HP], (decide (Q x)) as [HQ|HQ];
    simpl; rewrite ?IH; try done; exfalso; apply HPQ in HQ || apply HPQ in HP;
    done.
Qed.

Lemma count_cells_positions r co g k :
  grid_shape r co g ->
  count_cells k g
  = length (filter (fun p => cell_at g p = Some k) (all_positions r co)).
Proof.
  intros Hg. unfold count_cells.
  trans (length (filter (fun o => o = Some k) (Some <$> concat g))).
  - symmetry. apply length_filter_fmap. intros c. split; congruence.
  - rewrite (cells_of_positions r co g Hg).
    by apply length_filter_fmap.
Qed.



Lemma length_filter_elem_of {X} `{EqDecision X} (qs l : list X) :
  NoDup l -> NoDup qs -> (forall x, x ∈ qs -> x ∈ l) ->
  length (filter (fun x => x ∈ qs) l) = length qs.
Proof.
  intros Hl Hqs Hsub. apply Permutation_length, NoDup_Permutation.
  - by apply NoDup_filter.
  - done.
  - intros x. rewrite list_elem_of_filter. split; [by intros [? ?]|].
    intros Hx. split; [done|]. by apply Hsub.
Qed.

Lemma cell_at_replicate r co k p :
  cell_at (replicate r (replicate co k)) p
  = if decide (p.1 < r /\ p.2 < co)%nat then Some k else None.
Proof.
  unfold cell_at. destruct (decide (p.1 < r)%nat) as [H1|H1].
  - rewrite lookup_replicate_2 by done. simpl.
    destruct (decide (p.2 < co)%nat) as [H2|H2].
    + rewrite lookup_replicate_2 by done. by rewrite decide_True.
    + rewrite decide_False by lia.
      apply lookup_replicate_None. lia.
  - rewrite decide_False by lia.
    replace (replicate r (replicate co k) !! p.1) with (@None (list cell));
      [done|].
    symmetry. apply lookup_replicate_None. lia.
Qed.

Lemma grid_shape_replicate {X} r co (x : X) :
  grid_shape r co (replicate r (replicate co x)).
Proof.
  split; [apply length_replicate|].
  apply Forall_replicate, length_replicate.
Qed.

(** What [gen_grid] computes, for every configuration that fits the grid
    and every stream of random draws. *)
Lemma gen_grid_spec r co tr bm rnd :
  (tr + bm <= r * co)%nat ->
  exists ps g,
    gen_grid r co tr bm rnd = Some (ps, g)
    /\ fisher_yates (r * co - 1) (drawn (r * co - 1) rnd)
         (all_positions r co) ps
    /\ ps ≡ₚ all_positions r co
    /\ grid_shape r co g
    /\ (forall p, cell_at g p = Some Treasure <-> p ∈ take tr ps)
    /\ (forall p, cell_at g p = Some Bomb <-> p ∈ take bm (drop tr ps))
    /\ (forall p, cell_at g p = Some Empty <-> p ∈ drop (tr + bm) ps).
Proof.
  intros Hfit.
  destruct (shuf_spec rnd (all_positions r co)) as (ps & Hshuf & Hperm & Hfy).
  rewrite length_all_positions in Hfy.
  assert (Hlen : length ps = (r * co)%nat).
  { by rewrite Hperm, length_all_positions. }
  assert (Hnd : NoDup ps).
  { rewrite Hperm. apply NoDup_all_positions. }
  assert (Hrange : forall p, p ∈ ps <-> (p.1 < r /\ p.2 < co)%nat).
  { intros p. rewrite Hperm. apply elem_of_all_positions. }
  set (A := take tr ps). set (B := take bm (drop tr ps)).
  set (C := drop (tr + bm) ps).
  assert (Hsplit : ps = A ++ B ++ C).
  { unfold A, B, C. rewrite <- drop_drop, take_drop. by rewrite take_drop. }
  assert (Hcover : forall p, p ∈ ps <-> p ∈ A \/ p ∈ B \/ p ∈ C).
  { intros p. rewrite Hsplit at 1. by rewrite !elem_of_app. }
  assert (HinA : forall p, p ∈ A -> p ∈ ps).
  { intros p Hp. apply Hcover. auto. }
  assert (HinB : forall p, p ∈ B -> p ∈ ps).
  { intros p Hp. apply Hcover. auto. }
  assert (HinC : forall p, p ∈ C -> p ∈ ps).
  { intros p Hp. apply Hcover. auto. }
  rewrite Hsplit in Hnd.
  apply NoDup_app in Hnd as (_ & HA & Hnd).
  apply NoDup_app in Hnd as (_ & HBC & _).
  assert (HAB : forall p, p ∈ A -> p ∉ B).
  { intros p Hp HpB. apply (HA p Hp), elem_of_app. auto. }
  assert (HAC : forall p, p ∈ A -> p ∉ C).
  { intros p Hp HpC. apply (HA p Hp), elem_of_app. auto. }
  destruct (cell_at_set_cells r co Treasure A
              (replicate r (replicate co Empty)))
    as (g1 & E1 & Hg1 & C1).
  { apply grid_shape_replicate. }
  { apply Forall_forall. intros p Hp. by apply Hrange, HinA. }
  destruct (cell_at_set_cells r co Bomb B g1) as (g2 & E2 & Hg2 & C2).
  { done. }
  { apply Forall_forall. intros p Hp. by apply Hrange, HinB. }
  exists ps, g2. split.
  { unfold gen_grid. rewrite Hshuf. simpl.
    rewrite place_seq, drop_0 by lia. fold A.
    rewrite E1. simpl. rewrite place_seq by lia. fold B.
    by rewrite E2. }
  split; [done|]. split; [done|]. split; [done|].
  assert (Hcell : forall p,
    cell_at g2 p = if decide (p ∈ B) then Some Bomb
                   else if decide (p ∈ A) then Some Treasure
                   else if decide (p.1 < r /\ p.2 < co)%nat then Some Empty
                   else None).
  { intros p. by rewrite C2, C1, cell_at_replicate. }
  split; [|split]; intros p; rewrite Hcell.
  - destruct (decide (p ∈ B)) as [HpB|HpB].
    + split; [done|]. intros HpA. by apply HAB in HpA.
    + destruct (decide (p ∈ A)); [done|].
      split; [|done]. by case_decide.
  - destruct (decide (p ∈ B)) as [HpB|HpB]; [done|].
    split; [|done]. destruct (decide (p ∈ A)); [done|]. by case_decide.
  - destruct (decide (p ∈ B)) as [HpB|HpB].
    { split; [done|]. intros HpC. by apply HBC in HpB. }
    destruct (decide (p ∈ A)) as [HpA|HpA].
    { split; [done|]. intros HpC. by apply HAC in HpA. }
    destruct (decide (p.1 < r /\ p.2 < co)%nat) as [Hin|Hout].
    + split; [|done]. intros _.
      apply Hrange, Hcover in Hin. by destruct Hin as [?|[?|?]].
    + split; [done|]. intros HpC. by apply HinC, Hrange in HpC.
Qed.

End Grid.



(** ** Clock comparisons *)

Lemma Qltb_lt a b : Qltb a b = true <-> (a < b)%Q.
Proof.
  unfold Qltb. rewrite negb_true_iff, <- not_true_iff_false, Qle_bool_iff.
  split; [apply Qnot_le_lt | apply Qlt_not_le].
Qed.

Lemma Qltb_ge a b : Qltb a b = false <-> (b <= a)%Q.
Proof.
  unfold Qltb. rewrite negb_false_iff. apply Qle_bool_iff.
Qed.

Lemma Qgeb_ge a b : Qgeb a b = true <-> (b <= a)%Q.
Proof. apply Qle_bool_iff. Qed.

Lemma py_int_diff_same t : py_int (t - t) = 0.
Proof.
  unfold py_int. destruct t as [n d]. simpl.
  replace (n * Z.pos d + - n * Z.pos d) with 0 by lia.
  apply Z.quot_0_l. lia.
Qed.

Lemma remaining_at_start limit t : 0 <= limit -> remaining limit t t = limit.
Proof. intros H. unfold remaining. rewrite py_int_diff_same. lia. Qed.

(** ** Level initialisation *)

Lemma lvl_fits k r co tr bm nd :
  lvl k = Some (r, co, tr, bm, nd) -> (tr + bm <= r * co)%nat.
Proof.
  unfold lvl, level. intros H.
  repeat case_match; simplify_eq; simpl; lia.
Qed.

Lemma lvl_defined k : 1 <= k <= 9 -> is_Some (lvl k).
Proof.
  intros H.
  assert (Hk : k = 1 \/ k = 2 \/ k = 3 \/ k = 4 \/ k = 5 \/ k = 6 \/ k = 7
               \/ k = 8 \/ k = 9) by lia.
  destruct Hk as [->|[->|[->|[->|[->|[->|[->|[->| ->]]]]]]]]; by eexists.
Qed.

Lemma ilvl_spec rnd now g c :
  cfg (df g) = Some c -> 1 <= lv g <= 9 ->
  exists g',
    ilvl rnd now g = Some g'
    /\ hp g' = c_hp c /\ tlm g' = c_t c
    /\ st g' = st g /\ df g' = df g /\ lv g' = lv g /\ sc g' = sc g
    /\ bomb_disarm_active g' = false /\ fnd g' = 0 /\ pos g' = (0, 0)
    /\ stm g' = now.
Proof.
  intros Hc Hlv.
  destruct (lvl_defined (lv g) Hlv) as [[[[[r co] tr] bm] nd] Hl].
  destruct (gen_grid_spec r co tr bm rnd (lvl_fits _ _ _ _ _ _ Hl))
    as (ps & grd' & Hgen & _).
  eexists. split.
  - unfold ilvl. rewrite Hc. simpl. rewrite Hl. simpl. rewrite Hgen. simpl.
    reflexivity.
  - by simpl.
Qed.

(** C10: every level initialisation sets the health to the starting health
    of the selected difficulty and the time limit to its per-level limit,
    whatever the health was before: in [ilvl] itself, at the entry of
    [play] (levels 1 to 9), and when the level is regenerated after a
    time-out that leaves health. *)
Theorem ilvl_resets_health_and_time
  (g : Game) (c : difficulty) (rnd : list nat) (now t_ld : Q)
  (i : play_in) (l : play_loc) :
  cfg (df g) = Some c -> 1 <= lv g <= 9 ->
  (exists g', ilvl rnd now g = Some g' /\ hp g' = c_hp c /\ tlm g' = c_t c)
  /\ (exists g' l',
        play_enter rnd now t_ld g = Some (g', l')
        /\ hp g' = c_hp c /\ tlm g' = c_t c)
  /\ (bomb_disarm_active g = false ->
      remaining (tlm g) (stm g) (i_now i) = 0 ->
      0 < hp g - 1 ->
      exists g' l',
        play_step i l g = Some (g', l', Continue)
        /\ hp g' = c_hp c /\ tlm g' = c_t c).
Proof.
  intros Hc Hlv.
  destruct (ilvl_spec rnd now g c Hc Hlv) as (g1 & E1 & Hhp1 & Htl1 & _).
  split; [by exists g1|]. split.
  - exists g1, (PlayLoc t_ld 0 (-1)). split; [|done].
    unfold play_enter. by rewrite E1.
  - intros Hdis Hrm Hhp.
    destruct (ilvl_spec (i_rnd i) (i_lvl_now i) (set_hp (hp g - 1) g) c)
      as (g2 & E2 & Hhp2 & Htl2 & _); [done..|].
    exists g2. eexists. split; [|done].
    unfold play_step. rewrite Hdis, Hrm. simpl.
    destruct (Z.leb_spec (hp g - 1) 0); [lia|].
    rewrite E2. reflexivity.
Qed.

Lemma ilvl_resets_health_and_time_witness :
  (exists g', ilvl [3; 0; 1]%nat 70 sample_play = Some g'
              /\ hp g' = 6 /\ tlm g' = 60)
  /\ (exists g' l',
        play_step (idle_play_in 70) (PlayLoc 0 0 (-1)) sample_play
        = Some (g', l', Continue)
        /\ hp g' = 6 /\ tlm g' = 60).
Proof.
  destruct (ilvl_resets_health_and_time sample_play (Difficulty 6 60 2 30)
              [3; 0; 1]%nat 70 70 (idle_play_in 70) (PlayLoc 0 0 (-1)))
    as (H1 & _ & H3).
  - reflexivity.
  - simpl. lia.
  - split; [exact H1|]. apply H3.
    + reflexivity.
    + reflexivity.
    + simpl. lia.
Defined.

(** ** Time-out in PLAY *)

(** C1 (as amended): in PLAY with no disarm active, when the remaining
    level time is 0 the health is decremented by one; if the decremented
    health is at most 0 the controller goes to OVER with the level left as
    it was; otherwise the current level is initialised again by [ilvl] and
    play continues in PLAY at the same level, with the health set by [ilvl]
    to the starting health of the difficulty. *)
Theorem play_timeout_outcome
  (i : play_in) (l : play_loc) (g : Game) (c : difficulty) :
  st g = PLAY -> bomb_disarm_active g = false ->
  remaining (tlm g) (stm g) (i_now i) = 0 ->
  cfg (df g) = Some c -> 1 <= lv g <= 9 ->
  (hp g - 1 <= 0
   /\ play_step i l g
      = Some (set_st OVER (set_hp (hp g - 1) g), l, Continue))
  \/ (0 < hp g - 1
      /\ exists g',
           ilvl (i_rnd i) (i_lvl_now i) (set_hp (hp g - 1) g) = Some g'
           /\ play_step i l g
              = Some (g', PlayLoc (i_now i) (le l) (lw l), Continue)
           /\ st g' = PLAY /\ lv g' = lv g /\ hp g' = c_hp c).
Proof.
  intros Hst Hdis Hrm Hc Hlv.
  unfold play_step. rewrite Hdis, Hrm. simpl.
  destruct (Z.leb_spec (hp g - 1) 0) as [Hle|Hgt].
  - left. done.
  - right. split; [done|].
    destruct (ilvl_spec (i_rnd i) (i_lvl_now i) (set_hp (hp g - 1) g) c)
      as (g2 & E2 & Hhp2 & _ & Hst2 & _ & Hlv2 & _); [done..|].
    exists g2. rewrite E2. simpl in *. by rewrite Hst2, Hlv2.
Qed.

Lemma play_timeout_outcome_witness :
  exists g',
    play_step (idle_play_in 70) (PlayLoc 0 0 (-1)) sample_play
    = Some (g', PlayLoc 70 0 (-1), Continue)
    /\ st g' = PLAY /\ hp g' = 6.
Proof.
  destruct (play_timeout_outcome (idle_play_in 70) (PlayLoc 0 0 (-1))
              sample_play (Difficulty 6 60 2 30))
    as [[Hle _]|(_ & g' & _ & Hstep & Hst & _ & Hhp)].
  - reflexivity.
  - reflexivity.
  - reflexivity.
  - reflexivity.
  - simpl. lia.
  - simpl in Hle. lia.
  - exists g'. split; [exact Hstep|]. split; [exact Hst|exact Hhp].
Defined.

(** C1 as stated fails: with 5 health points on the easiest setting, a
    time-out regenerates the level and play continues with 6 health
    points, not with 4. *)
Lemma play_timeout_health_counterexample :
  exists g' l',
    play_step (idle_play_in 70) (PlayLoc 0 0 (-1)) sample_play
    = Some (g', l', Continue)
    /\ st sample_play = PLAY
    /\ bomb_disarm_active sample_play = false
    /\ remaining (tlm sample_play) (stm sample_play) 70 = 0
    /\ 0 < hp sample_play - 1
    /\ st g' = PLAY
    /\ hp g' = 6
    /\ hp g' <> hp sample_play - 1.
Proof.
  eexists. eexists. split; [vm_compute; reflexivity|].
  repeat split; done.
Qed.

(** ** Digging *)

(** C9: digging while the cell under the cursor is already revealed
    returns at once: the whole session (score, health, treasures found,
    grid, revealed array, cursor, disarm opportunity, disarm flag and
    everything else) is left as it was. *)
Theorem dig_revealed_noop (t1 t2 : Q) (g : Game) (row : list bool) :
  py_get (rev g) (pos g).1 = Some row ->
  py_get row (pos g).2 = Some true ->
  dig t1 t2 g = Some g.
Proof.
  intros Hrow Hc. unfold dig. destruct (pos g) as [r c]. simpl in *.
  rewrite Hrow. simpl. by rewrite Hc.
Qed.

Lemma dig_revealed_noop_witness : dig 20 20 sample_play = Some sample_play.
Proof.
  apply (dig_revealed_noop 20 20 sample_play [false; true]); reflexivity.
Defined.

(** ** The buttons *)

Lemma cbtn_in_window now e b g :
  (now - lbt g < 2 # 10)%Q -> cbtn now e b g = (false, g).
Proof.
  intros H. unfold cbtn. apply Qltb_lt in H. by rewrite H.
Qed.

Lemma cbtn_after_window now e b g :
  (2 # 10 <= now - lbt g)%Q ->
  cbtn now e b g
  = if (ebl g && negb e) || (bl g && negb b)
    then (true, set_lbt now (set_bl b (set_ebl e g)))
    else (false, set_bl b (set_ebl e g)).
Proof.
  intros H. unfold cbtn. apply Qltb_ge in H. by rewrite H.
Qed.




(** Whatever the buttons do and whenever they are polled, two accepted
    press events are at least 200 ms apart, and the first one comes at
    least 200 ms after the press accepted before the run. *)
Lemma accepted_spaced (polls : list poll) :
  forall g : Game, spaced_from (lbt g) (accepted polls g).
Proof.
  induction polls as [|[[t e] b] polls IH]; intros g; [done|].
  simpl. unfold cbtn.
  destruct (Qltb (t - lbt g) (2 # 10)) eqn:Hw; [apply IH|].
  apply Qltb_ge in Hw.
  destruct ((ebl g && negb e) || (bl g && negb b)).
  - split; [lra|]. apply (IH (set_lbt t (set_bl b (set_ebl e g)))).
  - apply (IH (set_bl b (set_ebl e g))).
Qed.

(** Polls made inside the window accept nothing and leave the session as
    it is. *)
Lemma accepted_in_window (ws : list poll) (g : Game) :
  Forall (fun p : poll => (p.1.1 - lbt g < 2 # 10)%Q) ws ->
  forall rest, accepted (ws ++ rest) g = accepted rest g.
Proof.
  induction 1 as [|[[t e] b] ws Hp _ IH]; intros rest; [done|].
  simpl in *. by rewrite (cbtn_in_window _ _ _ _ Hp).
Qed.

(** Polls made after the window accept nothing exactly when none of them
    samples a button low that was sampled high before. *)
Lemma accepted_after_window (rest : list poll) : forall g : Game,
  Forall (fun p : poll => (2 # 10 <= p.1.1 - lbt g)%Q) rest ->
  accepted rest g = [] <-> no_new_press (ebl g) (bl g) rest.
Proof.
  induction rest as [|[[t e] b] rest IH]; intros g Hall; [done|].
  apply Forall_cons in Hall as [Hp Hall]. simpl in *.
  rewrite (cbtn_after_window _ _ _ _ Hp).
  destruct ((ebl g && negb e) || (bl g && negb b)) eqn:Hpr.
  - split; [discriminate|]. intros [H _]. discriminate.
  - rewrite (IH (set_bl b (set_ebl e g)) Hall). simpl. tauto.
Qed.

(** C4 (as amended): of two presses whose transitions are within 200 ms
    of each other, the first one sampled (a button stored high is sampled
    low, 200 ms or more after the press accepted before) is accepted as one
    event; the calls made less than 200 ms after it accept nothing; and the
    calls made from then on accept nothing either, so that exactly one
    event is accepted in all, exactly when none of them samples a button
    low that was sampled high before.  So a second press that is over, or
    that was already sampled low by the accepting call, gives no second
    event; a second press on a button which the accepting call sampled
    high and which is still low at the first call made 200 ms or more after
    it is accepted by that call as a second event.  In every run, two
    accepted events are at least 200 ms apart. *)
Theorem two_presses_one_event_unless_held
  (g : Game) (t1 : Q) (e1 b1 : bool) (ws rest : list poll) :
  (2 # 10 <= t1 - lbt g)%Q ->
  (ebl g && negb e1) || (bl g && negb b1) = true ->
  Forall (fun p : poll => (p.1.1 - t1 < 2 # 10)%Q) ws ->
  Forall (fun p : poll => (2 # 10 <= p.1.1 - t1)%Q) rest ->
  accepted ((t1, e1, b1) :: ws) g = [t1]
  /\ (accepted ((t1, e1, b1) :: ws ++ rest) g = [t1]
      <-> no_new_press e1 b1 rest)
  /\ (forall t2 e2 b2 rest',
        rest = (t2, e2, b2) :: rest' ->
        (e1 && negb e2) || (b1 && negb b2) = true ->
        exists ts,
          accepted ((t1, e1, b1) :: ws ++ rest) g = t1 :: t2 :: ts)
  /\ (forall polls g0, spaced_from (lbt g0) (accepted polls g0)).
Proof.
  intros Hout Hpr Hws Hrest.
  set (g1 := set_lbt t1 (set_bl b1 (set_ebl e1 g))).
  assert (Hfirst : forall polls,
            accepted ((t1, e1, b1) :: polls) g = t1 :: accepted polls g1).
  { intros polls. simpl.
    by rewrite (cbtn_after_window _ _ _ _ Hout), Hpr. }
  assert (Hws1 : Forall (fun p : poll => (p.1.1 - lbt g1 < 2 # 10)%Q) ws)
    by done.
  assert (Hrest1 : Forall (fun p : poll => (2 # 10 <= p.1.1 - lbt g1)%Q) rest)
    by done.
  split.
  { rewrite Hfirst, <- (app_nil_r ws).
    by rewrite (accepted_in_window ws g1 Hws1 []). }
  split.
  { rewrite Hfirst, (accepted_in_window ws g1 Hws1 rest).
    pose proof (accepted_after_window rest g1 Hrest1) as Hiff.
    change (ebl g1) with e1 in Hiff. change (bl g1) with b1 in Hiff.
    rewrite <- Hiff. split.
    - by intros [= ->].
    - by intros ->. }
  split; [|intros polls g0; apply accepted_spaced].
  intros t2 e2 b2 rest' -> Hheld.
  rewrite Hfirst, (accepted_in_window ws g1 Hws1).
  apply Forall_cons in Hrest1 as [Hp2 _].
  exists (accepted rest' (set_lbt t2 (set_bl b2 (set_ebl e2 g1)))).
  f_equal. simpl accepted at 1.
  rewrite (cbtn_after_window t2 e2 b2 g1 Hp2).
  change (ebl g1) with e1. change (bl g1) with b1. by rewrite Hheld.
Qed.

(** The encoder button is pressed at 1.0 s; the other button is pressed
    100 ms later and is released again when it is next sampled, at 1.3 s:
    one event. *)
Lemma two_presses_one_event_unless_held_witness :
  accepted [(1%Q, false, true); ((11 # 10)%Q, true, false);
            ((13 # 10)%Q, true, true)]
    (game_init (RotaryEncoder.init true true 0 1 2))
  = [1%Q].
Proof.
  destruct (two_presses_one_event_unless_held
              (game_init (RotaryEncoder.init true true 0 1 2))
              1 false true [((11 # 10)%Q, true, false)]
              [((13 # 10)%Q, true, true)])
    as (_ & Hone & _).
  - vm_compute. discriminate.
  - reflexivity.
  - repeat constructor.
  - repeat constructor. vm_compute. discriminate.
  - apply Hone. simpl. done.
Defined.

(** C4 as stated fails: the encoder button is pressed at 1.0 s, the other
    button 100 ms later and held; the polls at 1.0 s and at 1.3 s both
    report a press, two events for two presses 100 ms apart. *)
Lemma two_presses_counterexample :
  fst (cbtn_run [(1%Q, false, true); ((11 # 10)%Q, true, false);
                 ((13 # 10)%Q, true, false)]
         (game_init (RotaryEncoder.init true true 0 1 2)))
  = [true; false; true]
  /\ length (accepted [(1%Q, false, true); ((11 # 10)%Q, true, false);
                       ((13 # 10)%Q, true, false)]
               (game_init (RotaryEncoder.init true true 0 1 2)))
     <> 1%nat.
Proof. split; [reflexivity|]. vm_compute. discriminate. Qed.

(** ** The final level *)

Lemma renc_frame a b t g :
  exists d e', renc a b t g = (d, set_enc e' g).
Proof.
  unfold renc. simpl.
  destruct (0 <? _); [by eexists; eexists|].
  destruct (_ <? 0); by eexists; eexists.
Qed.

(** C8: in LV10, in an iteration that has time left and reads a confirm
    press: with the correct choice the score grows by 500 and the state
    becomes WIN; with the wrong choice the final-level health drops by one,
    and if it is then at most 0 the state becomes OVER, else the state
    stays LV10, the loop goes on, the correct answer is drawn again, and
    the countdown restarts with the whole final-level time limit left. *)
Theorem lv10_confirm_outcome (i : lv10_in) (l : lv10_loc) (g : Game) :
  st g = LV10 ->
  remaining (tl l) (stm g) (j_now i) <> 0 ->
  fst (cbtn (j_btn_now i) (j_btn_e i) (j_btn_b i) g) = true ->
  0 <= tl l ->
  exists g' l' f,
    lv10_step i l g = (g', l', f)
    /\ ((lv10_choice i l g = cor l
         /\ sc g' = sc g + 500 /\ st g' = WIN /\ f = Break
         /\ fhp g' = fhp g)
        \/ (lv10_choice i l g <> cor l /\ fhp g - 1 <= 0
            /\ fhp g' = fhp g - 1 /\ sc g' = sc g
            /\ st g' = OVER /\ f = Break)
        \/ (lv10_choice i l g <> cor l /\ 0 < fhp g - 1
            /\ fhp g' = fhp g - 1 /\ sc g' = sc g
            /\ st g' = LV10 /\ f = Continue
            /\ cor l' = Z.of_nat (randint0 1 (j_retry_rnd i))
            /\ tl l' = tl l /\ stm g' = j_retry_now i
            /\ remaining (tl l') (stm g') (j_retry_now i) = tl l)).
Proof.
  intros Hst Hrm Hpr Htl.
  unfold lv10_step, lv10_choice.
  apply Z.eqb_neq in Hrm. rewrite Hrm.
  destruct (renc_frame (j_enc_a i) (j_enc_b i) (j_enc_now i) g)
    as (d & e' & Hrenc).
  rewrite Hrenc. simpl fst.
  set (tog := negb (d =? 0) && Qltb (15 # 100) (j_now i - le10 l)).
  assert (Hcb : forall g2, lbt g2 = lbt g -> ebl g2 = ebl g -> bl g2 = bl g ->
            cbtn (j_btn_now i) (j_btn_e i) (j_btn_b i) g2
            = (true, set_lbt (j_btn_now i)
                       (set_bl (j_btn_b i) (set_ebl (j_btn_e i) g2)))).
  { intros g2 E1 E2 E3. revert Hpr. unfold cbtn. rewrite E1, E2, E3.
    destruct (Qltb (j_btn_now i - lbt g) (2 # 10)); [intros [=]|].
    destruct ((ebl g && negb (j_btn_e i)) || (bl g && negb (j_btn_b i)));
      [done|intros [=]]. }
  assert (Hfin : forall (ch : Z) (g3 : Game) (l2 : lv10_loc),
    cor l2 = cor l -> tl l2 = tl l ->
    fch g3 = ch -> fhp g3 = fhp g -> sc g3 = sc g -> st g3 = st g ->
    exists g' l' f,
      (if fch g3 =? cor l2
       then (set_st WIN (set_sc (sc g3 + 500) g3), l2, Break)
       else if fhp (set_fhp (fhp g3 - 1) g3) <=? 0
            then (set_st OVER (set_fhp (fhp g3 - 1) g3), l2, Break)
            else (set_stm (j_retry_now i) (set_fhp (fhp g3 - 1) g3),
                  Lv10Loc (tl l2) true (le10 l2) (ls l2)
                          (Z.of_nat (randint0 1 (j_retry_rnd i))),
                  Continue))
      = (g', l', f)
      /\ ((ch = cor l
           /\ sc g' = sc g + 500 /\ st g' = WIN /\ f = Break
           /\ fhp g' = fhp g)
          \/ (ch <> cor l /\ fhp g - 1 <= 0
              /\ fhp g' = fhp g - 1 /\ sc g' = sc g
              /\ st g' = OVER /\ f = Break)
          \/ (ch <> cor l /\ 0 < fhp g - 1
              /\ fhp g' = fhp g - 1 /\ sc g' = sc g
              /\ st g' = LV10 /\ f = Continue
              /\ cor l' = Z.of_nat (randint0 1 (j_retry_rnd i))
              /\ tl l' = tl l /\ stm g' = j_retry_now i
              /\ remaining (tl l') (stm g') (j_retry_now i) = tl l))).
  { intros ch g3 l2 Hcor Htl2 Hch Hfhp Hsc Hst3.
    rewrite Hcor, Hch. simpl. rewrite Hfhp.
    destruct (Z.eqb_spec ch (cor l)) as [Heq|Hne].
    - eexists; eexists; eexists. split; [reflexivity|].
      left. simpl. by rewrite Hsc, Hfhp.
    - destruct (Z.leb_spec (fhp g - 1) 0) as [Hle|Hgt].
      + eexists; eexists; eexists. split; [reflexivity|].
        right; left. simpl. by rewrite Hsc.
      + eexists; eexists; eexists. split; [reflexivity|].
        right; right. simpl. rewrite Hsc, Hst3, Hst, Htl2.
        by rewrite remaining_at_start. }
  set (pressed := fun g2 : Game =>
         set_lbt (j_btn_now i) (set_bl (j_btn_b i) (set_ebl (j_btn_e i) g2))).
  destruct tog.
  - rewrite Hcb by done.
    exact (Hfin (1 - fch g) (pressed (set_fch (1 - fch g) (set_enc e' g)))
             (Lv10Loc (tl l) false (j_now i) (py_int (j_now i - stm g))
                      (cor l))
             eq_refl eq_refl eq_refl eq_refl eq_refl eq_refl).
  - rewrite Hcb by done.
    destruct (rd l || negb (py_int (j_now i - stm g) =? ls l)).
    + exact (Hfin (fch g) (pressed (set_enc e' g))
               (Lv10Loc (tl l) false (le10 l) (py_int (j_now i - stm g))
                        (cor l))
               eq_refl eq_refl eq_refl eq_refl eq_refl eq_refl).
    + exact (Hfin (fch g) (pressed (set_enc e' g)) l
               eq_refl eq_refl eq_refl eq_refl eq_refl eq_refl).
Qed.

(** A wrong choice with two final-level health points, then a second
    one. *)
Lemma lv10_confirm_outcome_witness :
  exists g' l' f,
    lv10_step (Lv10In 105 true true 105000 105 false true 108 1)
              (Lv10Loc 30 false 0 4 1) sample_final
    = (g', l', f)
    /\ fhp g' = 1 /\ st g' = LV10 /\ f = Continue /\ cor l' = 1
    /\ remaining (tl l') (stm g') 108 = 30.
Proof.
  destruct (lv10_confirm_outcome
              (Lv10In 105 true true 105000 105 false true 108 1)
              (Lv10Loc 30 false 0 4 1) sample_final)
    as (g' & l' & f & Hstep
        & [(Hc & _)|[(_ & Hle & _)
                    |(_ & _ & Hf & _ & Hs & Hfl & Hcor & _ & _ & Hrm)]]).
  - reflexivity.
  - vm_compute. discriminate.
  - reflexivity.
  - simpl. lia.
  - exfalso. vm_compute in Hc. discriminate Hc.
  - exfalso. simpl in Hle. lia.
  - exists g', l', f. split; [exact Hstep|].
    split; [exact Hf|]. split; [exact Hs|]. split; [exact Hfl|].
    split; [exact Hcor|exact Hrm].
Defined.

(** * Further properties *)

(** ** The decoder, one update at a time *)

Section DecoderSteps.
Import RotaryEncoder.

Lemma div_step_up raw ppd :
  1 <= ppd ->
  (raw + 1) `div` ppd = raw `div` ppd
  \/ (raw + 1) `div` ppd = raw `div` ppd + 1.
Proof.
  intros Hp.
  assert (H1 : raw `div` ppd <= (raw + 1) `div` ppd)
    by (apply Z.div_le_mono; lia).
  assert (H2 : (raw + 1) `div` ppd <= (raw + 1 * ppd) `div` ppd)
    by (apply Z.div_le_mono; lia).
  rewrite Z.div_add in H2 by lia. lia.
Qed.

Lemma div_step_down raw ppd :
  1 <= ppd ->
  (raw - 1) `div` ppd = raw `div` ppd
  \/ (raw - 1) `div` ppd = raw `div` ppd - 1.
Proof.
  intros Hp. destruct (div_step_up (raw - 1) ppd Hp) as [H|H];
    replace (raw - 1 + 1) with raw in H by lia; lia.
Qed.

Lemma div_step raw ppd a b :
  1 <= ppd ->
  -1 <= (raw + edge_step a b) `div` ppd - raw `div` ppd <= 1.
Proof.
  intros Hp. unfold edge_step.
  destruct (div_step_up raw ppd Hp), (div_step_down raw ppd Hp).
  all: destruct a, b; simpl; replace (raw + -1) with (raw - 1) by lia; lia.
Qed.

(** X1: on every decoder reachable from its constructor, one [update]
    moves the raw count by at most one pulse and the detent position by at
    most one detent, returns [True] exactly when the detent position has
    changed, and adds exactly that change to the pending delta. *)
Theorem update_moves_at_most_one_detent
  a0 b0 t0 db ppd (ops : list op) (a b : bool) (now : Q) :
  let e := dec (run ops (observe_init (init a0 b0 t0 db ppd))) in
  let changed := fst (update a b now e) in
  let e' := snd (update a b now e) in
  -1 <= position_raw e' - position_raw e <= 1
  /\ -1 <= position e' - position e <= 1
  /\ (changed = true <-> position e' <> position e)
  /\ delta_accum e' = delta_accum e + (position e' - position e)
  /\ last_a e' = a /\ last_b e' = b.
Proof.
  intros e changed e'.
  destruct (decoder_inv_run ops _ (decoder_inv_init a0 b0 t0 db ppd))
    as (Hp & Hpos & _).
  fold e in Hp, Hpos.
  pose proof (div_step (position_raw e) (pulses_per_detent e) a b Hp) as Hd.
  unfold changed, e', update.
  destruct (negb (Bool.eqb a (last_a e))); simpl;
    [|repeat split; try lia; done].
  destruct (Qgeb _ _); simpl; [|repeat split; try lia; done].
  destruct (Z.eqb_spec
              ((position_raw e + edge_step a b) `div` pulses_per_detent e)
              (position e)) as [Heq|Hne]; simpl.
  - repeat split; try lia; try done.
    all: unfold edge_step; destruct a, b; simpl; lia.
  - repeat split; try lia; try done.
    all: unfold edge_step; destruct a, b; simpl; lia.
Qed.

Lemma Qgeb_lt a b : Qgeb a b = false <-> (a < b)%Q.
Proof.
  unfold Qgeb. rewrite <- not_true_iff_false, Qle_bool_iff.
  split; [apply Qnot_le_lt | apply Qlt_not_le].
Qed.

(** An [update] that sees a change of line A after the debounce interval:
    every field of the resulting decoder. *)
Lemma update_accepted a b now e :
  a = negb (last_a e) ->
  (inject_Z (debounce_ms e) <= now - last_change_time e)%Q ->
  let e' := snd (update a b now e) in
  let new_pos :=
    (position_raw e + edge_step a b) `div` pulses_per_detent e in
  last_a e' = a /\ last_b e' = b
  /\ debounce_ms e' = debounce_ms e
  /\ pulses_per_detent e' = pulses_per_detent e
  /\ last_change_time e' = now
  /\ position_raw e' = position_raw e + edge_step a b
  /\ position e' = new_pos
  /\ delta_accum e' = delta_accum e + (new_pos - position e).
Proof.
  intros Ha Ht. unfold update.
  replace (negb (Bool.eqb a (last_a e))) with true
    by (rewrite Ha; by destruct (last_a e)).
  apply Qgeb_ge in Ht. rewrite Ht.
  destruct (Z.eqb_spec
              ((position_raw e + edge_step a b) `div` pulses_per_detent e)
              (position e)) as [Heq|Hne]; simpl; repeat split; try done.
  rewrite Heq. lia.
Qed.

(** An [update] that sees a change of line A before the debounce interval
    has elapsed stores the levels and nothing else. *)
Lemma update_debounced a b now e :
  a = negb (last_a e) ->
  (now - last_change_time e < inject_Z (debounce_ms e))%Q ->
  update a b now e = (false, set_last a b e).
Proof.
  intros Ha Ht. unfold update.
  replace (negb (Bool.eqb a (last_a e))) with true
    by (rewrite Ha; by destruct (last_a e)).
  apply Qgeb_lt in Ht. by rewrite Ht.
Qed.

(** X2: a change of line A that comes sooner after an accepted change
    than the debounce interval is dropped: the first change counts one
    pulse, the second leaves raw count, detent position and pending delta
    as they were, yet its level is stored, so that a later sample of the
    same level is no change either. *)
Theorem debounce_drops_fast_transition
  (e : t) (a b b' b'' : bool) (t1 t2 t3 : Q) :
  a = negb (last_a e) ->
  (inject_Z (debounce_ms e) <= t1 - last_change_time e)%Q ->
  (t2 - t1 < inject_Z (debounce_ms e))%Q ->
  let e1 := snd (update a b t1 e) in
  let e2 := snd (update (negb a) b' t2 e1) in
  let e3 := snd (update (negb a) b'' t3 e2) in
  position_raw e1 = position_raw e + edge_step a b
  /\ fst (update (negb a) b' t2 e1) = false
  /\ position_raw e2 = position_raw e1
  /\ position e2 = position e1
  /\ delta_accum e2 = delta_accum e1
  /\ last_a e2 = negb a
  /\ fst (update (negb a) b'' t3 e2) = false
  /\ position_raw e3 = position_raw e1.
Proof.
  intros Ha H1 H2 e1 e2 e3.
  destruct (update_accepted a b t1 e Ha H1)
    as (Ea & _ & Edb & _ & Et & Eraw & _).
  fold e1 in Ea, Edb, Et, Eraw.
  assert (Hdrop : update (negb a) b' t2 e1 = (false, set_last (negb a) b' e1)).
  { apply update_debounced; [by rewrite Ea|]. by rewrite Et, Edb. }
  unfold e3, e2. rewrite Hdrop. simpl.
  repeat split; try done.
  all: unfold update; simpl; by rewrite Bool.eqb_reflx.
Qed.

Lemma debounce_drops_fast_transition_witness :
  let e := init true true 0 1 2 in
  let e1 := snd (update false true 5 e) in
  let e2 := snd (update true true (55 # 10) e1) in
  position_raw e1 = 1 /\ position_raw e2 = 1 /\ last_a e2 = true.
Proof.
  destruct (debounce_drops_fast_transition (init true true 0 1 2)
              false true true true 5 (55 # 10) 6)
    as (H1 & _ & H3 & _ & _ & H6 & _).
  - reflexivity.
  - vm_compute. discriminate.
  - reflexivity.
  - split; [exact H1|]. split; [|exact H6].
    etrans; [exact H3|exact H1].
Defined.

(** X3: jitter on line A cancels: when A changes and changes back while
    B keeps its level, both changes being accepted, the raw count, the
    detent position and the pending delta are the same as before the two
    updates. *)
Theorem jitter_on_a_cancels (e : t) (a b : bool) (t1 t2 : Q) :
  1 <= pulses_per_detent e ->
  position e = position_raw e `div` pulses_per_detent e ->
  a = negb (last_a e) ->
  (inject_Z (debounce_ms e) <= t1 - last_change_time e)%Q ->
  (inject_Z (debounce_ms e) <= t2 - t1)%Q ->
  let e2 := snd (update (negb a) b t2 (snd (update a b t1 e))) in
  position_raw e2 = position_raw e
  /\ position e2 = position e
  /\ delta_accum e2 = delta_accum e.
Proof.
  intros Hp Hinv Ha H1 H2 e2.
  destruct (update_accepted a b t1 e Ha H1)
    as (Ea & _ & Edb & Eppd & Et & Eraw & Epos & Edel).
  destruct (update_accepted (negb a) b t2 (snd (update a b t1 e)))
    as (_ & _ & _ & _ & _ & Eraw2 & Epos2 & Edel2).
  { by rewrite Ea. }
  { by rewrite Et, Edb. }
  fold e2 in Eraw2, Epos2, Edel2.
  assert (Hback : position_raw e2 = position_raw e).
  { rewrite Eraw2, Eraw. unfold edge_step. destruct a, b; simpl; lia. }
  rewrite Eraw2 in Hback.
  rewrite Epos2, Edel2, Eppd, Hback, Edel, Epos, <- Hinv.
  repeat split; try done; lia.
Qed.

Lemma jitter_on_a_cancels_witness :
  let e2 := snd (update true true 9
                   (snd (update false true 5 (init true true 0 1 2)))) in
  position_raw e2 = 0 /\ position e2 = 0 /\ delta_accum e2 = 0.
Proof.
  apply (jitter_on_a_cancels (init true true 0 1 2) false true 5 9).
  - simpl. lia.
  - reflexivity.
  - reflexivity.
  - vm_compute. discriminate.
  - vm_compute. discriminate.
Defined.

(** X4: one detent click of a two-pulse decoder: when A changes and then
    A changes back with B at the opposite level, both changes being
    accepted, the detent position moves by exactly one detent in the
    direction the edge table gives for the first change, and the pending
    delta grows by the same amount. *)
Theorem detent_click_moves_one (e : t) (a b : bool) (t1 t2 : Q) :
  pulses_per_detent e = 2 ->
  position e = position_raw e `div` 2 ->
  a = negb (last_a e) ->
  (inject_Z (debounce_ms e) <= t1 - last_change_time e)%Q ->
  (inject_Z (debounce_ms e) <= t2 - t1)%Q ->
  let e2 := snd (update (negb a) (negb b) t2 (snd (update a b t1 e))) in
  position_raw e2 = position_raw e + 2 * edge_step a b
  /\ position e2 = position e + edge_step a b
  /\ delta_accum e2 = delta_accum e + edge_step a b.
Proof.
  intros Hppd Hinv Ha H1 H2 e2.
  destruct (update_accepted a b t1 e Ha H1)
    as (Ea & _ & Edb & Eppd & Et & Eraw & Epos & Edel).
  destruct (update_accepted (negb a) (negb b) t2 (snd (update a b t1 e)))
    as (_ & _ & _ & _ & _ & Eraw2 & Epos2 & Edel2).
  { by rewrite Ea. }
  { by rewrite Et, Edb. }
  fold e2 in Eraw2, Epos2, Edel2.
  assert (Hsame : edge_step (negb a) (negb b) = edge_step a b)
    by (by destruct a, b).
  rewrite Hsame in *.
  assert (Hraw : position_raw e2 = position_raw e + 2 * edge_step a b)
    by lia.
  rewrite Eraw2 in Hraw.
  assert (Hdiv : (position_raw e + 2 * edge_step a b) `div` 2
                 = position_raw e `div` 2 + edge_step a b).
  { rewrite (Z.mul_comm 2). apply Z.div_add. lia. }
  rewrite Epos2, Edel2, Eppd, Hppd, Hraw, Hdiv, Edel, Epos, <- Hinv.
  repeat split; try done; lia.
Qed.

Lemma detent_click_moves_one_witness :
  let e2 := snd (update true false 9
                   (snd (update false true 5 (init true true 0 1 2)))) in
  position_raw e2 = 2 /\ position e2 = 1 /\ delta_accum e2 = 1.
Proof.
  apply (detent_click_moves_one (init true true 0 1 2) false true 5 9).
  - reflexivity.
  - reflexivity.
  - reflexivity.
  - vm_compute. discriminate.
  - vm_compute. discriminate.
Defined.

End DecoderSteps.

Section DecoderReads.
Import RotaryEncoder.

Lemma update_keeps_floor a b now e :
  1 <= pulses_per_detent e ->
  position e = position_raw e `div` pulses_per_detent e ->
  let e' := snd (update a b now e) in
  pulses_per_detent e' = pulses_per_detent e
  /\ position e' = position_raw e' `div` pulses_per_detent e'
  /\ -1 <= position e' - position e <= 1
  /\ delta_accum e' = delta_accum e + (position e' - position e).
Proof.
  intros Hp Hinv.
  pose proof (div_step (position_raw e) (pulses_per_detent e) a b Hp) as Hd.
  unfold update.
  destruct (negb (Bool.eqb a (last_a e))); simpl;
    [|repeat split; try lia; done].
  destruct (Qgeb _ _); simpl; [|repeat split; try lia; done].
  destruct (Z.eqb_spec
              ((position_raw e + edge_step a b) `div` pulses_per_detent e)
              (position e)) as [Heq|Hne]; simpl;
    repeat split; try lia; done.
Qed.

(** X5: [renc] on a decoder with no delta pending returns exactly the
    detent movement of this call, which is -1, 0 or 1; it leaves no delta
    pending, keeps the detent position at the floor of the raw count, and
    changes nothing of the session but the decoder. *)
Theorem renc_returns_detent_step (g : Game) (a b : bool) (now : Q) :
  enc_settled (enc g) ->
  let d := fst (renc a b now g) in
  let g' := snd (renc a b now g) in
  d = position (enc g') - position (enc g)
  /\ -1 <= d <= 1
  /\ enc_settled (enc g')
  /\ g' = set_enc (enc g') g.
Proof.
  intros (Hp & Hinv & Hzero) d g'.
  destruct (update_keeps_floor a b now (enc g) Hp Hinv)
    as (Eppd & Efloor & Hstep & Edel).
  unfold d, g', renc, get_delta. rewrite Edel, Hzero. simpl.
  set (e1 := snd (update a b now (enc g))) in *.
  destruct (Z.ltb_spec 0 (0 + (position e1 - position (enc g)))) as [H1|H1];
    [|destruct (Z.ltb_spec (0 + (position e1 - position (enc g))) 0)
        as [H2|H2]];
    simpl; unfold enc_settled; simpl; rewrite ?Eppd;
    repeat split; try done; try lia.
  all: by rewrite <- Eppd.
Qed.

Lemma renc_returns_detent_step_witness :
  fst (renc false true 15000 sample_play) = 0
  /\ enc_settled (enc (snd (renc false true 15000 sample_play))).
Proof.
  destruct (renc_returns_detent_step sample_play false true 15000)
    as (H1 & _ & H3 & _).
  - unfold enc_settled; simpl. repeat split; lia.
  - split; [|exact H3]. rewrite H1. reflexivity.
Defined.

End DecoderReads.

(** ** The buttons, once sampled *)

Lemma set_levels_id g : set_bl (bl g) (set_ebl (ebl g) g) = g.
Proof. by destruct g. Qed.

Lemma cbtn_same_levels t g : cbtn t (ebl g) (bl g) g = (false, g).
Proof.
  unfold cbtn. destruct (Qltb _ _); [done|].
  replace ((ebl g && negb (ebl g)) || (bl g && negb (bl g))) with false
    by (by destruct (ebl g), (bl g)).
  by rewrite set_levels_id.
Qed.

(** X6: no auto-repeat: once a call of [cbtn] has sampled the buttons
    (it came 200 ms or more after the last accepted press), later calls
    that find both buttons at the levels sampled then report no press,
    however many they are and whenever they come; a held button yields
    one press at most. *)
Theorem held_button_no_repeat
  (g : Game) (t : Q) (e b : bool) (polls : list poll) :
  (2 # 10 <= t - lbt g)%Q ->
  Forall (fun p : poll => p.1.2 = e /\ p.2 = b) polls ->
  let g1 := snd (cbtn t e b g) in
  cbtn_run polls g1 = (replicate (length polls) false, g1)
  /\ accepted polls g1 = [].
Proof.
  intros Hout Hpolls g1.
  assert (Hlev : ebl g1 = e /\ bl g1 = b).
  { unfold g1. rewrite (cbtn_after_window t e b g Hout).
    by destruct ((ebl g && negb e) || (bl g && negb b)). }
  destruct Hlev as [He Hb]. clearbody g1. clear Hout. subst e b.
  induction Hpolls as [|[[t' e'] b'] polls [E1 E2] _ IH]; [done|].
  simpl in E1, E2. subst e' b'. simpl.
  rewrite !cbtn_same_levels.
  destruct IH as [IH1 IH2]. by rewrite IH1, IH2.
Qed.

(** The encoder button is pressed at 1 s and held for a second. *)
Lemma held_button_no_repeat_witness :
  fst (cbtn_run [((12 # 10)%Q, false, true); ((15 # 10)%Q, false, true);
                 (2%Q, false, true)]
         (snd (cbtn 1 false true
                 (game_init (RotaryEncoder.init true true 0 1 2)))))
  = [false; false; false].
Proof.
  destruct (held_button_no_repeat
              (game_init (RotaryEncoder.init true true 0 1 2)) 1 false true
              [((12 # 10)%Q, false, true); ((15 # 10)%Q, false, true);
               (2%Q, false, true)]) as [H _].
  - vm_compute. discriminate.
  - repeat constructor.
  - by rewrite H.
Defined.

(** ** Digging an unrevealed cell *)

Lemma py_index_nonneg {X} (l : list X) (i : Z) :
  0 <= i < Z.of_nat (length l) -> py_index l i = Some (Z.to_nat i).
Proof.
  intros H. unfold py_index.
  destruct (Z.leb_spec 0 i), (Z.ltb_spec i (Z.of_nat (length l)));
    simpl; (done || lia).
Qed.

Lemma py_index_bound {X} (l : list X) (i : Z) (k : nat) :
  py_index l i = Some k -> (k < length l)%nat.
Proof.
  unfold py_index. intros H.
  destruct (Z.leb_spec 0 i), (Z.ltb_spec i (Z.of_nat (length l)));
    simpl in H; simplify_eq; try lia.
  - destruct (Z.leb_spec (- Z.of_nat (length l)) i), (Z.ltb_spec i 0);
      simpl in H; simplify_eq; lia.
  - destruct (Z.leb_spec (- Z.of_nat (length l)) i), (Z.ltb_spec i 0);
      simpl in H; simplify_eq; lia.
Qed.

Lemma py_get_nonneg {X} (l : list X) (i : Z) :
  0 <= i < Z.of_nat (length l) -> py_get l i = l !! Z.to_nat i.
Proof. intros H. unfold py_get. by rewrite py_index_nonneg. Qed.

Lemma py_set_get {X} (l l' : list X) (i : Z) (x : X) :
  py_set l i x = Some l' -> py_get l' i = Some x.
Proof.
  unfold py_set, py_get, py_index. intros H.
  destruct ((0 <=? i) && (i <? Z.of_nat (length l))) eqn:E1;
    [|destruct ((- Z.of_nat (length l) <=? i) && (i <? 0)) eqn:E2];
    simpl in H; simplify_eq.
  - rewrite length_insert, E1. simpl.
    apply list_lookup_insert_eq. lia.
  - rewrite length_insert, E1, E2. simpl.
    apply list_lookup_insert_eq. lia.
Qed.

(** X7: digging twice is digging once: whatever the first [dig] did
    (treasure, bomb, disarm start or nothing) and whenever it returned
    without error, a second [dig] on the same cell leaves the session
    exactly as the first one left it. *)
Theorem dig_twice_is_dig_once (t1 t2 t3 t4 : Q) (g g' : Game) :
  dig t1 t2 g = Some g' -> dig t3 t4 g' = Some g'.
Proof.
  unfold dig. destruct (pos g) as [r c] eqn:Hpos.
  destruct (py_get (rev g) r) as [row|] eqn:Hrow; simpl; [|done].
  destruct (py_get row c) as [[|]|] eqn:Hc; simpl; [| |done].
  - intros [= <-]. by rewrite Hpos, Hrow; simpl; rewrite Hc.
  - destruct (py_set row c true) as [row'|] eqn:Hset1; simpl; [|done].
    destruct (py_set (rev g) r row') as [rev'|] eqn:Hset2; simpl; [|done].
    destruct (py_get (grd g) r) as [grow|]; simpl; [|done].
    destruct (py_get grow c) as [k|]; simpl; [|done].
    assert (Hagain : forall g2,
              pos g2 = (r, c) -> rev g2 = rev' ->
              (let '(r0, c0) := pos g2 in
               row0 ← py_get (rev g2) r0;
               revealed ← py_get row0 c0;
               if revealed : bool then Some g2
               else
                 row1 ← py_set row0 c0 true;
                 rev1 ← py_set (rev g2) r0 row1;
                 let g3 := set_rev rev1 g2 in
                 grow0 ← py_get (grd g2) r0;
                 k0 ← py_get grow0 c0;
                 match k0 with
                 | Treasure =>
                     Some (set_sc (sc g3 + 50) (set_fnd (fnd g3 + 1) g3))
                 | Bomb =>
                     if shake_event_available g3 then
                       Some (set_shake_event_available false
                            (set_last_tick_time t4
                            (set_shake_start_time t3
                            (set_bomb_disarm_active true g3))))
                     else Some (set_hp (hp g3 - 1) g3)
                 | Empty => Some g3
                 end) = Some g2).
    { intros g2 -> ->.
      rewrite (py_set_get _ _ _ _ Hset2). simpl.
      by rewrite (py_set_get _ _ _ _ Hset1). }
    destruct k; [| |destruct (shake_event_available g)];
      intros [= <-]; by apply Hagain.
Qed.

Lemma dig_twice_is_dig_once_witness :
  exists g',
    dig 20 20 (set_pos (0, 0) sample_play) = Some g'
    /\ fnd g' = 1 /\ dig 21 21 g' = Some g'.
Proof.
  eexists. split; [reflexivity|]. split; [reflexivity|].
  apply (dig_twice_is_dig_once 20 20 21 21 (set_pos (0, 0) sample_play)).
  reflexivity.
Defined.

(** ** The tables *)

Lemma lvl_entry k r co tr bm nd :
  lvl k = Some (r, co, tr, bm, nd) ->
  1 <= k <= 9 /\ (2 <= r <= 4)%nat /\ (2 <= co <= 4)%nat
  /\ (tr + bm <= r * co)%nat /\ 1 <= nd <= Z.of_nat tr.
Proof.
  unfold lvl, level. intros H.
  repeat case_match; simplify_eq; simpl; lia.
Qed.

Lemma cfg_entry k c :
  cfg k = Some c ->
  0 <= k <= 2 /\ 2 <= c_hp c /\ 15 <= c_t c /\ 1 <= c_h10 c /\ 15 <= c_t10 c.
Proof.
  unfold cfg. intros H.
  repeat case_match; simplify_eq; simpl; lia.
Qed.

Lemma cfg_defined k : 0 <= k <= 2 -> is_Some (cfg k).
Proof.
  intros H. assert (Hk : k = 0 \/ k = 1 \/ k = 2) by lia.
  destruct Hk as [->|[->| ->]]; by eexists.
Qed.

(** ** Digging, in full *)

Section Digging.
Variables (r co : nat) (g : Game).
Hypothesis Hgrd : grid_shape r co (grd g).
Hypothesis Hrev : grid_shape r co (rev g).
Hypothesis Hpos : valid_pos (Z.of_nat r) (Z.of_nat co) (pos g).

Let R := Z.to_nat (pos g).1.
Let C := Z.to_nat (pos g).2.

Lemma cursor_lookups :
  exists row v grow k,
    rev g !! R = Some row /\ row !! C = Some v /\ length row = co
    /\ grd g !! R = Some grow /\ grow !! C = Some k
    /\ py_get (rev g) (pos g).1 = Some row
    /\ py_get row (pos g).2 = Some v
    /\ py_get (grd g) (pos g).1 = Some grow
    /\ py_get grow (pos g).2 = Some k
    /\ py_set row (pos g).2 true = Some (<[C := true]> row)
    /\ py_set (rev g) (pos g).1 (<[C := true]> row)
       = Some (<[R := <[C := true]> row]> (rev g)).
Proof.
  destruct Hgrd as [Hgl Hgr], Hrev as [Hrl Hrr], Hpos as [H1 H2].
  destruct (lookup_lt_is_Some_2 (rev g) R) as [row Hrow]; [unfold R; lia|].
  destruct (lookup_lt_is_Some_2 (grd g) R) as [grow Hgrow]; [unfold R; lia|].
  assert (Hlr : length row = co) by (eapply Forall_lookup_1 in Hrr; eauto).
  assert (Hlg : length grow = co) by (eapply Forall_lookup_1 in Hgr; eauto).
  destruct (lookup_lt_is_Some_2 row C) as [v Hv]; [unfold C; lia|].
  destruct (lookup_lt_is_Some_2 grow C) as [k Hk]; [unfold C; lia|].
  exists row, v, grow, k.
  repeat split; try done.
  - rewrite py_get_nonneg by lia. done.
  - rewrite py_get_nonneg by lia. done.
  - rewrite py_get_nonneg by lia. done.
  - rewrite py_get_nonneg by lia. done.
  - unfold py_set. rewrite py_index_nonneg by lia. done.
  - unfold py_set. rewrite py_index_nonneg by lia. done.
Qed.

End Digging.




(** ** A level, from its generation to its end *)

Lemma gen_grid_counts r co tr bm rnd ps g :
  (tr + bm <= r * co)%nat ->
  gen_grid r co tr bm rnd = Some (ps, g) ->
  grid_shape r co g
  /\ count_cells Treasure g = tr /\ count_cells Bomb g = bm.
Proof.
  intros Hfit Hgen.
  destruct (gen_grid_spec r co tr bm rnd Hfit)
    as (ps' & g' & Hgen' & _ & Hperm & Hg & HT & HB & _).
  rewrite Hgen in Hgen'. injection Hgen' as <- <-.
  assert (Hnd : NoDup ps) by (rewrite Hperm; apply NoDup_all_positions).
  assert (Hlen : length ps = (r * co)%nat)
    by (by rewrite Hperm, length_all_positions).
  assert (Hsub : forall qs, qs `sublist_of` ps ->
            length (filter (fun p => p ∈ qs) (all_positions r co))
            = length qs).
  { intros qs Hqs. apply length_filter_elem_of.
    - apply NoDup_all_positions.
    - by eapply sublist_NoDup.
    - intros p Hp. rewrite <- Hperm. by apply (sublist_subseteq qs ps Hqs). }
  split; [done|]. split.
  - rewrite (count_cells_positions r co) by done.
    rewrite (list_filter_iff _ (fun p => p ∈ take tr ps)) by done.
    rewrite Hsub by apply sublist_take. rewrite length_take. lia.
  - rewrite (count_cells_positions r co) by done.
    rewrite (list_filter_iff _ (fun p => p ∈ take bm (drop tr ps))) by done.
    rewrite Hsub.
    + rewrite length_take, length_drop. lia.
    + etrans; [apply sublist_take|apply sublist_drop].
Qed.

Lemma ilvl_facts
  (rnd : list nat) (now : Q) (g : Game) (c : difficulty) :
  cfg (df g) = Some c -> 1 <= lv g <= 9 ->
  exists g' r co tr bm nd,
    ilvl rnd now g = Some g'
    /\ lvl (lv g) = Some (r, co, tr, bm, nd)
    /\ level_ready g'
    /\ rev g' = replicate r (replicate co false)
    /\ count_cells Treasure (grd g') = tr
    /\ count_cells Bomb (grd g') = bm
    /\ 1 <= nd <= Z.of_nat (count_cells Treasure (grd g'))
    /\ fnd g' = 0 /\ pos g' = (0, 0)
    /\ bomb_disarm_active g' = false
    /\ shake_event_available g' = bool_decide (df g = 0)
    /\ stm g' = now
    /\ df g' = df g /\ lv g' = lv g /\ sc g' = sc g /\ st g' = st g
    /\ hp g' = c_hp c /\ tlm g' = c_t c.
Proof.
  intros Hc Hlv.
  destruct (lvl_defined (lv g) Hlv) as [[[[[r co] tr] bm] nd] Hl].
  destruct (lvl_entry _ _ _ _ _ _ Hl) as (_ & Hr & Hco & Hfit & Hnd).
  destruct (gen_grid_spec r co tr bm rnd Hfit) as (ps & grd' & Hgen & _).
  destruct (gen_grid_counts r co tr bm rnd ps grd' Hfit Hgen)
    as (Hshape & HT & HB).
  eexists. exists r, co, tr, bm, nd. split.
  { unfold ilvl. rewrite Hc. simpl. rewrite Hl. simpl. rewrite Hgen. simpl.
    reflexivity. }
  simpl. split; [done|]. split.
  { split; [simpl; by rewrite Hc|]. exists r, co, tr, bm, nd. simpl.
    split; [done|]. split; [done|].
    split; [apply grid_shape_replicate|]. unfold valid_pos; simpl; lia. }
  rewrite HT, HB. repeat (split; [done || lia|]). done.
Qed.

(** X9: for each of the nine levels and every stream of random draws,
    [ilvl] succeeds and leaves a session ready to be played: grid and
    revealed array have the shape of the level, nothing is revealed or
    found, the cursor is on (0, 0), no disarm is active, the disarm
    opportunity is granted exactly on the easiest difficulty, and the grid
    holds the level's numbers of treasures and bombs, the treasures being
    at least as many as the level requires; score, level and state are
    kept. *)
Theorem ilvl_level_ready
  (rnd : list nat) (now : Q) (g : Game) (c : difficulty) :
  cfg (df g) = Some c -> 1 <= lv g <= 9 ->
  exists g' r co tr bm nd,
    ilvl rnd now g = Some g'
    /\ lvl (lv g) = Some (r, co, tr, bm, nd)
    /\ level_ready g'
    /\ rev g' = replicate r (replicate co false)
    /\ count_cells Treasure (grd g') = tr
    /\ count_cells Bomb (grd g') = bm
    /\ 1 <= nd <= Z.of_nat (count_cells Treasure (grd g'))
    /\ fnd g' = 0 /\ pos g' = (0, 0)
    /\ bomb_disarm_active g' = false
    /\ shake_event_available g' = bool_decide (df g = 0)
    /\ stm g' = now
    /\ df g' = df g /\ lv g' = lv g /\ sc g' = sc g /\ st g' = st g
    /\ hp g' = c_hp c /\ tlm g' = c_t c.
Proof. apply ilvl_facts. Qed.

Lemma ilvl_level_ready_witness :
  exists g',
    ilvl [3; 0; 1]%nat 70 sample_play = Some g'
    /\ level_ready g'
    /\ count_cells Treasure (grd g') = 2%nat
    /\ shake_event_available g' = true.
Proof.
  destruct (ilvl_level_ready [3; 0; 1]%nat 70 sample_play
              (Difficulty 6 60 2 30))
    as (g' & r & co & tr & bm & nd & H1 & H2 & H3 & _ & H5 & _ & _ & _ & _
        & _ & H11 & _).
  - reflexivity.
  - simpl. lia.
  - exists g'. split; [exact H1|]. split; [exact H3|].
    simpl in H2. injection H2 as <- <- <- <- <-.
    split; [exact H5|exact H11].
Defined.

Lemma dig_explicit t1 t2 g (r co : nat) :
  grid_shape r co (grd g) -> grid_shape r co (rev g) ->
  valid_pos (Z.of_nat r) (Z.of_nat co) (pos g) ->
  exists (v : bool) (k : cell) (rev' : list (list bool)),
    grid_shape r co rev'
    /\ dig t1 t2 g
       = Some (if v then g
               else match k with
                    | Treasure =>
                        set_sc (sc g + 50)
                          (set_fnd (fnd g + 1) (set_rev rev' g))
                    | Bomb =>
                        if shake_event_available g then
                          set_shake_event_available false
                            (set_last_tick_time t2
                            (set_shake_start_time t1
                            (set_bomb_disarm_active true (set_rev rev' g))))
                        else set_hp (hp g - 1) (set_rev rev' g)
                    | Empty => set_rev rev' g
                    end).
Proof.
  intros Hgrd Hrev Hpos.
  destruct (cursor_lookups r co g Hgrd Hrev Hpos)
    as (row & v & grow & k & Hrow & Hv & Hlr & Hgrow & Hk
        & Pg1 & Pg2 & Pg3 & Pg4 & Ps1 & Ps2).
  exists v, k, (<[Z.to_nat (pos g).1 := <[Z.to_nat (pos g).2 := true]> row]>
                 (rev g)).
  split.
  { destruct Hrev as [Hl Hr]. split; [by rewrite length_insert|].
    apply Forall_insert; [done|]. by rewrite length_insert. }
  unfold dig. destruct (pos g) as [pr pc] eqn:Ep. simpl in *.
  rewrite Pg1. simpl. rewrite Pg2. simpl. destruct v; [done|].
  rewrite Ps1. simpl. rewrite Ps2. simpl. rewrite Pg3. simpl.
  rewrite Pg4. simpl.
  destruct k; [done|done|]. by destruct (shake_event_available g).
Qed.

Lemma cbtn_cases t e b g :
  cbtn t e b g = (false, g)
  \/ cbtn t e b g = (false, set_bl b (set_ebl e g))
  \/ cbtn t e b g = (true, set_lbt t (set_bl b (set_ebl e g))).
Proof.
  unfold cbtn. destruct (Qltb _ _); [by left|].
  destruct ((ebl g && negb e) || (bl g && negb b)); auto.
Qed.

Lemma remaining_nonneg limit t0 t : 0 <= remaining limit t0 t.
Proof. unfold remaining. lia. Qed.

Lemma level_ready_core g g' :
  df g' = df g -> lv g' = lv g -> grd g' = grd g -> pos g' = pos g ->
  (forall r co, grid_shape r co (rev g) -> grid_shape r co (rev g')) ->
  level_ready g -> level_ready g'.
Proof.
  intros E1 E2 E3 E5 Hrev (Hc & r & co & tr & bm & nd & Hl & Hg & Hr & Hp).
  split; [by rewrite E1|]. exists r, co, tr, bm, nd.
  rewrite E2, E3, E5. auto.
Qed.

Lemma check_clear_cases rm l g r co tr bm nd :
  lvl (lv g) = Some (r, co, tr, bm, nd) ->
  check_clear rm l g
  = Some (if nd <=? fnd g
          then (if 9 <? lv g + 1
                then set_st LV10
                       (set_lv (lv g + 1) (set_sc (sc g + (100 + rm * 2)) g))
                else set_lv (lv g + 1) (set_sc (sc g + (100 + rm * 2)) g),
                l, Break)
          else (g, l, Continue)).
Proof.
  intros Hl. unfold check_clear. rewrite Hl. simpl.
  destruct (nd <=? fnd g); [|done]. by destruct (9 <? lv g + 1).
Qed.

Ltac ready_from g0 :=
  first
    [ solve [apply (level_ready_core g0); simpl; auto]
    | solve [unfold level_ready; simpl;
             split; [by eexists|];
             do 5 eexists;
             (split; [eassumption|]); (split; [eassumption|]);
             (split; [eassumption|]); eauto] ].

Ltac facts_done g0 :=
  unfold play_step_facts; simpl;
  repeat match goal with
         | |- _ /\ _ => split
         | |- _ -> _ => intro
         end;
  simpl in *; try done; try lia; try (ready_from g0); auto.

Lemma play_step_cases i l g :
  level_ready g ->
  exists g' l' f,
    play_step i l g = Some (g', l', f) /\ play_step_facts i g g' f.
Proof.
  intros Hready.
  pose proof Hready as ([c Hc] & r & co & tr & bm & nd & Hl & Hg & Hr & Hp).
  destruct (lvl_entry _ _ _ _ _ _ Hl) as (Hlv & Hr2 & Hco2 & Hfit & Hnd).
  unfold play_step.
  destruct (bomb_disarm_active g) eqn:Hdis.
  - unfold disarm_step.
    destruct (Qltb (5 # 10) (i_now i - last_tick_time g)); simpl;
      (destruct (Qgeb _ _); simpl;
       [destruct (Z.leb_spec (hp g - 1) 0)
       |destruct (check_shake _ _)]);
      eexists; eexists; eexists; (split; [reflexivity|]); facts_done g.
  - set (rm := remaining (tlm g) (stm g) (i_now i)).
    pose proof (remaining_nonneg (tlm g) (stm g) (i_now i)) as Hrm.
    fold rm in Hrm.
    destruct (Z.leb_spec rm 0) as [Hto|Hleft].
    + simpl. destruct (Z.leb_spec (hp g - 1) 0).
      * eexists; eexists; eexists; (split; [reflexivity|]); facts_done g.
      * destruct (ilvl_facts (i_rnd i) (i_lvl_now i) (set_hp (hp g - 1) g) c)
          as (g2 & r2 & co2 & tr2 & bm2 & nd2 & E & _ & Hready2 & _ & _ & _
              & _ & _ & _ & Hd2 & Hs2 & _ & Hdf2 & Hlv2 & Hsc2 & Hst2
              & Hhp2 & _);
          [done..|].
        rewrite E. simpl in *.
        assert (Hrm0 : rm = 0) by lia.
        eexists; eexists; eexists; (split; [reflexivity|]); facts_done g.
        -- congruence.
        -- right. rewrite Hs2 in *.
           match goal with
           | H : bool_decide _ = true |- _ => apply bool_decide_eq_true in H
           end. done.
        -- right. split; [done|]. split; [done|]. by exists c.
    + simpl.
      destruct (renc_frame (i_enc_a i) (i_enc_b i) (i_enc_now i) g)
        as (d & e' & Hrenc).
      rewrite Hrenc.
      assert (Hmv : forall d0,
                valid_pos (Z.of_nat r) (Z.of_nat co)
                  (move_pos (Z.of_nat r) (Z.of_nat co) d0 (pos g))).
      { intros d0. apply move_pos_valid; [lia..|done]. }
      destruct (negb (d =? 0) && Qltb (8 # 100) (i_now i - le _));
        [rewrite (move_on_grid d (set_enc e' g) r co) by (done || lia)|];
        simpl;
        (match goal with
         | |- context [cbtn ?t ?e ?b ?G] =>
             destruct (cbtn_cases t e b G) as [Hcb|[Hcb|Hcb]]; rewrite Hcb
         end);
        try (match goal with
             | |- context [dig ?a ?b ?G] =>
                 destruct (dig_explicit a b G r co)
                   as (v & k & rev' & Hrev' & Hdig);
                 [simpl; done..|rewrite Hdig]
             end);
        simpl.
      all: try destruct v; try destruct k;
        try destruct (shake_event_available g) eqn:Hsea; simpl.
      all: try match goal with
               | |- context [?a <=? 0] => destruct (Z.leb_spec a 0)
               end.
      all: try (rewrite (check_clear_cases rm _ _ r co tr bm nd)
                  by (simpl; exact Hl); simpl).
      all: try match goal with
               | |- context [?n <=? ?x] => destruct (Z.leb_spec n x)
               end.
      all: try match goal with
               | |- context [9 <? ?x] => destruct (Z.ltb_spec 9 x)
               end.
      all: eexists; eexists; eexists; (split; [reflexivity|]).
      all: facts_done g.
      all: try solve [right; split; [lia|];
                      first [left; split; [lia|done]
                            |right; split; [lia|done]]].
Qed.

(** Closes [level_ready] on a concrete session by evaluation. *)
Ltac ready_by_computation r co tr bm nd :=
  split; [by eexists|];
  exists r, co, tr, bm, nd;
  split; [reflexivity|];
  split; [split; [reflexivity|repeat constructor]|];
  split; [split; [reflexivity|repeat constructor]|];
  unfold valid_pos; simpl; lia.

(** X11: the ways out of PLAY: after an iteration of the loop of [play]
    on a ready session in state PLAY the state is PLAY, LV10 or OVER (never
    MENU or WIN); it is OVER only with the health at 0 or below; it is LV10
    only when the loop is left after level 9 was cleared; the level number
    changes only when the loop is left in state PLAY or LV10, and then by
    one; and when the loop is left in state PLAY the next call of [play]
    finds a level of the table and initialises it without error. *)
Theorem play_exit_discipline
  (i : play_in) (l l' : play_loc) (g g' : Game) (f : flow)
  (rnd : list nat) (t_stm t_ld : Q) :
  level_ready g -> st g = PLAY ->
  play_step i l g = Some (g', l', f) ->
  (st g' = PLAY \/ st g' = LV10 \/ st g' = OVER)
  /\ (st g' = OVER -> hp g' <= 0 /\ lv g' = lv g)
  /\ (st g' = LV10 -> f = Break /\ lv g = 9 /\ lv g' = 10)
  /\ (f = Continue -> lv g' = lv g)
  /\ (f = Break -> st g' = PLAY ->
      lv g' = lv g + 1
      /\ exists g2 l2,
           play_enter rnd t_stm t_ld g' = Some (g2, l2) /\ level_ready g2).
Proof.
  intros Hready Hst Hstep.
  destruct (play_step_cases i l g Hready)
    as (g1 & l1 & f1 & Hstep1 & Hdf & _ & Hcont & Hbrk & _).
  rewrite Hstep in Hstep1. injection Hstep1 as <- <- <-.
  destruct Hready as ([c Hc] & r & co & tr & bm & nd & Hl & _).
  destruct (lvl_entry _ _ _ _ _ _ Hl) as (Hlv & _).
  destruct f.
  - destruct (Hcont eq_refl) as (Elv & _ & [Est|[Est Hhp]]).
    + rewrite Est, Hst. repeat split; try done; auto.
    + rewrite Est. repeat split; try done; auto.
  - destruct (Hbrk eq_refl)
      as [(Est & Hhp & Elv)|(Elv & [[Hle Est]|[Hten Est]])].
    + rewrite Est. repeat split; try done; auto.
    + rewrite Est, Hst. repeat split; try done; auto.
      destruct (ilvl_facts rnd t_stm g' c)
        as (g2 & r2 & co2 & tr2 & bm2 & nd2 & E & _ & Hready2 & _);
        [by rewrite Hdf|lia|].
      exists g2, (PlayLoc t_ld 0 (-1)). split; [|done].
      unfold play_enter. by rewrite E.
    + rewrite Est. repeat split; try done; auto; lia.
Qed.

Lemma play_exit_discipline_witness :
  match play_step (PlayIn 20 None true true 20000 20 false true 20 20 [] 20)
                  (PlayLoc 0 0 (-1)) (set_pos (0, 0) sample_play) with
  | Some (g', l', f) =>
      f = Break /\ st g' = PLAY /\ lv g' = 2
      /\ exists g2 l2,
           play_enter [5; 1; 2; 0; 1]%nat 22 22 g' = Some (g2, l2)
           /\ level_ready g2
  | None => False
  end.
Proof.
  destruct (play_step (PlayIn 20 None true true 20000 20 false true 20 20
                              [] 20)
                      (PlayLoc 0 0 (-1)) (set_pos (0, 0) sample_play))
    as [[[g' l'] f]|] eqn:E.
  - pose proof E as E0.
    vm_compute in E0. injection E0 as Eg El Ef.
    assert (Hf : f = Break) by done.
    assert (Hs : st g' = PLAY) by (by rewrite <- Eg).
    destruct (play_exit_discipline
                (PlayIn 20 None true true 20000 20 false true 20 20 [] 20)
                (PlayLoc 0 0 (-1)) l' (set_pos (0, 0) sample_play) g' f
                [5; 1; 2; 0; 1]%nat 22 22)
      as (_ & _ & _ & _ & H5).
    + ready_by_computation 2%nat 2%nat 2%nat 1%nat 1.
    + reflexivity.
    + exact E.
    + destruct (H5 Hf Hs) as [Hlv Hnext].
      split; [exact Hf|]. split; [exact Hs|]. split; [exact Hlv|exact Hnext].
  - vm_compute in E. discriminate E.
Defined.

Lemma lv10_step_score j lj gj :
  sc gj <= sc (fst (fst (lv10_step j lj gj))).
Proof.
  unfold lv10_step.
  destruct (remaining _ _ _ =? 0); [simpl; lia|].
  destruct (renc_frame (j_enc_a j) (j_enc_b j) (j_enc_now j) gj)
    as (d & e' & ->).
  destruct (negb (d =? 0) && Qltb (15 # 100) (j_now j - le10 lj));
    (match goal with
     | |- context [cbtn ?t ?e ?b ?G] =>
         destruct (cbtn_cases t e b G) as [Hcb|[Hcb|Hcb]]; rewrite Hcb
     end);
    simpl; try lia.
  all: destruct (_ =? _); simpl; try lia.
  all: destruct (_ <=? 0); simpl; lia.
Qed.

(** X12: the score never goes down: an iteration of the loop of [play]
    on a ready session, and an iteration of the loop of [lv10] on any
    session, leave the score at least as high as it was. *)
Theorem score_never_decreases
  (i : play_in) (l l' : play_loc) (g g' : Game) (f : flow)
  (j : lv10_in) (lj : lv10_loc) (gj : Game) :
  level_ready g ->
  play_step i l g = Some (g', l', f) ->
  sc g <= sc g' /\ sc gj <= sc (fst (fst (lv10_step j lj gj))).
Proof.
  intros Hready Hstep. split; [|apply lv10_step_score].
  destruct (play_step_cases i l g Hready)
    as (g1 & l1 & f1 & Hstep1 & _ & Hsc & _).
  rewrite Hstep in Hstep1. by injection Hstep1 as <- <- <-.
Qed.

Lemma score_never_decreases_witness :
  match play_step (PlayIn 20 None true true 20000 20 false true 20 20 [] 20)
                  (PlayLoc 0 0 (-1)) (set_pos (0, 0) sample_play) with
  | Some (g', _, _) => 0 <= sc g'
  | None => False
  end.
Proof.
  destruct (play_step (PlayIn 20 None true true 20000 20 false true 20 20
                              [] 20)
                      (PlayLoc 0 0 (-1)) (set_pos (0, 0) sample_play))
    as [[[g' l'] f]|] eqn:E.
  - destruct (score_never_decreases
                (PlayIn 20 None true true 20000 20 false true 20 20 [] 20)
                (PlayLoc 0 0 (-1)) l' (set_pos (0, 0) sample_play) g' f
                (Lv10In 105 true true 105000 105 false true 108 1)
                (Lv10Loc 30 false 0 4 1) sample_final) as [H _].
    + ready_by_computation 2%nat 2%nat 2%nat 1%nat 1.
    + exact E.
    + exact H.
  - vm_compute in E. discriminate E.
Defined.

(** X13: at most one disarm per level: an iteration of the loop of
    [play] on a ready session starts a disarm sequence only by using up
    the disarm opportunity, and grants the opportunity anew only when it
    regenerates the level after a time-out on the easiest difficulty. *)
Theorem disarm_once_per_level
  (i : play_in) (l l' : play_loc) (g g' : Game) (f : flow) :
  level_ready g ->
  play_step i l g = Some (g', l', f) ->
  (bomb_disarm_active g' = true ->
   bomb_disarm_active g = true
   \/ (shake_event_available g = true /\ shake_event_available g' = false))
  /\ (shake_event_available g' = true ->
      shake_event_available g = true
      \/ (bomb_disarm_active g = false
          /\ remaining (tlm g) (stm g) (i_now i) = 0 /\ df g = 0)).
Proof.
  intros Hready Hstep.
  destruct (play_step_cases i l g Hready)
    as (g1 & l1 & f1 & Hstep1 & _ & _ & _ & _ & H1 & H2 & _).
  rewrite Hstep in Hstep1. by injection Hstep1 as <- <- <-.
Qed.

(** A press on a hidden bomb with the disarm opportunity at hand: the
    disarm starts and the opportunity is used up. *)
Lemma disarm_once_per_level_witness :
  match play_step (PlayIn 20 None true true 20000 20 false true 20 20 [] 20)
                  (PlayLoc 0 0 (-1)) sample_on_bomb with
  | Some (g', _, _) =>
      bomb_disarm_active g' = true /\ shake_event_available g' = false
  | None => False
  end.
Proof.
  destruct (play_step (PlayIn 20 None true true 20000 20 false true 20 20
                              [] 20)
                      (PlayLoc 0 0 (-1)) sample_on_bomb)
    as [[[g' l'] f]|] eqn:E.
  - destruct (disarm_once_per_level
                (PlayIn 20 None true true 20000 20 false true 20 20 [] 20)
                (PlayLoc 0 0 (-1)) l' sample_on_bomb g' f) as [H _].
    + ready_by_computation 2%nat 2%nat 2%nat 1%nat 1.
    + exact E.
    + assert (Ha : bomb_disarm_active g' = true).
      { vm_compute in E. by injection E as <- _ _. }
      split; [exact Ha|].
      destruct (H Ha) as [Hb|[_ Hc]]; [discriminate Hb|exact Hc].
  - vm_compute in E. discriminate E.
Defined.

(** X14: within a level the health only goes down: an iteration of the
    loop of [play] on a ready session leaves the health at most what it
    was, unless it regenerates the level after a time-out, which sets the
    health to the starting health of the difficulty. *)
Theorem health_only_drops_within_level
  (i : play_in) (l l' : play_loc) (g g' : Game) (f : flow) :
  level_ready g ->
  play_step i l g = Some (g', l', f) ->
  hp g' <= hp g
  \/ (bomb_disarm_active g = false
      /\ remaining (tlm g) (stm g) (i_now i) = 0
      /\ exists c, cfg (df g) = Some c /\ hp g' = c_hp c).
Proof.
  intros Hready Hstep.
  destruct (play_step_cases i l g Hready)
    as (g1 & l1 & f1 & Hstep1 & _ & _ & _ & _ & _ & _ & H).
  rewrite Hstep in Hstep1. by injection Hstep1 as <- <- <-.
Qed.

Lemma health_only_drops_within_level_witness :
  match play_step (PlayIn 20 None true true 20000 20 false true 20 20 [] 20)
                  (PlayLoc 0 0 (-1)) sample_play with
  | Some (g', _, _) => hp g' <= 5
  | None => False
  end.
Proof.
  destruct (play_step (PlayIn 20 None true true 20000 20 false true 20 20
                              [] 20)
                      (PlayLoc 0 0 (-1)) sample_play)
    as [[[g' l'] f]|] eqn:E.
  - destruct (health_only_drops_within_level
                (PlayIn 20 None true true 20000 20 false true 20 20 [] 20)
                (PlayLoc 0 0 (-1)) l' sample_play g' f)
      as [H|(_ & Hrm & _)].
    + ready_by_computation 2%nat 2%nat 2%nat 1%nat 1.
    + exact E.
    + exact H.
    + vm_compute in Hrm. discriminate Hrm.
  - vm_compute in E. discriminate E.
Defined.



(** X16: a new game starts clean: whatever session the previous game
    left behind, [start] followed by the entry of [play] succeeds for each
    of the three difficulties and gives state PLAY, level 1, score 0, the
    health and time limit of the difficulty, no find, nothing revealed,
    the cursor on (0, 0), no disarm active, and a 2 by 2 grid with two
    treasures and one bomb. *)
Theorem new_game_starts_clean
  (g : Game) (c : difficulty) (rnd : list nat) (t_stm t_ld : Q) :
  cfg (df g) = Some c ->
  exists g1 g2 l2,
    start g = Some g1
    /\ play_enter rnd t_stm t_ld g1 = Some (g2, l2)
    /\ st g2 = PLAY /\ lv g2 = 1 /\ sc g2 = 0
    /\ hp g2 = c_hp c /\ tlm g2 = c_t c
    /\ fnd g2 = 0 /\ pos g2 = (0, 0)
    /\ rev g2 = replicate 2 (replicate 2 false)
    /\ bomb_disarm_active g2 = false
    /\ level_ready g2
    /\ count_cells Treasure (grd g2) = 2%nat
    /\ count_cells Bomb (grd g2) = 1%nat.
Proof.
  intros Hc.
  set (g1 := set_st PLAY (set_sc 0 (set_lv 1
               (set_tlm (c_t c) (set_hp (c_hp c) g))))).
  destruct (ilvl_facts rnd t_stm g1 c)
    as (g2 & r & co & tr & bm & nd & E & Hl & Hready & Hrev & HT & HB & _
        & Hfnd & Hpos & Hd & _ & _ & _ & Hlv & Hsc & Hst & Hhp & Htl).
  { done. }
  { simpl. lia. }
  simpl in Hl. injection Hl as <- <- <- <- <-.
  exists g1, g2, (PlayLoc t_ld 0 (-1)).
  split; [unfold start; by rewrite Hc|].
  split; [unfold play_enter; by rewrite E|].
  repeat (split; [done|]). done.
Qed.

Lemma new_game_starts_clean_witness :
  exists g1 g2 l2,
    start (set_df 2 sample_final) = Some g1
    /\ play_enter [1; 2; 3]%nat 200 200 g1 = Some (g2, l2)
    /\ st g2 = PLAY /\ lv g2 = 1 /\ sc g2 = 0 /\ hp g2 = 2.
Proof.
  destruct (new_game_starts_clean (set_df 2 sample_final)
              (Difficulty 2 15 1 15) [1; 2; 3]%nat 200 200)
    as (g1 & g2 & l2 & H1 & H2 & H3 & H4 & H5 & H6 & _).
  - reflexivity.
  - exists g1, g2, l2. repeat (split; [assumption|]). exact H6.
Defined.

(** ** The menu, the LED and the shake sensor *)

Lemma renc_sign a b t g :
  fst (renc a b t g) = 1 \/ fst (renc a b t g) = -1
  \/ fst (renc a b t g) = 0.
Proof.
  unfold renc. simpl.
  destruct (0 <? _); [by left|]. destruct (_ <? 0); auto.
Qed.

(** X17: the menu keeps the difficulty a key of the table: on a session
    whose difficulty is 0, 1 or 2, an iteration of the loop of [menu]
    never raises; the difficulty stays, or moves by one step modulo 3, and
    is again 0, 1 or 2; without a press the state is kept; with a press
    [start] succeeds and the game is in PLAY at level 1 with score 0 and
    the health and time limit of the chosen difficulty. *)
Theorem menu_step_keeps_difficulty_valid
  (i : menu_in) (l : menu_loc) (g : Game) :
  0 <= df g <= 2 ->
  exists g' l' f,
    menu_step i l g = Some (g', l', f)
    /\ 0 <= df g' <= 2
    /\ (df g' = df g \/ df g' = (df g + 1) `mod` 3
        \/ df g' = (df g - 1) `mod` 3)
    /\ (f = Continue -> st g' = st g /\ sc g' = sc g /\ lv g' = lv g)
    /\ (f = Break ->
        exists c, cfg (df g') = Some c
                  /\ st g' = PLAY /\ lv g' = 1 /\ sc g' = 0
                  /\ hp g' = c_hp c /\ tlm g' = c_t c).
Proof.
  intros Hdf. unfold menu_step.
  pose proof (renc_sign (k_enc_a i) (k_enc_b i) (k_enc_now i) g) as Hsign.
  destruct (renc_frame (k_enc_a i) (k_enc_b i) (k_enc_now i) g)
    as (d & e' & Hrenc).
  rewrite Hrenc in *. simpl in Hsign.
  assert (Hmod : 0 <= (df g + d) `mod` 3 <= 2).
  { pose proof (Z.mod_pos_bound (df g + d) 3). lia. }
  assert (Hcol : forall k, 0 <= k <= 2 -> is_Some (py_get menu_col k)).
  { intros k Hk. assert (Hk' : k = 0 \/ k = 1 \/ k = 2) by lia.
    destruct Hk' as [->|[->| ->]]; by eexists. }
  assert (Hstep : d = 0 \/ (df g + d) `mod` 3 = (df g + 1) `mod` 3
                  \/ (df g + d) `mod` 3 = (df g - 1) `mod` 3).
  { destruct Hsign as [->|[->| ->]]; auto. }
  destruct (negb (d =? 0) && Qltb (15 # 100) (k_now i - m_le l)); simpl.
  - destruct (Hcol _ Hmod) as [col ->]. simpl.
    match goal with
    | |- context [cbtn ?t ?e ?b ?G] =>
        destruct (cbtn_cases t e b G) as [Hcb|[Hcb|Hcb]]; rewrite Hcb
    end.
    + eexists; eexists; eexists. split; [reflexivity|]. simpl.
      split; [done|]. split; [|split; [done|intros [=]]].
      destruct Hstep as [->|[?|?]]; auto. left.
      rewrite Z.add_0_r. apply Z.mod_small. lia.
    + eexists; eexists; eexists. split; [reflexivity|]. simpl.
      split; [done|]. split; [|split; [done|intros [=]]].
      destruct Hstep as [->|[?|?]]; auto. left.
      rewrite Z.add_0_r. apply Z.mod_small. lia.
    + unfold start. simpl.
      destruct (cfg_defined _ Hmod) as [c Hc]. rewrite Hc. simpl.
      eexists; eexists; eexists. split; [reflexivity|]. simpl.
      split; [done|]. split; [|split; [intros [=]|intros _; by exists c]].
      destruct Hstep as [->|[?|?]]; auto. left.
      rewrite Z.add_0_r. apply Z.mod_small. lia.
  - assert (Hl2 : exists l2,
              (if m_rd l
               then _ ← py_get menu_col (df g); Some (MenuLoc false (m_le l))
               else Some l) = Some l2).
    { destruct (m_rd l); [|by eexists].
      destruct (Hcol _ Hdf) as [col ->]. by eexists. }
    destruct Hl2 as [l2 ->]. simpl.
    match goal with
    | |- context [cbtn ?t ?e ?b ?G] =>
        destruct (cbtn_cases t e b G) as [Hcb|[Hcb|Hcb]]; rewrite Hcb
    end.
    + eexists; eexists; eexists. split; [reflexivity|]. simpl.
      split; [done|]. split; [by left|]. split; [done|intros [=]].
    + eexists; eexists; eexists. split; [reflexivity|]. simpl.
      split; [done|]. split; [by left|]. split; [done|intros [=]].
    + unfold start. simpl.
      destruct (cfg_defined _ Hdf) as [c Hc]. rewrite Hc. simpl.
      eexists; eexists; eexists. split; [reflexivity|]. simpl.
      split; [done|]. split; [by left|].
      split; [intros [=]|intros _; by exists c].
Qed.

Lemma menu_step_keeps_difficulty_valid_witness :
  exists g' l',
    menu_step (MenuIn 3 true true 3000 3 false true) (MenuLoc true 0)
              (game_init (RotaryEncoder.init true true 0 1 2))
    = Some (g', l', Break)
    /\ st g' = PLAY /\ hp g' = 6.
Proof.
  destruct (menu_step_keeps_difficulty_valid
              (MenuIn 3 true true 3000 3 false true) (MenuLoc true 0)
              (game_init (RotaryEncoder.init true true 0 1 2)))
    as (g' & l' & f & H1 & _).
  - simpl. lia.
  - vm_compute in H1. injection H1 as <- <- <-.
    eexists. eexists. split; [vm_compute; reflexivity|]. by split.
Defined.

(** X18: the health LED: for each difficulty [uled] succeeds; the LED is
    off exactly when the health is 0 or below, green exactly when the
    health is at least the starting health of the difficulty, and red only
    on a difficulty that starts with four or more health points (so never
    on the hardest, where one health point left still shows yellow). *)
Theorem uled_colour_meaning (g : Game) (c : difficulty) :
  cfg (df g) = Some c ->
  exists col,
    uled g = Some col
    /\ (col = (0, 0, 0) <-> hp g <= 0)
    /\ (col = (0, 255, 0) <-> c_hp c <= hp g)
    /\ (col = (255, 0, 0) -> 4 <= c_hp c /\ 1 <= hp g < c_hp c `div` 2).
Proof.
  intros Hc. destruct (cfg_entry _ _ Hc) as (_ & Hhp & _).
  assert (Hhalf : 1 <= c_hp c `div` 2 /\ c_hp c `div` 2 < c_hp c).
  { split; [apply Z.div_le_lower_bound; lia|].
    apply Z.div_lt_upper_bound; lia. }
  assert (Hfour : 2 <= c_hp c `div` 2 -> 4 <= c_hp c).
  { intros H. pose proof (Z.mul_div_le (c_hp c) 2). lia. }
  unfold uled. rewrite Hc. simpl. eexists. split; [reflexivity|].
  destruct (Z.leb_spec (c_hp c) (hp g)); [|
    destruct (Z.leb_spec (c_hp c `div` 2) (hp g)); [|
      destruct (Z.leb_spec 1 (hp g))]].
  - repeat split; intros; (done || lia).
  - repeat split; intros; (done || lia).
  - repeat split; intros; (done || lia).
  - repeat split; intros; (done || lia).
Qed.

Lemma uled_colour_meaning_witness :
  uled sample_play = Some (255, 255, 0).
Proof.
  destruct (uled_colour_meaning sample_play (Difficulty 6 60 2 30))
    as (col & H1 & _); [reflexivity|].
  rewrite H1. vm_compute in H1. by injection H1 as <-.
Defined.

(** X19: gravity alone is no shake: with a shake threshold of 0 or more,
    a sample whose magnitude is at most the 9.8 of gravity (a device at
    rest or in free fall, in any orientation) is not a shake, and neither
    is a failed sensor read. *)
Theorem rest_is_no_shake (g : Game) (x y z : Q) :
  (0 <= shake_threshold g)%Q ->
  (x * x + y * y + z * z <= (98 # 10) * (98 # 10))%Q ->
  check_shake (Some (x, y, z)) g = false /\ check_shake None g = false.
Proof.
  intros Hth Hmag. split; [|done].
  unfold check_shake, magnitude_gt.
  apply orb_false_iff. split; apply Qltb_ge.
  - assert ((98 # 10 == 98 # 10)%Q) by reflexivity.
    assert (0 < 98 # 10)%Q by reflexivity. lra.
  - assert (0 < 98 # 10)%Q by reflexivity. nra.
Qed.

Lemma rest_is_no_shake_witness :
  check_shake (Some (0%Q, 0%Q, (98 # 10)%Q)) sample_disarm = false.
Proof.
  apply (rest_is_no_shake sample_disarm 0 0 (98 # 10)).
  - vm_compute. discriminate.
  - vm_compute. discriminate.
Defined.

(** ** The final level, in full *)

Lemma randint0_one n : Z.of_nat (randint0 1 n) = 0 \/ Z.of_nat (randint0 1 n) = 1.
Proof.
  unfold randint0. pose proof (Nat.mod_upper_bound n 2). lia.
Qed.

(** X20: the final level keeps to its two chests and three outcomes: an
    iteration of the loop of [lv10] in state LV10 with choice and correct
    answer among 0 and 1 either goes on in LV10 or leaves the loop in WIN
    or OVER; choice and correct answer stay among 0 and 1; the final-level
    health never grows and the time limit is kept; health, level and grid
    of the levels played are untouched; and with no time remaining the
    outcome is OVER whatever the inputs are, with score and final-level
    health as they were. *)
Theorem lv10_step_discipline (j : lv10_in) (l : lv10_loc) (g : Game) :
  st g = LV10 ->
  (fch g = 0 \/ fch g = 1) -> (cor l = 0 \/ cor l = 1) ->
  exists g' l' f,
    lv10_step j l g = (g', l', f)
    /\ ((st g' = LV10 /\ f = Continue) \/ (st g' = WIN /\ f = Break)
        \/ (st g' = OVER /\ f = Break))
    /\ (fch g' = 0 \/ fch g' = 1) /\ (cor l' = 0 \/ cor l' = 1)
    /\ fhp g' <= fhp g /\ tl l' = tl l
    /\ hp g' = hp g /\ lv g' = lv g /\ grd g' = grd g
    /\ (remaining (tl l) (stm g) (j_now j) = 0 ->
        st g' = OVER /\ f = Break /\ sc g' = sc g /\ fhp g' = fhp g).
Proof.
  intros Hst Hfch Hcor. unfold lv10_step.
  pose proof (randint0_one (j_retry_rnd j)) as Hrnd.
  destruct (Z.eqb_spec (remaining (tl l) (stm g) (j_now j)) 0) as [Hz|Hnz].
  { eexists; eexists; eexists. split; [reflexivity|]. simpl.
    repeat split; auto; lia. }
  destruct (renc_frame (j_enc_a j) (j_enc_b j) (j_enc_now j) g)
    as (d & e' & ->).
  destruct (negb (d =? 0) && Qltb (15 # 100) (j_now j - le10 l));
    [|destruct (rd l || negb (py_int (j_now j - stm g) =? ls l))];
    (match goal with
     | |- context [cbtn ?t ?e ?b ?G] =>
         destruct (cbtn_cases t e b G) as [Hcb|[Hcb|Hcb]]; rewrite Hcb
     end);
    simpl;
    try (match goal with
         | |- context [Z.eqb ?a ?b] => destruct (Z.eqb_spec a b)
         end);
    try (match goal with
         | |- context [?a <=? 0] => destruct (Z.leb_spec a 0)
         end);
    eexists; eexists; eexists; (split; [reflexivity|]); simpl;
    repeat match goal with |- _ /\ _ => split end;
    try done; try lia; auto.
Qed.

Lemma lv10_step_discipline_witness :
  exists g' l' f,
    lv10_step (Lv10In 131 true true 131000 131 false true 131 1)
              (Lv10Loc 30 false 0 4 1) sample_final
    = (g', l', f)
    /\ st g' = OVER /\ f = Break /\ sc g' = 1200.
Proof.
  destruct (lv10_step_discipline
              (Lv10In 131 true true 131000 131 false true 131 1)
              (Lv10Loc 30 false 0 4 1) sample_final)
    as (g' & l' & f & H1 & _ & _ & _ & _ & _ & _ & _ & _ & H10).
  - reflexivity.
  - by left.
  - by right.
  - destruct H10 as (Ha & Hb & Hc & _); [reflexivity|].
    exists g', l', f. split; [exact H1|]. split; [exact Ha|].
    split; [exact Hb|exact Hc].
Defined.

(** ** The shuffle on any list *)

(** X21: [shuf] on any list, with any stream of draws, never raises and
    returns a permutation of the list, of the same length; an empty list
    and a one-element list come back unchanged. *)
Theorem shuf_is_permutation {A : Type} (rnd : list nat) (l : list A) (x : A) :
  (exists l', shuf rnd l = Some l' /\ l' ≡ₚ l /\ length l' = length l)
  /\ shuf rnd (@nil A) = Some [] /\ shuf rnd [x] = Some [x].
Proof.
  split; [|done].
  destruct (shuf_spec rnd l) as (l' & Hs & Hp & _).
  exists l'. split; [done|]. split; [done|]. by rewrite Hp.
Qed.

(** * The display buffer *)

Section Display.
Import SSD1306.

Lemma testbit_one_shift k n :
  0 <= k -> 0 <= n -> Z.testbit (Z.shiftl 1 k) n = (n =? k).
Proof.
  intros Hk Hn. rewrite Z.shiftl_1_l, Z.pow2_bits_eqb by done.
  apply Z.eqb_sym.
Qed.

Lemma byte_shiftr v : 0 <= v < 256 <-> 0 <= v /\ Z.shiftr v 8 = 0.
Proof.
  rewrite Z.shiftr_div_pow2 by lia. change (2 ^ 8) with 256.
  split.
  - intros H. split; [lia|]. apply Z.div_small. lia.
  - intros [H0 H]. split; [done|].
    apply Z.div_small_iff in H; lia.
Qed.

Lemma bit_mask_byte k : 0 <= k < 8 -> Z.shiftr (Z.shiftl 1 k) 8 = 0.
Proof.
  intros H.
  assert (Hk : k = 0 \/ k = 1 \/ k = 2 \/ k = 3 \/ k = 4 \/ k = 5 \/ k = 6
               \/ k = 7) by lia.
  destruct Hk as [->|[->|[->|[->|[->|[->|[->| ->]]]]]]]; reflexivity.
Qed.

Lemma set_bit_byte old k :
  0 <= old < 256 -> 0 <= k < 8 -> 0 <= Z.lor old (Z.shiftl 1 k) < 256.
Proof.
  intros Ho Hk. apply byte_shiftr. apply byte_shiftr in Ho as [Ho1 Ho2].
  split.
  - apply Z.lor_nonneg. split; [done|]. apply Z.shiftl_nonneg. lia.
  - by rewrite Z.shiftr_lor, Ho2, bit_mask_byte.
Qed.

Lemma clear_bit_byte old k :
  0 <= old < 256 -> 0 <= k < 8 ->
  0 <= Z.land old (Z.lnot (Z.shiftl 1 k)) < 256.
Proof.
  intros Ho Hk. apply byte_shiftr. apply byte_shiftr in Ho as [Ho1 Ho2].
  split.
  - apply Z.land_nonneg. by left.
  - by rewrite Z.shiftr_land, Ho2.
Qed.

Lemma byte_index x y :
  on_screen x y -> 0 <= x + (y `div` 8) * 128 < 1024 /\ 0 <= y `mod` 8 < 8.
Proof.
  intros [Hx Hy].
  assert (0 <= y `div` 8 < 8).
  { split; [apply Z.div_pos; lia|apply Z.div_lt_upper_bound; lia]. }
  split; [lia|apply Z.mod_pos_bound; lia].
Qed.

Lemma same_pixel x y x' y' :
  on_screen x y -> on_screen x' y' ->
  x' + (y' `div` 8) * 128 = x + (y `div` 8) * 128 ->
  y' `mod` 8 = y `mod` 8 ->
  x' = x /\ y' = y.
Proof.
  intros [Hx Hy] [Hx' Hy'] Hi Hb.
  assert (0 <= y `div` 8 < 8).
  { split; [apply Z.div_pos; lia|apply Z.div_lt_upper_bound; lia]. }
  assert (0 <= y' `div` 8 < 8).
  { split; [apply Z.div_pos; lia|apply Z.div_lt_upper_bound; lia]. }
  assert (Hd : y' `div` 8 = y `div` 8) by lia.
  split; [lia|].
  rewrite (Z.div_mod y 8), (Z.div_mod y' 8) by lia. lia.
Qed.

Lemma store_ok buf i v :
  buf_ok buf -> 0 <= i < 1024 -> 0 <= v < 256 ->
  store buf i v = Some (<[Z.to_nat i := v]> buf)
  /\ buf_ok (<[Z.to_nat i := v]> buf).
Proof.
  intros [Hlen Hall] Hi Hv. unfold store, py_set.
  destruct (Z.leb_spec 0 v), (Z.ltb_spec v 256); try lia. simpl.
  rewrite py_index_nonneg by lia. split; [done|].
  split; [by rewrite length_insert|]. by apply Forall_insert.
Qed.

(** What [px] does to a well-formed buffer, pixel by pixel. *)
Lemma px_painted x y c buf :
  buf_ok buf ->
  exists buf',
    px x y c buf = Some buf'
    /\ painted (fun x' y' => (x' =? x) && (y' =? y)) c buf buf'
    /\ (on_screen x y \/ buf' = buf).
Proof.
  intros Hok. unfold px.
  destruct ((0 <=? x) && (x <? 128) && (0 <=? y) && (y <? 64)) eqn:Hin.
  - assert (Hon : on_screen x y) by (unfold on_screen; lia).
    destruct (byte_index x y Hon) as [Hi Hk].
    destruct Hok as [Hlen Hall].
    destruct (lookup_lt_is_Some_2 buf (Z.to_nat (x + y `div` 8 * 128)))
      as [old Hold]; [lia|].
    assert (Hbyte : 0 <= old < 256) by (eapply Forall_lookup_1 in Hall; eauto).
    rewrite py_get_nonneg by lia. rewrite Hold. simpl.
    set (v := if negb (c =? 0)
              then Z.lor old (Z.shiftl 1 (y `mod` 8))
              else Z.land old (Z.lnot (Z.shiftl 1 (y `mod` 8)))).
    assert (Hv : 0 <= v < 256).
    { unfold v. destruct (negb (c =? 0));
        [by apply set_bit_byte|by apply clear_bit_byte]. }
    destruct (store_ok buf (x + y `div` 8 * 128) v) as [Hst Hok'];
      [done..|].
    exists (<[Z.to_nat (x + y `div` 8 * 128) := v]> buf).
    split; [unfold v in *; by destruct (negb (c =? 0))|].
    split; [|by left]. split; [done|].
    intros x' y' Hon'. destruct (byte_index x' y' Hon') as [Hi' Hk'].
    unfold pixel.
    destruct (decide (x' + y' `div` 8 * 128 = x + y `div` 8 * 128))
      as [Ei|Ni].
    + rewrite Ei, list_lookup_insert_eq, Hold by lia.
      assert (Hx : x' = x).
      { destruct Hon as [? ?], Hon' as [? ?].
        assert (0 <= y `div` 8 < 8)
          by (split; [apply Z.div_pos; lia|apply Z.div_lt_upper_bound; lia]).
        assert (0 <= y' `div` 8 < 8)
          by (split; [apply Z.div_pos; lia|apply Z.div_lt_upper_bound; lia]).
        lia. }
      subst x'. rewrite Z.eqb_refl. simpl.
      assert (Hbit : Z.testbit v (y' `mod` 8)
                     = if y' `mod` 8 =? y `mod` 8 then lit c
                       else Z.testbit old (y' `mod` 8)).
      { unfold v, lit. destruct (negb (c =? 0)).
        - rewrite Z.lor_spec, testbit_one_shift by lia.
          destruct (y' `mod` 8 =? y `mod` 8); [apply orb_true_r|].
          apply orb_false_r.
        - rewrite Z.land_spec, Z.lnot_spec, testbit_one_shift by lia.
          destruct (y' `mod` 8 =? y `mod` 8); [apply andb_false_r|].
          apply andb_true_r. }
      rewrite Hbit.
      destruct (Z.eqb_spec (y' `mod` 8) (y `mod` 8)) as [Eb|Nb].
      * destruct (same_pixel x y x y' Hon Hon' Ei Eb) as [_ ->].
        by rewrite Z.eqb_refl.
      * destruct (Z.eqb_spec y' y) as [->|_]; [done|done].
    + rewrite list_lookup_insert_ne by lia.
      destruct (Z.eqb_spec x' x) as [->|_]; [|done].
      destruct (Z.eqb_spec y' y) as [->|_]; [done|done].
  - exists buf. split; [done|]. split; [|by right]. split; [done|].
    intros x' y' [Hx' Hy'].
    destruct (Z.eqb_spec x' x) as [->|_]; [|done].
    destruct (Z.eqb_spec y' y) as [->|_]; [|done].
    exfalso. lia.
Qed.

Lemma painted_none c buf :
  buf_ok buf -> painted (fun _ _ => false) c buf buf.
Proof. intros H. by split. Qed.

Lemma painted_then sel1 sel2 c b1 b2 b3 :
  painted sel1 c b1 b2 -> painted sel2 c b2 b3 ->
  painted (fun x y => sel2 x y || sel1 x y) c b1 b3.
Proof.
  intros [_ H1] [Hok H2]. split; [done|].
  intros x y Hon. rewrite (H2 x y Hon), (H1 x y Hon).
  by destruct (sel2 x y), (sel1 x y).
Qed.

Lemma painted_ext sel1 sel2 c b1 b2 :
  (forall x y, on_screen x y -> sel1 x y = sel2 x y) ->
  painted sel1 c b1 b2 -> painted sel2 c b1 b2.
Proof.
  intros Hext [Hok H]. split; [done|].
  intros x y Hon. by rewrite <- (Hext x y Hon), (H x y Hon).
Qed.

Lemma for_each_painted {A} (xs : list A) body (sel : A -> Z -> Z -> bool) c :
  (forall a buf, buf_ok buf ->
     exists buf', body a buf = Some buf' /\ painted (sel a) c buf buf') ->
  forall buf, buf_ok buf ->
    exists buf',
      for_each xs body buf = Some buf'
      /\ painted (fun x y => existsb (fun a => sel a x y) xs) c buf buf'.
Proof.
  intros Hbody. induction xs as [|a xs IH]; intros buf Hok.
  - exists buf. split; [done|]. by apply painted_none.
  - destruct (Hbody a buf Hok) as (b1 & E1 & P1).
    destruct (IH b1 (proj1 P1)) as (b2 & E2 & P2).
    exists b2. split; [simpl; by rewrite E1|].
    eapply painted_ext; [|exact (painted_then _ _ _ _ _ _ P1 P2)].
    intros x y _. simpl. apply orb_comm.
Qed.

Lemma existsb_range (f : Z -> bool) (n : Z) :
  existsb f (seqZ 0 n) = true <-> exists i, 0 <= i < n /\ f i = true.
Proof.
  rewrite existsb_exists. split.
  - intros (i & Hi & Hf). exists i. split; [|done].
    apply list_elem_of_In, elem_of_seqZ in Hi. lia.
  - intros (i & Hi & Hf). exists i. split; [|done].
    apply list_elem_of_In, elem_of_seqZ. lia.
Qed.

Lemma bool_eq_iff (a b : bool) : (a = true <-> b = true) -> a = b.
Proof. destruct a, b; intros [H1 H2]; auto; symmetry; auto. Qed.

Lemma hline_sel x y w x' y' :
  existsb (fun i => (x' =? x + i) && (y' =? y)) (seqZ 0 w)
  = in_box x y w 1 x' y'.
Proof.
  apply bool_eq_iff. rewrite existsb_range. unfold in_box. split.
  - intros (i & Hi & Hf). lia.
  - intros H. exists (x' - x). lia.
Qed.

Lemma hline_painted x y w c buf :
  buf_ok buf ->
  exists buf',
    hline x y w c buf = Some buf'
    /\ painted (in_box x y w 1) c buf buf'.
Proof.
  intros Hok.
  destruct (for_each_painted (seqZ 0 w) (fun i b => px (x + i) y c b)
              (fun i x' y' => (x' =? x + i) && (y' =? y)) c) with (buf := buf)
    as (buf' & E & P); [|done|].
  - intros i b Hb. destruct (px_painted (x + i) y c b Hb) as (b' & ? & ? & _).
    by exists b'.
  - exists buf'. split; [done|].
    eapply painted_ext; [|exact P]. intros. apply hline_sel.
Qed.

Lemma frect_painted x y w h c buf :
  buf_ok buf ->
  exists buf',
    frect x y w h c buf = Some buf'
    /\ painted (in_box x y w h) c buf buf'.
Proof.
  intros Hok.
  destruct (for_each_painted (seqZ 0 h)
              (fun j b => for_each (seqZ 0 w)
                            (fun i b' => px (x + i) (y + j) c b') b)
              (fun j x' y' => in_box x (y + j) w 1 x' y') c) with (buf := buf)
    as (buf' & E & P); [|done|].
  - intros j b Hb. exact (hline_painted x (y + j) w c b Hb).
  - exists buf'. split; [done|].
    eapply painted_ext; [|exact P]. intros x' y' _. simpl.
    apply bool_eq_iff. rewrite existsb_range. unfold in_box. split.
    + intros (j & Hj & Hf). lia.
    + intros H. exists (y' - y). lia.
Qed.

Lemma rect_painted x y w h c buf :
  buf_ok buf ->
  exists buf',
    rect x y w h c buf = Some buf'
    /\ painted (on_outline x y w h) c buf buf'.
Proof.
  intros Hok.
  assert (Htwo : forall x1 y1 x2 y2 b, buf_ok b ->
            exists b2,
              (b' ← px x1 y1 c b; px x2 y2 c b') = Some b2
              /\ painted (fun x' y' => ((x' =? x2) && (y' =? y2))
                                       || ((x' =? x1) && (y' =? y1)))
                         c b b2).
  { intros x1 y1 x2 y2 b Hb.
    destruct (px_painted x1 y1 c b Hb) as (b1 & E1 & P1 & _).
    destruct (px_painted x2 y2 c b1 (proj1 P1)) as (b2 & E2 & P2 & _).
    exists b2. split; [by rewrite E1|]. exact (painted_then _ _ _ _ _ _ P1 P2). }
  destruct (for_each_painted (seqZ 0 w)
              (fun i b => b' ← px (x + i) y c b; px (x + i) (y + h - 1) c b')
              (fun i x' y' => ((x' =? x + i) && (y' =? y + h - 1))
                              || ((x' =? x + i) && (y' =? y))) c)
    with (buf := buf) as (b1 & E1 & P1); [|done|].
  { intros i b Hb. apply Htwo, Hb. }
  destruct (for_each_painted (seqZ 0 h)
              (fun i b => b' ← px x (y + i) c b; px (x + w - 1) (y + i) c b')
              (fun i x' y' => ((x' =? x + w - 1) && (y' =? y + i))
                              || ((x' =? x) && (y' =? y + i))) c)
    with (buf := b1) as (b2 & E2 & P2); [|exact (proj1 P1)|].
  { intros i b Hb. apply Htwo, Hb. }
  exists b2. split; [unfold rect; by rewrite E1|].
  eapply painted_ext; [|exact (painted_then _ _ _ _ _ _ P1 P2)].
  intros x' y' _. simpl. apply bool_eq_iff.
  rewrite orb_true_iff, !existsb_range. unfold on_outline. split.
  - intros [(i & Hi & Hf)|(i & Hi & Hf)]; lia.
  - intros H.
    destruct ((x <=? x') && (x' <? x + w)
              && ((y' =? y) || (y' =? y + h - 1))) eqn:E.
    + right. exists (x' - x). lia.
    + left. exists (y' - y). lia.
Qed.

Lemma for_each_store v (k : nat) : forall (a : nat) (buf : list Z),
  0 <= v < 256 -> (a + k <= length buf)%nat ->
  exists buf',
    for_each (seqZ (Z.of_nat a) (Z.of_nat k)) (fun i b => store b i v) buf
    = Some buf'
    /\ length buf' = length buf
    /\ forall j : nat,
         buf' !! j = if decide (a <= j < a + k)%nat then Some v else buf !! j.
Proof.
  induction k as [|k IH]; intros a buf Hv Hlen.
  - exists buf. split; [done|]. split; [done|]. intros j.
    by rewrite decide_False by lia.
  - rewrite seqZ_cons by lia.
    replace (Z.succ (Z.of_nat a)) with (Z.of_nat (S a)) by lia.
    replace (Z.pred (Z.of_nat (S k))) with (Z.of_nat k) by lia.
    assert (Hst : store buf (Z.of_nat a) v = Some (<[a := v]> buf)).
    { unfold store, py_set.
      destruct (Z.leb_spec 0 v), (Z.ltb_spec v 256); try lia. simpl.
      rewrite py_index_nonneg by lia. simpl. by rewrite Nat2Z.id. }
    destruct (IH (S a) (<[a := v]> buf) Hv) as (buf' & E & Hl & Hlook).
    { rewrite length_insert. lia. }
    exists buf'. split; [simpl; by rewrite Hst|].
    split; [by rewrite Hl, length_insert|].
    intros j. rewrite Hlook.
    destruct (decide (S a <= j < S a + k)%nat).
    + by rewrite decide_True by lia.
    + destruct (decide (j = a)) as [->|Hne].
      * rewrite decide_True by lia. apply list_lookup_insert_eq. lia.
      * rewrite decide_False by lia. by apply list_lookup_insert_ne.
Qed.

Lemma for_each_store_all v (buf : list Z) :
  0 <= v < 256 -> length buf = 1024%nat ->
  for_each (seqZ 0 1024) (fun i b => store b i v) buf
  = Some (replicate 1024 v).
Proof.
  intros Hv Hlen.
  destruct (for_each_store v 1024 0 buf Hv) as (buf' & E & Hl & Hlook);
    [lia|].
  change (Z.of_nat 0) with 0 in E. change (Z.of_nat 1024) with 1024 in E.
  rewrite E. f_equal. apply list_eq. intros j. rewrite Hlook.
  destruct (decide (0 <= j < 0 + 1024)%nat).
  - symmetry. apply lookup_replicate_2. lia.
  - rewrite lookup_ge_None_2 by lia. symmetry.
    apply lookup_replicate_None. lia.
Qed.

Lemma pixel_replicate v x y :
  on_screen x y -> pixel (replicate 1024 v) x y = Z.testbit v (y `mod` 8).
Proof.
  intros Hon. destruct (byte_index x y Hon) as [Hi _].
  unfold pixel. by rewrite lookup_replicate_2 by lia.
Qed.

(** X22: [px] on a well-formed buffer never raises and writes one pixel:
    the pixel at [(x, y)] reads back as the colour given, every other
    pixel of the screen is as before, the buffer is still 1024 bytes, and
    a coordinate off the screen leaves the buffer untouched. *)
Theorem px_sets_one_pixel (x y c x' y' : Z) (buf : list Z) :
  buf_ok buf -> on_screen x' y' ->
  exists buf',
    px x y c buf = Some buf' /\ buf_ok buf'
    /\ pixel buf' x' y'
       = (if (x' =? x) && (y' =? y) then lit c else pixel buf x' y')
    /\ (on_screen x y \/ buf' = buf).
Proof.
  intros Hok Hon.
  destruct (px_painted x y c buf Hok) as (buf' & E & [Hok' Hpix] & Hclip).
  exists buf'. split; [done|]. split; [done|]. split; [|done].
  by apply Hpix.
Qed.

Lemma px_sets_one_pixel_witness :
  exists buf',
    px 5 9 1 new_buf = Some buf'
    /\ pixel buf' 5 9 = true /\ pixel buf' 5 10 = false.
Proof.
  destruct (px_sets_one_pixel 5 9 1 5 9 new_buf) as (b & H1 & _ & H3 & _).
  - split; [reflexivity|]. unfold new_buf. apply Forall_replicate. lia.
  - unfold on_screen; lia.
  - exists b. split; [exact H1|]. split; [exact H3|].
    vm_compute in H1. injection H1 as <-. reflexivity.
Defined.

(** X23: [frect] and [hline] on a well-formed buffer never raise,
    wherever the box lies and whatever its size: exactly the screen pixels
    inside the box (for [hline] the row of the given width) take the colour
    given, the part of the box off the screen is dropped, every other
    pixel is as before, and an empty or negative width or height draws
    nothing. *)
Theorem frect_fills_box (x y w h c x' y' : Z) (buf : list Z) :
  buf_ok buf -> on_screen x' y' ->
  exists b1 b2,
    frect x y w h c buf = Some b1 /\ buf_ok b1
    /\ pixel b1 x' y'
       = (if in_box x y w h x' y' then lit c else pixel buf x' y')
    /\ hline x y w c buf = Some b2 /\ buf_ok b2
    /\ pixel b2 x' y'
       = (if in_box x y w 1 x' y' then lit c else pixel buf x' y').
Proof.
  intros Hok Hon.
  destruct (frect_painted x y w h c buf Hok) as (b1 & E1 & [Hok1 P1]).
  destruct (hline_painted x y w c buf Hok) as (b2 & E2 & [Hok2 P2]).
  exists b1, b2. repeat (split; [done || by apply P1|]). by apply P2.
Qed.

Lemma frect_fills_box_witness :
  exists b1,
    frect 126 62 4 4 1 new_buf = Some b1
    /\ pixel b1 127 63 = true.
Proof.
  destruct (frect_fills_box 126 62 4 4 1 127 63 new_buf)
    as (b1 & b2 & H1 & _ & H3 & _).
  - split; [reflexivity|]. unfold new_buf. apply Forall_replicate. lia.
  - unfold on_screen; lia.
  - exists b1. split; [exact H1|exact H3].
Defined.

(** X24: [rect] on a well-formed buffer never raises and draws the
    outline only: a screen pixel takes the colour given exactly when it is
    on the top or bottom row within the width or on the left or right
    column within the height; the inside of the box and everything else is
    as before.  (With a width of 0 or less the two columns are still
    drawn, at [x] and [x + w - 1].) *)
Theorem rect_draws_outline (x y w h c x' y' : Z) (buf : list Z) :
  buf_ok buf -> on_screen x' y' ->
  exists buf',
    rect x y w h c buf = Some buf' /\ buf_ok buf'
    /\ pixel buf' x' y'
       = (if on_outline x y w h x' y' then lit c else pixel buf x' y').
Proof.
  intros Hok Hon.
  destruct (rect_painted x y w h c buf Hok) as (b1 & E1 & [Hok1 P1]).
  exists b1. split; [done|]. split; [done|]. by apply P1.
Qed.

Lemma rect_draws_outline_witness :
  exists buf',
    rect 10 10 12 12 1 new_buf = Some buf'
    /\ pixel buf' 21 15 = true /\ pixel buf' 15 15 = false.
Proof.
  destruct (rect_draws_outline 10 10 12 12 1 21 15 new_buf)
    as (b & H1 & _ & H3).
  - split; [reflexivity|]. unfold new_buf. apply Forall_replicate. lia.
  - unfold on_screen; lia.
  - destruct (rect_draws_outline 10 10 12 12 1 15 15 new_buf)
      as (b' & H1' & _ & H3').
    + split; [reflexivity|]. unfold new_buf. apply Forall_replicate. lia.
    + unfold on_screen; lia.
    + rewrite H1 in H1'. injection H1' as <-.
      exists b. split; [exact H1|]. split; [exact H3|exact H3'].
Defined.

(** X25: [clear] and [fill] on a buffer of 1024 bytes, whatever the bytes
    are, never raise and write every byte: after [clear] every pixel of
    the screen is off, after [fill] every pixel has the colour given, and
    the buffer is well formed. *)
Theorem clear_and_fill_cover_screen (c x' y' : Z) (buf : list Z) :
  length buf = 1024%nat -> on_screen x' y' ->
  exists b1 b2,
    clear buf = Some b1 /\ buf_ok b1 /\ pixel b1 x' y' = false
    /\ fill c buf = Some b2 /\ buf_ok b2 /\ pixel b2 x' y' = lit c.
Proof.
  intros Hlen Hon. destruct (byte_index x' y' Hon) as [_ Hk].
  exists (replicate 1024 0), (replicate 1024 (if negb (c =? 0) then 255 else 0)).
  split; [unfold clear; apply for_each_store_all; [lia|done]|].
  split; [split; [apply length_replicate|by apply Forall_replicate]|].
  split; [rewrite pixel_replicate by done; apply Z.bits_0|].
  split.
  { unfold fill. apply for_each_store_all; [|done].
    destruct (negb (c =? 0)); lia. }
  split.
  { split; [apply length_replicate|]. apply Forall_replicate.
    destruct (negb (c =? 0)); lia. }
  rewrite pixel_replicate by done. unfold lit.
  destruct (negb (c =? 0)); [|apply Z.bits_0].
  assert (Hb : y' `mod` 8 = 0 \/ y' `mod` 8 = 1 \/ y' `mod` 8 = 2
               \/ y' `mod` 8 = 3 \/ y' `mod` 8 = 4 \/ y' `mod` 8 = 5
               \/ y' `mod` 8 = 6 \/ y' `mod` 8 = 7) by lia.
  destruct Hb as [->|[->|[->|[->|[->|[->|[->| ->]]]]]]]; reflexivity.
Qed.

Lemma clear_and_fill_cover_screen_witness :
  exists b2, fill 1 new_buf = Some b2 /\ pixel b2 100 40 = true.
Proof.
  destruct (clear_and_fill_cover_screen 1 100 40 new_buf)
    as (b1 & b2 & _ & _ & _ & H4 & _ & H6).
  - reflexivity.
  - unfold on_screen; lia.
  - exists b2. split; [exact H4|exact H6].
Defined.

End Display.

(** ** The grid on the screen *)

(** X26: the grid always fits the screen: for a grid of [r] by [co]
    cells [draw] computes a cell size from 0 to 12 without dividing by
    zero, and the outline of every cell lies within the 128 columns and
    below the status bar within the 64 rows of the screen; on the grids of
    the level table (at most 4 by 4) the cell size is 11 or 12, enough for
    a glyph of 5 by 7 pixels drawn 3 pixels in and 2 pixels down. *)
Theorem draw_layout_fits (g : Game) (r co : nat) (row col : Z) :
  grid_shape r co (grd g) -> (0 < r)%nat -> (0 < co)%nat ->
  0 <= row < Z.of_nat r -> 0 <= col < Z.of_nat co ->
  exists sz sx sy,
    draw_layout g = Some (sz, sx, sy)
    /\ 0 <= sz <= 12 /\ sy = 16
    /\ 0 <= sx + col * sz /\ sx + col * sz + sz <= 128
    /\ 16 <= sy + row * sz /\ sy + row * sz + sz <= 64
    /\ ((4 < r)%nat \/ (4 < co)%nat \/ 11 <= sz).
Proof.
  intros [Hlen Hrows] Hr Hco Hrow Hcol.
  destruct (grd g) as [|row0 rest] eqn:Hg; simpl in Hlen; [lia|].
  apply Forall_cons in Hrows as [Hrow0 _].
  unfold draw_layout. rewrite Hg.
  replace (py_get (row0 :: rest) 0) with (Some row0) by done.
  change (length (row0 :: rest)) with (S (length rest)).
  rewrite Hlen. simpl. rewrite Hrow0.
  destruct (Z.eqb_spec (Z.of_nat r) 0); [lia|].
  destruct (Z.eqb_spec (Z.of_nat co) 0); [lia|]. simpl.
  set (R := Z.of_nat r) in *. set (C := Z.of_nat co) in *.
  set (sz := Z.min 12 (Z.min (46 `div` R) (120 `div` C))).
  assert (H46 : 0 <= 46 `div` R) by (apply Z.div_pos; lia).
  assert (H120 : 0 <= 120 `div` C) by (apply Z.div_pos; lia).
  assert (HR : R * (46 `div` R) <= 46) by (apply Z.mul_div_le; lia).
  assert (HC : C * (120 `div` C) <= 120) by (apply Z.mul_div_le; lia).
  assert (Hsz : 0 <= sz <= 12) by (unfold sz; lia).
  assert (HszR : R * sz <= 46) by (unfold sz; nia).
  assert (HszC : C * sz <= 120) by (unfold sz; nia).
  set (sx := (128 - C * sz) `div` 2).
  assert (Hsx1 : 0 <= sx) by (apply Z.div_pos; lia).
  assert (Hsx2 : 2 * sx <= 128 - C * sz) by (apply Z.mul_div_le; lia).
  exists sz, sx, (OFS + 12). split; [done|]. split; [done|].
  split; [done|]. unfold OFS.
  split; [nia|]. split; [nia|]. split; [nia|]. split; [nia|].
  destruct (decide (4 < r)%nat); [by left|].
  destruct (decide (4 < co)%nat); [by right; left|]. right; right.
  assert (H11a : 11 <= 46 `div` R) by (apply Z.div_le_lower_bound; lia).
  assert (H11b : 11 <= 120 `div` C) by (apply Z.div_le_lower_bound; lia).
  unfold sz. lia.
Qed.

Lemma draw_layout_fits_witness :
  draw_layout sample_final = Some (11, 42, 16).
Proof.
  destruct (draw_layout_fits sample_final 4 4 3 3)
    as (sz & sx & sy & H1 & _).
  - split; [reflexivity|repeat constructor].
  - lia.
  - lia.
  - lia.
  - lia.
  - rewrite H1. vm_compute in H1. injection H1 as <- <- <-. reflexivity.
Defined.

(** * Text and icons *)

Section Text.
Import SSD1306 Glyphs.

Lemma painted_touched sel box c b b' :
  (forall x y, on_screen x y -> sel x y = true -> box x y = true) ->
  painted sel c b b' -> touched box c b b'.
Proof.
  intros Hin [Hok H]. split; [done|]. intros x y Hon.
  rewrite (H x y Hon). destruct (sel x y) eqn:E; [right|by left].
  split; [by apply Hin|done].
Qed.

Lemma touched_refl box c b : buf_ok b -> touched box c b b.
Proof. intros H. split; [done|]. intros x y _. by left. Qed.

Lemma touched_trans box c b1 b2 b3 :
  touched box c b1 b2 -> touched box c b2 b3 -> touched box c b1 b3.
Proof.
  intros [_ H1] [Hok H2]. split; [done|]. intros x y Hon.
  destruct (H2 x y Hon) as [E|[Hb E]].
  - rewrite E. by apply H1.
  - by right.
Qed.

Lemma touched_mono box box' c b b' :
  (forall x y, on_screen x y -> box x y = true -> box' x y = true) ->
  touched box c b b' -> touched box' c b b'.
Proof.
  intros Hin [Hok H]. split; [done|]. intros x y Hon.
  destruct (H x y Hon) as [E|[Hb E]]; [by left|right].
  split; [by apply Hin|done].
Qed.

Lemma px_touched box x y c b :
  buf_ok b -> (on_screen x y -> box x y = true) ->
  exists b', px x y c b = Some b' /\ touched box c b b'.
Proof.
  intros Hok Hin. destruct (px_painted x y c b Hok) as (b' & E & P & Hon).
  exists b'. split; [done|].
  destruct Hon as [Hon| ->]; [|by apply touched_refl].
  eapply painted_touched; [|exact P]. intros x' y' _ Hsel. simpl in Hsel.
  assert (x' = x /\ y' = y) as [-> ->] by lia. by apply Hin.
Qed.

Lemma for_each_touched {A} (xs : list A) body box c :
  (forall a b, a ∈ xs -> buf_ok b ->
     exists b', body a b = Some b' /\ touched box c b b') ->
  forall b, buf_ok b ->
    exists b', for_each xs body b = Some b' /\ touched box c b b'.
Proof.
  induction xs as [|a xs IH]; intros Hbody b Hok.
  - exists b. split; [done|]. by apply touched_refl.
  - destruct (Hbody a b) as (b1 & E1 & T1); [by left|done|].
    destruct IH with (b := b1) as (b2 & E2 & T2).
    + intros a' b' Ha'. apply Hbody. by right.
    + apply T1.
    + exists b2. split; [simpl; by rewrite E1|].
      by eapply touched_trans.
Qed.

(** A font column is below 128: its bit 7 is clear. *)
Lemma high_bit_clear col : 0 <= col < 128 -> Z.land col (Z.shiftl 1 7) = 0.
Proof.
  intros Hcol. change (Z.shiftl 1 7) with (2 ^ 7).
  apply Z.bits_inj'. intros n Hn.
  rewrite Z.land_spec, Z.bits_0, Z.pow2_bits_eqb by lia.
  destruct (Z.eqb_spec 7 n) as [<-|_]; [|by rewrite andb_false_r].
  rewrite andb_true_r. apply Z.testbit_false; [lia|].
  by rewrite Z.div_small by lia.
Qed.

Lemma txt_column_touched col cx y c b :
  0 <= col < 128 -> buf_ok b ->
  exists b',
    txt_column col cx y c b = Some b' /\ touched (in_box cx y 1 7) c b b'.
Proof.
  intros Hcol Hok. unfold txt_column. apply for_each_touched; [|done].
  intros r b0 Hr Hb0. apply elem_of_seqZ in Hr.
  destruct (Z.land col (Z.shiftl 1 r) =? 0) eqn:E; simpl.
  - exists b0. split; [done|]. by apply touched_refl.
  - apply px_touched; [done|]. intros _.
    assert (r <> 7).
    { intros ->. by rewrite high_bit_clear in E. }
    unfold in_box. lia.
Qed.

Lemma txt_glyph_touched cols : forall cx y c b,
  Forall (fun col => 0 <= col < 128) cols -> buf_ok b ->
  exists b',
    txt_glyph cols y c (b, cx) = Some (b', cx + Z.of_nat (length cols))
    /\ touched (in_box cx y (Z.of_nat (length cols)) 7) c b b'.
Proof.
  induction cols as [|col cols IH]; intros cx y c b Hall Hok.
  - exists b. split; [|by apply touched_refl].
    simpl. by rewrite Z.add_0_r.
  - apply Forall_cons in Hall as [Hcol Hall].
    destruct (txt_column_touched col cx y c b Hcol Hok) as (b1 & E1 & T1).
    destruct (IH (cx + 1) y c b1 Hall (proj1 T1)) as (b2 & E2 & T2).
    exists b2. split.
    + cbn [length]. rewrite Nat2Z.inj_succ. unfold txt_glyph in *.
      cbn [for_each]. rewrite E1. cbn [mbind option_bind].
      rewrite E2. do 2 f_equal. lia.
    + cbn [length]. rewrite Nat2Z.inj_succ, <- Z.add_1_r.
      pose proof (Nat2Z.is_nonneg (length cols)) as Hk.
      revert T2 Hk. generalize (Z.of_nat (length cols)). intros k T2 Hk.
      eapply touched_trans.
      * eapply touched_mono; [|exact T1]. unfold in_box. intros; lia.
      * eapply touched_mono; [|exact T2]. unfold in_box. intros; lia.
Qed.

(** Every glyph of the font has five columns, each below 128. *)
Lemma F_glyph ch cols :
  F ch = Some cols ->
  length cols = 5%nat /\ Forall (fun col => 0 <= col < 128) cols.
Proof.
  destruct ch as [[] [] [] [] [] [] [] []]; intros H; vm_compute in H;
    try discriminate H; injection H as <-;
    (split; [reflexivity|repeat constructor; lia]).
Qed.

Lemma txt_char_touched ch y c b cx :
  buf_ok b ->
  let n := if decide (is_Some (F (upper ch))) then 1 else 0 in
  exists b',
    txt_char ch y c (b, cx) = Some (b', cx + 6 * n)
    /\ touched (in_box cx y (6 * n) 7) c b b'
    /\ (n = 0 -> b' = b).
Proof.
  intros Hok. unfold txt_char. destruct (F (upper ch)) as [cols|] eqn:EF.
  - destruct (F_glyph _ _ EF) as [Hlen Hall].
    destruct (txt_glyph_touched cols cx y c b Hall Hok) as (b1 & E1 & T1).
    rewrite Hlen in E1, T1. change (Z.of_nat 5) with 5 in E1, T1.
    rewrite decide_True by done.
    exists b1. rewrite E1. simpl. split; [do 2 f_equal; lia|].
    split; [|done].
    eapply touched_mono; [|exact T1]. unfold in_box. intros; lia.
  - rewrite decide_False by (by intros [? ?]).
    exists b. split; [by rewrite Z.add_0_r|]. split; [|done].
    by apply touched_refl.
Qed.

Lemma txt_loop_touched (s : list ascii) : forall y c b cx,
  buf_ok b ->
  let n := Z.of_nat (length (filter (fun ch => is_Some (F (upper ch))) s)) in
  exists b',
    for_each s (fun ch st => txt_char ch y c st) (b, cx)
    = Some (b', cx + 6 * n)
    /\ touched (in_box cx y (6 * n) 7) c b b'
    /\ (n = 0 -> b' = b).
Proof.
  induction s as [|ch s IH]; intros y c b cx Hok.
  - exists b. simpl. split; [by rewrite Z.add_0_r|]. split; [|done].
    by apply touched_refl.
  - destruct (txt_char_touched ch y c b cx Hok) as (b1 & E1 & T1 & Z1).
    destruct (IH y c b1
                (cx + 6 * (if decide (is_Some (F (upper ch))) then 1 else 0))
                (proj1 T1)) as (b2 & E2 & T2 & Z2).
    exists b2. cbn [for_each]. rewrite E1. cbn [mbind option_bind].
    rewrite E2. clear E1 E2.
    pose proof (Nat2Z.is_nonneg
                  (length (filter (fun ch => is_Some (F (upper ch))) s)))
      as Hk.
    destruct (decide (is_Some (F (upper ch)))) as [Hs|Hs].
    + rewrite filter_cons_True by done. cbn [length].
      rewrite Nat2Z.inj_succ, <- Z.add_1_r.
      revert T2 Z2 Hk.
      generalize (Z.of_nat
                    (length (filter (fun ch => is_Some (F (upper ch))) s))).
      intros k T2 Z2 Hk.
      split; [do 2 f_equal; lia|]. split; [|lia].
      eapply touched_trans.
      * eapply touched_mono; [|exact T1]. unfold in_box. intros; lia.
      * eapply touched_mono; [|exact T2]. unfold in_box. intros; lia.
    + rewrite filter_cons_False by done.
      rewrite (Z1 eq_refl) in *.
      revert T2 Z2 Hk.
      generalize (Z.of_nat
                    (length (filter (fun ch => is_Some (F (upper ch))) s))).
      intros k T2 Z2 Hk.
      split; [do 2 f_equal; lia|]. split; [|done].
      eapply touched_mono; [|exact T2]. unfold in_box. intros; lia.
Qed.

Lemma length_list_ascii (s : string) :
  length (list_ascii_of_string s) = String.length s.
Proof. induction s as [|ch s IH]; simpl; [done|by rewrite IH]. Qed.

Lemma glyphs_bound (s : string) :
  0 <= glyphs s <= Z.of_nat (String.length s).
Proof.
  unfold glyphs. rewrite <- length_list_ascii.
  pose proof (length_filter (fun ch => is_Some (F (upper ch)))
                (list_ascii_of_string s)). lia.
Qed.

(** What [txt] does to a well-formed buffer. *)
Lemma txt_touched (s : string) x y c b :
  buf_ok b ->
  exists b',
    txt s x y c b = Some b'
    /\ touched (in_box x y (6 * glyphs s) 7) c b b'
    /\ (glyphs s = 0 -> b' = b).
Proof.
  intros Hok.
  destruct (txt_loop_touched (list_ascii_of_string s) y c b x Hok)
    as (b' & E & T & Z0).
  exists b'. unfold txt. rewrite E. done.
Qed.

(** X27: [txt] on a well-formed buffer never raises, whatever the text
    and wherever it is drawn.  It only sets pixels to the colour given, and
    only inside the text box: seven rows from [y] down (row 8 of the cell
    is never used by the font) and six columns for each character that has
    a glyph.  A character without a glyph takes no room, and a text with no
    such character leaves the buffer as it is; the star that [draw] uses as
    disarm indicator is such a text, and so are J, Q and Z. *)
Theorem txt_stays_in_text_box (s : string) (x y c x' y' : Z) (buf : list Z) :
  buf_ok buf -> on_screen x' y' ->
  exists buf',
    txt s x y c buf = Some buf' /\ buf_ok buf'
    /\ (pixel buf' x' y' = pixel buf x' y'
        \/ (pixel buf' x' y' = lit c
            /\ x <= x' < x + 6 * glyphs s /\ y <= y' < y + 7))
    /\ 0 <= glyphs s <= Z.of_nat (String.length s)
    /\ (glyphs s = 0 -> buf' = buf)
    /\ glyphs "*" = 0 /\ glyphs "JQZjqz" = 0.
Proof.
  intros Hok Hon.
  destruct (txt_touched s x y c buf Hok) as (buf' & E & [Hok' T] & Z0).
  exists buf'. split; [done|]. split; [done|]. split.
  - destruct (T x' y' Hon) as [H|[Hb H]]; [by left|right].
    split; [done|]. unfold in_box in Hb. lia.
  - split; [apply glyphs_bound|]. split; [done|]. split; reflexivity.
Qed.

Lemma txt_stays_in_text_box_witness :
  exists buf',
    txt "L3" 0 4 1 new_buf = Some buf' /\ buf_ok buf'
    /\ (pixel buf' 0 4 = pixel new_buf 0 4
        \/ (pixel buf' 0 4 = lit 1
            /\ 0 <= 0 < 0 + 6 * glyphs "L3" /\ 4 <= 4 < 4 + 7))
    /\ 0 <= glyphs "L3" <= Z.of_nat (String.length "L3")
    /\ (glyphs "L3" = 0 -> buf' = new_buf)
    /\ glyphs "*" = 0 /\ glyphs "JQZjqz" = 0.
Proof.
  apply (txt_stays_in_text_box "L3" 0 4 1 0 4 new_buf).
  - split; [reflexivity|]. unfold new_buf. apply Forall_replicate. lia.
  - unfold on_screen. lia.
Defined.

Lemma clear_painted buf :
  length buf = 1024%nat ->
  exists b,
    clear buf = Some b /\ buf_ok b
    /\ forall x y, on_screen x y -> pixel b x y = false.
Proof.
  intros Hlen. exists (replicate 1024 0). split.
  - unfold clear. by apply for_each_store_all.
  - split.
    + split; [by rewrite length_replicate|]. apply Forall_replicate. lia.
    + intros x y Hon. rewrite pixel_replicate by done. apply Z.bits_0.
Qed.

(** X28: [msg] never raises on a buffer of 1024 bytes, whatever the
    message: the screen is wiped, and whatever is lit afterwards lies in
    the seven rows from 28 down, within six columns per character from the
    centred start; for a message of at most 21 characters that box lies
    within the 128 columns of the screen, its left margin and its right
    margin differing by at most one column. *)
Theorem msg_shows_centred_text (m : string) (x' y' : Z) (buf : list Z) :
  length buf = 1024%nat -> on_screen x' y' ->
  let n := Z.of_nat (String.length m) in
  let x0 := (128 - n * 6) `div` 2 in
  exists buf',
    msg m buf = Some buf' /\ buf_ok buf'
    /\ (pixel buf' x' y' = true ->
        x0 <= x' < x0 + 6 * n /\ 28 <= y' < 35)
    /\ (n <= 21 -> 0 <= x0 /\ x0 + 6 * n <= 128
                   /\ 128 - (x0 + 6 * n) = x0).
Proof.
  intros Hlen Hon n x0.
  destruct (clear_painted buf Hlen) as (b & Ec & Hb & Hoff).
  destruct (txt_touched m x0 28 1 b Hb) as (buf' & E & [Hok' T] & _).
  exists buf'. unfold msg. rewrite Ec. simpl. fold n. fold x0.
  split; [done|]. split; [done|]. split.
  - intros Hlit. destruct (T x' y' Hon) as [H|[Hbox _]].
    + rewrite H, (Hoff x' y' Hon) in Hlit. discriminate.
    + pose proof (glyphs_bound m). fold n in H. unfold in_box in Hbox. lia.
  - intros Hn. unfold x0.
    assert (Heven : 128 - n * 6 = 2 * (64 - 3 * n)) by lia.
    rewrite Heven, Z.mul_comm, Z.div_mul by lia. lia.
Qed.

Lemma msg_shows_centred_text_witness :
  exists buf',
    msg "TIME UP!" new_buf = Some buf' /\ buf_ok buf'
    /\ (pixel buf' 40 28 = true ->
        40 <= 40 < 40 + 6 * 8 /\ 28 <= 28 < 35)
    /\ (8 <= 21 -> 0 <= 40 /\ 40 + 6 * 8 <= 128
                   /\ 128 - (40 + 6 * 8) = 40).
Proof.
  apply (msg_shows_centred_text "TIME UP!" 40 28 new_buf).
  - reflexivity.
  - unfold on_screen. lia.
Defined.

Lemma touched_px_step box x y b1 b2 b3 :
  touched box 1 b1 b2 -> (on_screen x y -> box x y = true) ->
  px x y 1 b2 = Some b3 -> touched box 1 b1 b3.
Proof.
  intros T Hin E.
  destruct (px_touched box x y 1 b2 (proj1 T) Hin) as (b & E' & T').
  rewrite E in E'. injection E' as <-. by eapply touched_trans.
Qed.

(** What [chest] does to a well-formed buffer. *)
Lemma chest_touched x y (op : bool) b :
  buf_ok b ->
  exists b',
    chest x y op b = Some b'
    /\ touched (in_box x (if op then y - 4 else y) 16
                  (if op then 16 else 12)) 1 b b'.
Proof.
  intros Hok. unfold chest.
  destruct (rect_painted x (y + 4) 16 8 1 b Hok) as (b1 & E1 & P1).
  rewrite E1. cbn [mbind option_bind].
  destruct (hline_painted (x + 4) (y + 8) 8 1 b1 (proj1 P1))
    as (b2 & E2 & P2).
  rewrite E2. cbn [mbind option_bind].
  destruct (frect_painted (x + 6) (y + 6) 4 3 1 b2 (proj1 P2))
    as (b3 & E3 & P3).
  rewrite E3. cbn [mbind option_bind].
  assert (T3 : forall y0 h, y0 <= y -> y + 12 <= y0 + h ->
            touched (in_box x y0 16 h) 1 b b3).
  { intros y0 h Hy0 Hh. eapply touched_trans; [eapply touched_trans|].
    - eapply painted_touched; [|exact P1].
      unfold on_outline, in_box. intros; lia.
    - eapply painted_touched; [|exact P2]. unfold in_box. intros; lia.
    - eapply painted_touched; [|exact P3]. unfold in_box. intros; lia. }
  destruct op.
  - destruct (hline_painted (x + 2) y 12 1 b3 (proj1 P3)) as (b4 & E4 & P4).
    rewrite E4. cbn [mbind option_bind].
    destruct (hline_painted (x + 1) (y + 1) 14 1 b4 (proj1 P4))
      as (b5 & E5 & P5).
    rewrite E5. cbn [mbind option_bind].
    destruct (rect_painted x (y + 2) 16 3 1 b5 (proj1 P5)) as (b6 & E6 & P6).
    rewrite E6. cbn [mbind option_bind].
    destruct (for_each_touched (seqZ 0 3)
                (fun i b => px (x + 8) (y - 2 - i) 1 b)
                (in_box x (y - 4) 16 16) 1) with (b := b6)
      as (b7 & E7 & T7).
    { intros i b0 Hi Hb0. apply elem_of_seqZ in Hi.
      apply px_touched; [done|]. intros _. unfold in_box. lia. }
    { apply P6. }
    rewrite E7. cbn [mbind option_bind].
    destruct (px_touched (in_box x (y - 4) 16 16) (x + 6) (y - 1) 1 b7)
      as (b8 & E8 & T8); [apply T7|intros _; unfold in_box; lia|].
    rewrite E8. cbn [mbind option_bind].
    destruct (px_touched (in_box x (y - 4) 16 16) (x + 10) (y - 1) 1 b8)
      as (b9 & E9 & T9); [apply T8|intros _; unfold in_box; lia|].
    exists b9. split; [done|].
    eapply touched_trans; [|exact T9].
    eapply touched_trans; [|exact T8].
    eapply touched_trans; [|exact T7].
    eapply touched_trans; [eapply touched_trans; [eapply touched_trans|]|].
    + apply T3; lia.
    + eapply painted_touched; [|exact P4]. unfold in_box. intros; lia.
    + eapply painted_touched; [|exact P5]. unfold in_box. intros; lia.
    + eapply painted_touched; [|exact P6].
      unfold on_outline, in_box. intros; lia.
  - destruct (rect_painted x y 16 5 1 b3 (proj1 P3)) as (b4 & E4 & P4).
    rewrite E4. cbn [mbind option_bind].
    destruct (hline_painted (x + 4) (y + 2) 8 1 b4 (proj1 P4))
      as (b5 & E5 & P5).
    exists b5. split; [done|].
    eapply touched_trans; [eapply touched_trans|].
    + apply T3; lia.
    + eapply painted_touched; [|exact P4].
      unfold on_outline, in_box. intros; lia.
    + eapply painted_touched; [|exact P5]. unfold in_box. intros; lia.
Qed.

(** What [bomb] does to a well-formed buffer. *)
Lemma bomb_touched x y b :
  buf_ok b ->
  exists b',
    bomb x y b = Some b' /\ touched (in_box (x + 2) (y - 1) 8 15) 1 b b'.
Proof.
  intros Hok. unfold bomb.
  destruct (for_each_touched (seqZ 0 8)
              (fun dy b =>
                 for_each (seqZ 0 8)
                   (fun dx b' =>
                      if (dx - 4) ^ 2 + (dy - 4) ^ 2 <=? 16
                      then px (x + dx + 2) (y + dy + 6) 1 b'
                      else Some b')
                   b)
              (in_box (x + 2) (y - 1) 8 15) 1) with (b := b)
    as (b1 & E1 & T1); [|done|].
  { intros dy b0 Hdy Hb0. apply elem_of_seqZ in Hdy.
    apply for_each_touched; [|done].
    intros dx b0' Hdx Hb0'. apply elem_of_seqZ in Hdx.
    destruct ((dx - 4) ^ 2 + (dy - 4) ^ 2 <=? 16).
    - apply px_touched; [done|]. intros _. unfold in_box. lia.
    - exists b0'. split; [done|]. by apply touched_refl. }
  rewrite E1. cbn [mbind option_bind].
  destruct (frect_painted (x + 4) (y + 3) 4 4 1 b1 (proj1 T1))
    as (b2 & E2 & P2).
  rewrite E2. cbn [mbind option_bind].
  assert (T2 : touched (in_box (x + 2) (y - 1) 8 15) 1 b b2).
  { eapply touched_trans; [exact T1|].
    eapply painted_touched; [|exact P2]. unfold in_box. intros; lia. }
  destruct (px_touched (in_box (x + 2) (y - 1) 8 15) (x + 6) (y + 2) 1 b2)
    as (b3 & E3 & T3); [apply T2|intros _; unfold in_box; lia|].
  rewrite E3. cbn [mbind option_bind].
  destruct (px_touched (in_box (x + 2) (y - 1) 8 15) (x + 7) (y + 1) 1 b3)
    as (b4 & E4 & T4); [apply T3|intros _; unfold in_box; lia|].
  rewrite E4. cbn [mbind option_bind].
  destruct (px_touched (in_box (x + 2) (y - 1) 8 15) (x + 8) y 1 b4)
    as (b5 & E5 & T5); [apply T4|intros _; unfold in_box; lia|].
  rewrite E5. cbn [mbind option_bind].
  destruct (px_touched (in_box (x + 2) (y - 1) 8 15) (x + 9) y 1 b5)
    as (b6 & E6 & T6); [apply T5|intros _; unfold in_box; lia|].
  rewrite E6. cbn [mbind option_bind].
  destruct (px_touched (in_box (x + 2) (y - 1) 8 15) (x + 8) (y - 1) 1 b6)
    as (b7 & E7 & T7); [apply T6|intros _; unfold in_box; lia|].
  exists b7. split; [done|].
  eapply touched_trans; [|exact T7].
  eapply touched_trans; [|exact T6].
  eapply touched_trans; [|exact T5].
  eapply touched_trans; [|exact T4].
  by eapply touched_trans.
Qed.

(** X29: the icons never raise on a well-formed buffer, wherever they
    are drawn, and stay in their boxes: [chest] only lights pixels, within
    16 columns from [x] and the 12 rows from [y] down when closed, or the 16
    rows from [y - 4] down when open (the sparkles rise four rows above
    [y]); [bomb] only lights pixels, within the 8 columns from [x + 2] and
    the 15 rows from [y - 1] down. *)
Theorem icons_stay_in_their_boxes
  (x y x' y' : Z) (op : bool) (buf : list Z) :
  buf_ok buf -> on_screen x' y' ->
  exists b1 b2,
    chest x y op buf = Some b1 /\ buf_ok b1
    /\ (pixel b1 x' y' = pixel buf x' y'
        \/ (pixel b1 x' y' = true
            /\ x <= x' < x + 16
            /\ (if op then y - 4 else y) <= y' < y + 12))
    /\ bomb x y buf = Some b2 /\ buf_ok b2
    /\ (pixel b2 x' y' = pixel buf x' y'
        \/ (pixel b2 x' y' = true
            /\ x + 2 <= x' < x + 10 /\ y - 1 <= y' < y + 14)).
Proof.
  intros Hok Hon.
  destruct (chest_touched x y op buf Hok) as (b1 & E1 & Hok1 & T1).
  destruct (bomb_touched x y buf Hok) as (b2 & E2 & Hok2 & T2).
  exists b1, b2. repeat (split; [done|]). split.
  - destruct (T1 x' y' Hon) as [H|[Hb H]]; [by left|right].
    split; [done|]. unfold in_box in Hb. destruct op; lia.
  - split; [done|]. split; [done|].
    destruct (T2 x' y' Hon) as [H|[Hb H]]; [by left|right].
    split; [done|]. unfold in_box in Hb. lia.
Qed.

Lemma icons_stay_in_their_boxes_witness :
  exists b1 b2,
    chest 25 26 false new_buf = Some b1 /\ buf_ok b1
    /\ (pixel b1 25 26 = pixel new_buf 25 26
        \/ (pixel b1 25 26 = true
            /\ 25 <= 25 < 25 + 16 /\ 26 <= 26 < 26 + 12))
    /\ bomb 25 26 new_buf = Some b2 /\ buf_ok b2
    /\ (pixel b2 25 26 = pixel new_buf 25 26
        \/ (pixel b2 25 26 = true
            /\ 25 + 2 <= 25 < 25 + 10 /\ 26 - 1 <= 26 < 26 + 14)).
Proof.
  apply (icons_stay_in_their_boxes 25 26 25 26 false new_buf).
  - split; [reflexivity|]. unfold new_buf. apply Forall_replicate. lia.
  - unfold on_screen. lia.
Defined.

End Text.

(** * The loop of [play] with its calls to the LED and the display *)

Lemma for_each_tt {X} (xs : list X) (body : X -> unit -> option unit) :
  (forall a, a ∈ xs -> body a tt = Some tt) ->
  SSD1306.for_each xs body tt = Some tt.
Proof.
  induction xs as [|a xs IH]; intros H; [done|].
  simpl. rewrite (H a) by left. simpl. apply IH.
  intros a' Ha'. apply H. by right.
Qed.

Lemma grid_get {X} (r co : nat) (m : list (list X)) (i j : Z) :
  grid_shape r co m -> 0 <= i < Z.of_nat r -> 0 <= j < Z.of_nat co ->
  exists row x, py_get m i = Some row /\ py_get row j = Some x.
Proof.
  intros [Hlen Hrows] Hi Hj.
  destruct (lookup_lt_is_Some_2 m (Z.to_nat i)) as [row Hrow]; [lia|].
  assert (Hco : length row = co).
  { rewrite Forall_forall in Hrows. apply Hrows.
    by eapply list_elem_of_lookup_2. }
  destruct (lookup_lt_is_Some_2 row (Z.to_nat j)) as [x Hx]; [lia|].
  exists row, x. by rewrite !py_get_nonneg by lia.
Qed.

Lemma uled_some g : is_Some (cfg (df g)) -> is_Some (uled g).
Proof. intros [c Hc]. unfold uled. rewrite Hc. by eexists. Qed.

(** On a session that is ready for its level [draw] finds every entry it
    looks up and divides by no zero. *)
Lemma draw_ready g : level_ready g -> draw g = Some tt.
Proof.
  intros (_ & r & co & tr & bm & nd & Hl & Hg & Hr & Hp).
  destruct (lvl_entry _ _ _ _ _ _ Hl) as (_ & Hr2 & Hco2 & _).
  unfold draw. rewrite Hl. simpl.
  destruct (grid_get r co (grd g) 0 0 Hg) as (row0 & x & Hrow0 & Hx);
    [lia..|].
  rewrite Hrow0. simpl.
  assert (Hlen0 : length row0 = co).
  { destruct Hg as [_ Hrows]. rewrite Forall_forall in Hrows.
    apply Hrows. unfold py_get in Hrow0.
    destruct (py_index (grd g) 0) as [k|]; [|done].
    by eapply list_elem_of_lookup_2. }
  destruct Hg as [Hgl Hgr]. rewrite Hgl, Hlen0.
  destruct (Z.eqb_spec (Z.of_nat r) 0); [lia|].
  destruct (Z.eqb_spec (Z.of_nat co) 0); [lia|]. simpl.
  apply for_each_tt. intros i Hi. apply elem_of_seqZ in Hi.
  apply for_each_tt. intros j Hj. apply elem_of_seqZ in Hj.
  unfold draw_cell.
  destruct ((i =? (pos g).1) && (j =? (pos g).2)); [done|].
  destruct (grid_get r co (rev g) i j Hr) as (row & v & Hrow & Hv);
    [lia..|].
  rewrite Hrow. simpl. rewrite Hv. simpl. destruct v; [|done].
  destruct (grid_get r co (grd g) i j (conj Hgl Hgr))
    as (grow & k & Hgrow & Hk); [lia..|].
  rewrite Hgrow. simpl. by rewrite Hk.
Qed.

(** Wherever the difficulty is a key of [cfg], [dig] with its calls of
    [uled] is [dig]. *)
Lemma dig_io_agrees t1 t2 g :
  is_Some (cfg (df g)) -> dig_io t1 t2 g = dig t1 t2 g.
Proof.
  intros Hc. unfold dig_io, dig. destruct (pos g) as [r c].
  destruct (py_get (rev g) r) as [row|]; [|done]. simpl.
  destruct (py_get row c) as [[]|]; [done| |done]. simpl.
  destruct (py_set row c true) as [row'|]; [|done]. simpl.
  destruct (py_set (rev g) r row') as [rev'|]; [|done]. simpl.
  destruct (py_get (grd g) r) as [grow|]; [|done]. simpl.
  destruct (py_get grow c) as [[]|]; [| | |done]; simpl.
  - done.
  - by destruct (uled_some (set_sc (sc g + 50)
                              (set_fnd (fnd g + 1) (set_rev rev' g))) Hc)
      as [col ->].
  - destruct (shake_event_available g); [done|].
    by destruct (uled_some (set_hp (hp g - 1) (set_rev rev' g)) Hc)
      as [col ->].
Qed.

(** Whenever [dig] with its calls of [uled] returns, [dig] returns the
    same. *)
Lemma dig_io_refines t1 t2 g g' :
  dig_io t1 t2 g = Some g' -> dig t1 t2 g = Some g'.
Proof.
  unfold dig_io, dig. destruct (pos g) as [r c].
  destruct (py_get (rev g) r) as [row|]; [|done]. simpl.
  destruct (py_get row c) as [[]|]; [done| |done]. simpl.
  destruct (py_set row c true) as [row'|]; [|done]. simpl.
  destruct (py_set (rev g) r row') as [rev'|]; [|done]. simpl.
  destruct (py_get (grd g) r) as [grow|]; [|done]. simpl.
  destruct (py_get grow c) as [[]|]; [| | |done]; simpl.
  - done.
  - by destruct (uled _).
  - destruct (shake_event_available g); [done|]. by destruct (uled _).
Qed.

(** Whenever an iteration of the loop with its calls of [uled] and [draw]
    returns, [play_step] returns the same: what is proved of the results of
    [play_step] holds of every iteration of the loop that does not
    raise. *)
Lemma play_step_io_refines i l g res :
  play_step_io i l g = Some res -> play_step i l g = Some res.
Proof.
  unfold play_step_io, play_step.
  destruct (bomb_disarm_active g).
  - unfold disarm_step_io, disarm_step.
    destruct (Qgeb _ _).
    + destruct (uled _); [|done]. simpl.
      destruct (_ <=? 0); [done|]. by destruct (draw _).
    + destruct (check_shake _ _); [|done].
      destruct (uled _); [|done]. simpl. by destruct (draw _).
  - simpl. destruct (_ <=? 0).
    + destruct (uled _); [|done]. simpl.
      destruct (_ <=? 0); [done|].
      destruct (ilvl _ _ _) as [g2|]; [|done]. simpl.
      destruct (uled g2); [|done]. simpl. by destruct (draw g2).
    + destruct (renc _ _ _ _) as [d g1].
      destruct (negb (d =? 0) && Qltb (8 # 100) _).
      * destruct (move d g1) as [g'|]; [|done]. simpl.
        destruct (draw g'); [|done]. simpl.
        destruct (Qltb (5 # 10) _); simpl.
        -- destruct (draw g'); [|done]. simpl.
           destruct (cbtn _ _ _ _) as [[] g3]; [|done].
           destruct (dig_io _ _ g3) as [g4|] eqn:Ed; [|done].
           rewrite (dig_io_refines _ _ _ _ Ed). simpl.
           by destruct (draw g4).
        -- destruct (cbtn _ _ _ _) as [[] g3]; [|done].
           destruct (dig_io _ _ g3) as [g4|] eqn:Ed; [|done].
           rewrite (dig_io_refines _ _ _ _ Ed). simpl.
           by destruct (draw g4).
      * simpl. destruct (Qltb (5 # 10) _); simpl.
        -- destruct (draw g1); [|done]. simpl.
           destruct (cbtn _ _ _ _) as [[] g3]; [|done].
           destruct (dig_io _ _ g3) as [g4|] eqn:Ed; [|done].
           rewrite (dig_io_refines _ _ _ _ Ed). simpl.
           by destruct (draw g4).
        -- destruct (cbtn _ _ _ _) as [[] g3]; [|done].
           destruct (dig_io _ _ g3) as [g4|] eqn:Ed; [|done].
           rewrite (dig_io_refines _ _ _ _ Ed). simpl.
           by destruct (draw g4).
Qed.

(** Closes a call of [uled] or [draw] on a session made from the ready
    session [g0]. *)
Ltac io_call g0 :=
  lazymatch goal with
  | |- context [uled ?X] =>
      let col := fresh "col" in
      let E := fresh "E" in
      destruct (uled_some X) as [col E];
      [simpl; eauto|rewrite E; simpl; clear E; try clear col]
  | |- context [draw ?X] =>
      rewrite (draw_ready X) by (ready_from g0); simpl
  end.

(** On a session that is ready for its level an iteration of the loop
    with its calls of [uled] and [draw] returns. *)
Lemma play_step_io_returns i l g :
  level_ready g -> is_Some (play_step_io i l g).
Proof.
  intros Hready.
  pose proof Hready as ([c Hc] & r & co & tr & bm & nd & Hl & Hg & Hr & Hp).
  destruct (lvl_entry _ _ _ _ _ _ Hl) as (Hlv & Hr2 & Hco2 & Hfit & Hnd).
  unfold play_step_io.
  destruct (bomb_disarm_active g) eqn:Hdis.
  - unfold disarm_step_io.
    destruct (Qltb (5 # 10) (i_now i - last_tick_time g));
      (destruct (Qgeb _ _);
       [|destruct (check_shake _ _); [|by eexists]]); simpl.
    all: io_call g.
    all: try (destruct (Z.leb_spec (hp g - 1) 0); [by eexists|]).
    all: io_call g.
    all: by eexists.
  - set (rm := remaining (tlm g) (stm g) (i_now i)).
    destruct (Z.leb_spec rm 0) as [Hto|Hleft].
    + simpl. io_call g. destruct (Z.leb_spec (hp g - 1) 0); [by eexists|].
      destruct (ilvl_facts (i_rnd i) (i_lvl_now i) (set_hp (hp g - 1) g) c)
        as (g2 & r2 & co2 & tr2 & bm2 & nd2 & E & _ & Hready2 & _ & _ & _
            & _ & _ & _ & _ & _ & _ & Hdf2 & _);
        [done..|].
      rewrite E. simpl.
      destruct (uled_some g2) as [col Eu];
        [rewrite Hdf2; simpl; eauto|].
      rewrite Eu, (draw_ready g2 Hready2). by eexists.
    + simpl.
      destruct (renc_frame (i_enc_a i) (i_enc_b i) (i_enc_now i) g)
        as (d & e' & Hrenc).
      rewrite Hrenc.
      assert (Hmv : forall d0,
                valid_pos (Z.of_nat r) (Z.of_nat co)
                  (move_pos (Z.of_nat r) (Z.of_nat co) d0 (pos g))).
      { intros d0. apply move_pos_valid; [lia..|done]. }
      destruct (negb (d =? 0) && Qltb (8 # 100) (i_now i - le _));
        [rewrite (move_on_grid d (set_enc e' g) r co) by (done || lia);
         simpl; io_call g|];
        simpl;
        (destruct (Qltb (5 # 10) _); simpl; [io_call g|]);
        (match goal with
         | |- context [cbtn ?t ?e ?b ?G] =>
             destruct (cbtn_cases t e b G) as [Hcb|[Hcb|Hcb]]; rewrite Hcb
         end);
        try (rewrite dig_io_agrees by (simpl; eauto);
             match goal with
             | |- context [dig ?a ?b ?G] =>
                 destruct (dig_explicit a b G r co)
                   as (v & k & rev' & Hrev' & Hdig);
                 [simpl; done..|rewrite Hdig]
             end);
        simpl.
      all: try destruct v; try destruct k;
        try destruct (shake_event_available g) eqn:Hsea; simpl.
      all: try io_call g.
      all: try match goal with
               | |- context [?a <=? 0] => destruct (Z.leb_spec a 0)
               end.
      all: try (rewrite (check_clear_cases rm _ _ r co tr bm nd)
                  by (simpl; exact Hl); simpl).
      all: by eexists.
Qed.

(** On a session that is ready for its level the iteration with its calls
    of [uled] and [draw] and [play_step] are the same. *)
Lemma play_step_io_agrees i l g :
  level_ready g -> play_step_io i l g = play_step i l g.
Proof.
  intros Hready.
  destruct (play_step_io_returns i l g Hready) as [res E].
  by rewrite E, (play_step_io_refines _ _ _ _ E).
Qed.

(** Entering [play] on a session with a difficulty and a level of the
    tables: the level is generated, the calls of [uled] and [draw] find
    what they look up, and the session is ready for its level. *)
Lemma play_enter_io_ready rnd t_stm t_ld g :
  is_Some (cfg (df g)) -> 1 <= lv g <= 9 ->
  exists g2 l2,
    play_enter_io rnd t_stm t_ld g = Some (g2, l2)
    /\ play_enter rnd t_stm t_ld g = Some (g2, l2)
    /\ level_ready g2.
Proof.
  intros [c Hc] Hlv. unfold play_enter_io, play_enter.
  destruct (ilvl_facts rnd t_stm g c Hc Hlv)
    as (g2 & r2 & co2 & tr2 & bm2 & nd2 & E & _ & Hready2 & _ & _ & _
        & _ & _ & _ & _ & _ & _ & Hdf2 & _).
  rewrite E. simpl.
  destruct (uled_some g2) as [col Eu]; [rewrite Hdf2; eauto|].
  rewrite Eu, (draw_ready g2 Hready2). simpl. by eexists; eexists.
Qed.

(** [msg] reads nothing of the session: on the 1024 bytes of the driver's
    buffer it returns, whatever the message and the bytes are. *)
Lemma msg_returns (m : string) (buf : list Z) :
  length buf = 1024%nat ->
  exists buf', msg m buf = Some buf' /\ SSD1306.buf_ok buf'.
Proof.
  intros Hlen. unfold msg.
  destruct (clear_painted buf Hlen) as (b & Ec & Hb & _).
  rewrite Ec. simpl.
  destruct (txt_touched m ((128 - Z.of_nat (String.length m) * 6) `div` 2)
              28 1 b Hb) as (buf' & E & [Hok _] & _).
  by exists buf'.
Qed.

(** ** The disarm sub-state *)

(** C2 (as amended): while the disarm sub-state is active an iteration
    of the loop on a session that is ready for its level (as [ilvl] makes
    it and every iteration of the loop keeps it), with the calls of [uled]
    and [draw] of the branch or without them, first compares the time
    elapsed since the disarm started with the disarm duration.  If the duration is reached the sub-state resolves
    FAILURE whatever the motion sample is (deactivate, one health lost, no
    bonus, OVER when the health is then at most 0), so a simultaneous shake
    and time-out resolves to FAILURE.  Only otherwise is the motion sample
    looked at: if its magnitude exceeds the gravity baseline by more than
    the shake threshold the sub-state resolves SUCCESS (deactivate, 100
    points, no health lost), else it stays active. *)
Theorem disarm_step_outcome (i : play_in) (l : play_loc) (g : Game) :
  level_ready g ->
  bomb_disarm_active g = true ->
  exists g' l',
    play_step_io i l g = Some (g', l', Continue)
    /\ play_step i l g = Some (g', l', Continue)
    /\ (((shake_duration g <= i_now i - shake_start_time g)%Q
         /\ bomb_disarm_active g' = false
         /\ hp g' = hp g - 1 /\ sc g' = sc g
         /\ st g' = (if hp g - 1 <=? 0 then OVER else st g))
        \/ ((i_now i - shake_start_time g < shake_duration g)%Q
            /\ check_shake (i_accel i) g = true
            /\ bomb_disarm_active g' = false
            /\ sc g' = sc g + 100 /\ hp g' = hp g /\ st g' = st g)
        \/ ((i_now i - shake_start_time g < shake_duration g)%Q
            /\ check_shake (i_accel i) g = false
            /\ bomb_disarm_active g' = true
            /\ sc g' = sc g /\ hp g' = hp g /\ st g' = st g)).
Proof.
  intros Hready Hact. rewrite (play_step_io_agrees i l g Hready).
  unfold play_step. rewrite Hact. unfold disarm_step.
  set (g1 := if Qltb (5 # 10) (i_now i - last_tick_time g)
             then set_last_tick_time (i_now i) g else g).
  assert (Hg1 : shake_duration g1 = shake_duration g
                /\ hp g1 = hp g /\ sc g1 = sc g /\ st g1 = st g
                /\ bomb_disarm_active g1 = bomb_disarm_active g
                /\ check_shake (i_accel i) g1 = check_shake (i_accel i) g).
  { unfold g1. by destruct (Qltb _ _). }
  destruct Hg1 as (Hd & Hhp & Hsc & Hst & Hb & Hcs).
  rewrite Hd, Hcs.
  destruct (Qgeb (i_now i - shake_start_time g) (shake_duration g)) eqn:Hto.
  - apply Qgeb_ge in Hto. simpl. rewrite Hhp.
    destruct (hp g - 1 <=? 0); eexists; eexists;
      (split; [reflexivity|]); (split; [reflexivity|]);
      left; simpl; by rewrite ?Hhp, ?Hsc, ?Hst.
  - assert (Hlt : (i_now i - shake_start_time g < shake_duration g)%Q).
    { apply Qnot_le_lt. intros Hle. apply Qgeb_ge in Hle. congruence. }
    destruct (check_shake (i_accel i) g) eqn:Hshake.
    + eexists; eexists; (split; [reflexivity|]); (split; [reflexivity|]).
      right; left. simpl. by rewrite ?Hhp, ?Hsc, ?Hst.
    + eexists; eexists; (split; [reflexivity|]); (split; [reflexivity|]).
      right; right. by rewrite ?Hhp, ?Hsc, ?Hst, ?Hb.
Qed.

(** A shake one second into the disarm. *)
Lemma disarm_step_outcome_witness :
  exists g' l',
    play_step_io
      (PlayIn 13 (Some (0%Q, 0%Q, 20%Q)) true true 13000 13 true true 13 13
              [] 13)
      (PlayLoc 12 0 (-1)) sample_disarm
    = Some (g', l', Continue)
    /\ bomb_disarm_active g' = false /\ sc g' = 100 /\ hp g' = 6.
Proof.
  destruct (disarm_step_outcome
              (PlayIn 13 (Some (0%Q, 0%Q, 20%Q)) true true 13000 13 true true
                      13 13 [] 13)
              (PlayLoc 12 0 (-1)) sample_disarm)
    as (g' & l' & Hstep & _
        & [(Hto & _)|[(_ & _ & Hb & Hsc & Hhp & _)|(_ & Hs & _)]]).
  - ready_by_computation 2%nat 2%nat 2%nat 1%nat 1.
  - reflexivity.
  - exfalso. vm_compute in Hto. by apply Hto.
  - exists g', l'. split; [exact Hstep|]. split; [exact Hb|].
    split; [exact Hsc|exact Hhp].
  - exfalso. vm_compute in Hs. discriminate Hs.
Defined.

(** C2 as stated fails: with a shake sampled in the very iteration in
    which the three seconds have elapsed, the disarm resolves FAILURE: one
    health point is lost and no bonus is awarded. *)
Lemma disarm_simultaneous_counterexample :
  exists g' l',
    play_step
      (PlayIn 15 (Some (0%Q, 0%Q, 20%Q)) true true 15000 15 true true 15 15
              [] 15)
      (PlayLoc 12 0 (-1)) sample_disarm
    = Some (g', l', Continue)
    /\ play_step_io
         (PlayIn 15 (Some (0%Q, 0%Q, 20%Q)) true true 15000 15 true true 15
                 15 [] 15)
         (PlayLoc 12 0 (-1)) sample_disarm
       = Some (g', l', Continue)
    /\ bomb_disarm_active sample_disarm = true
    /\ check_shake (Some (0%Q, 0%Q, 20%Q)) sample_disarm = true
    /\ bomb_disarm_active g' = false
    /\ hp g' = hp sample_disarm - 1
    /\ sc g' = sc sample_disarm
    /\ sc g' <> sc sample_disarm + 100.
Proof.
  eexists. eexists. split; [vm_compute; reflexivity|].
  split; [vm_compute; reflexivity|].
  repeat split; done.
Qed.

(** X10: on a session that is ready for its level, an iteration of the
    loop of [play] never raises, its calls of [uled] and [draw] included:
    every dictionary key and list index that the iteration, [move], [dig],
    [ilvl], [uled] and [draw] use exists, and [draw] divides by no zero.
    The iteration gives what [play_step] gives, keeps the difficulty, and
    unless it leaves the loop by [break] the session is again ready for the
    same level, so the loop can go on for ever without an error; and when
    the loop is left in state PLAY, the next call of [play] generates the
    next level, with its calls of [uled] and [draw], without an error
    either.  The call of [msg] on a time-out reads nothing of the session;
    it returns on the 1024 bytes of the display buffer, whatever they
    are. *)
Theorem play_step_never_raises (i : play_in) (l : play_loc) (g : Game) :
  level_ready g ->
  exists g' l' f,
    play_step_io i l g = Some (g', l', f)
    /\ play_step i l g = Some (g', l', f)
    /\ df g' = df g
    /\ (f = Continue -> lv g' = lv g /\ level_ready g')
    /\ (f = Break -> st g' = PLAY ->
        forall rnd t_stm t_ld,
        exists g2 l2,
          play_enter_io rnd t_stm t_ld g' = Some (g2, l2)
          /\ level_ready g2)
    /\ (forall m buf, length buf = 1024%nat -> is_Some (msg m buf)).
Proof.
  intros Hready.
  destruct (play_step_cases i l g Hready)
    as (g' & l' & f & Hstep & Hdf & _ & Hcont & Hbreak & _).
  exists g', l', f.
  split; [by rewrite (play_step_io_agrees i l g Hready)|].
  split; [done|]. split; [done|]. split; [|split].
  - intros Hf. by destruct (Hcont Hf) as (? & ? & _).
  - intros Hf Hst rnd t_stm t_ld.
    destruct Hready as (Hcfg & r & co & tr & bm & nd & Hl & _).
    destruct (lvl_entry _ _ _ _ _ _ Hl) as (Hlv & _).
    destruct (play_enter_io_ready rnd t_stm t_ld g')
      as (g2 & l2 & E & _ & Hready2).
    + by rewrite Hdf.
    + destruct (Hbreak Hf) as [(Ho & _)|(Hn & [(H9 & _)|(_ & H10)])];
        [congruence|lia|congruence].
    + by exists g2, l2.
  - intros m buf Hlen.
    destruct (msg_returns m buf Hlen) as (buf' & E & _). by exists buf'.
Qed.

Lemma play_step_never_raises_witness :
  exists g' l' f,
    play_step_io (idle_play_in 20) (PlayLoc 0 0 (-1)) sample_play
    = Some (g', l', f)
    /\ df g' = 0.
Proof.
  destruct (play_step_never_raises (idle_play_in 20) (PlayLoc 0 0 (-1))
              sample_play) as (g' & l' & f & H1 & _ & H2 & _).
  - ready_by_computation 2%nat 2%nat 2%nat 1%nat 1.
  - by exists g', l', f.
Defined.

